(** * The celebrity-mention scraper: a shallow embedding and its properties

    The development follows the Python sources under [scraper/]:
    [config.py], [text_processor.py], [google_scraper.py],
    [crawl4ai_scraper.py], [database_handler.py] and
    [scraping_pipeline.py].  Python values are modelled as follows.

    - a [str] is the list of its Unicode code points, so that [len] is
      [length] and a CJK ideograph is one element;
    - an [int] is a [Z];
    - a [float] that holds a confidence score, a ratio of two lengths or
      a delay is a rational [Q].  The thresholds of the code are decimal
      constants and the ratio is a quotient of two string lengths; for
      lengths below 2^49 the binary64 quotient compares with the rounded
      thresholds exactly as the rational quotient compares with the
      decimal ones, so the branches taken are the same;
    - an exception is a value of [exn], and a call that may raise has an
      [outcome];
    - the network, the HTML parser and the database server are not part
      of the repository: they appear as oracles (fields of a record or
      arguments), and every theorem holds for all of them. *)

From Stdlib Require Import List ZArith NArith QArith Bool Lia Lqa.
From Stdlib Require Import String Ascii Permutation.
From Equations Require Import Equations.
Import ListNotations.

Close Scope Q_scope.
Set Implicit Arguments.

(** ** Python values and exceptions *)

Definition codepoint := N.
Definition pystr := list codepoint.

Definition len {A : Type} (s : list A) : Z := Z.of_nat (List.length s).

(** The subclasses of [requests.RequestException] that the code meets. *)
Inductive request_error :=
| Timeout
| ConnectionError
| HTTPError (status_code : Z)
| InvalidJSONError.

Inductive exn :=
| RequestException (e : request_error)
| ValueError (msg : string)
| TypeError (msg : string)
| KeyError (key : string)
| IndexError
| ZeroDivisionError
| RecursionError
| AsyncioTimeoutError
| OtherException (msg : string).

Inductive outcome (A : Type) :=
| Return (a : A)
| Raise (e : exn).
Arguments Return {A} a.
Arguments Raise {A} e.

(** [isinstance(e, requests.RequestException)] *)
Definition is_request_exception (e : exn) : bool :=
  match e with
  | RequestException _ => true
  | _ => false
  end.

(** ** config.py *)

Module Config.

Record t := mk {
  GOOGLE_API_KEYS : list string;
  GOOGLE_SEARCH_ENGINE_IDS : list string;
  SCRAPER_RESULTS_PER_CELEBRITY : Z;
  SCRAPER_DELAY_BETWEEN_REQUESTS : Z;
  SCRAPER_MAX_RETRIES : Z;
  SCRAPER_BACKOFF_FACTOR : Q;
  CELEBRITIES_PER_BATCH : Z;
  MIN_CONFIDENCE_SCORE : Q;
  DEFAULT_CONFIDENCE_SCORE : Q;
  MIN_CONTENT_LENGTH : Z
}.

(** The values [config.py] takes when the environment sets none of them;
    the credential lists have no default and are given by the caller. *)
Definition defaults (keys ids : list string) : t :=
  {| GOOGLE_API_KEYS := keys;
     GOOGLE_SEARCH_ENGINE_IDS := ids;
     SCRAPER_RESULTS_PER_CELEBRITY := 20%Z;
     SCRAPER_DELAY_BETWEEN_REQUESTS := 1000%Z;
     SCRAPER_MAX_RETRIES := 3%Z;
     SCRAPER_BACKOFF_FACTOR := (1 # 2)%Q;
     CELEBRITIES_PER_BATCH := 20%Z;
     MIN_CONFIDENCE_SCORE := (1 # 2)%Q;
     DEFAULT_CONFIDENCE_SCORE := (85 # 100)%Q;
     MIN_CONTENT_LENGTH := 50%Z |}.

End Config.

(** ** text_processor.py *)

Module TextProcessor.

Import Config.

(** *** Characters *)

Definition in_range (lo hi c : codepoint) : bool :=
  (N.leb lo c && N.leb c hi)%bool.

(** [str.isspace] on one character, which is also what [\s] matches in a
    [str] pattern and what [str.strip] removes. *)
Definition py_isspace (c : codepoint) : bool :=
  (in_range 9 13 c || in_range 28 32 c || N.eqb c 133 || N.eqb c 160
   || N.eqb c 5760 || in_range 8192 8202 c || N.eqb c 8232
   || N.eqb c 8233 || N.eqb c 8239 || N.eqb c 8287
   || N.eqb c 12288)%N%bool.

(** The three ranges the pattern of [remove_special_characters] names:
    U+4E00-9FFF, U+3400-4DBF and U+F900-FAFF. *)
Definition is_cjk (c : codepoint) : bool :=
  (in_range 19968 40959 c || in_range 13312 19903 c
   || in_range 63744 64255 c)%N%bool.

(** The punctuation the pattern lists one by one:
    - . , ! ? ; : ( ) and their full-width and CJK bracket forms. *)
Definition listed_punctuation : list codepoint :=
  [45; 46; 44; 33; 63; 59; 58; 40; 41;
   65288; 65289; 12290; 65292; 65281; 65311; 65307; 65306;
   12304; 12305; 12300; 12301; 12302; 12303]%N.

Definition is_listed_punctuation (c : codepoint) : bool :=
  existsb (N.eqb c) listed_punctuation.

(** *** normalize_whitespace *)

(** [re.sub(c+, c, text)] for a single character [c]: a character [c]
    that is followed by another [c] is dropped, which leaves one [c] for
    each maximal run.  With [c] a newline this is also
    [re.sub(r'\n\n+', '\n', text)], a run of one being left as it is. *)
Fixpoint squeeze (c : codepoint) (text : pystr) : pystr :=
  match text with
  | [] => []
  | x :: rest =>
      if N.eqb x c then
        match rest with
        | y :: _ => if N.eqb y c then squeeze c rest else x :: squeeze c rest
        | [] => [x]
        end
      else x :: squeeze c rest
  end.

(** [text.replace(a, b)] for single characters. *)
Definition replace_char (a b : codepoint) (text : pystr) : pystr :=
  map (fun x => if N.eqb x a then b else x) text.

Fixpoint lstrip (text : pystr) : pystr :=
  match text with
  | [] => []
  | x :: rest => if py_isspace x then lstrip rest else text
  end.

Definition rstrip (text : pystr) : pystr := rev (lstrip (rev text)).

Definition strip (text : pystr) : pystr := rstrip (lstrip text).

Definition normalize_whitespace (text : pystr) : pystr :=
  let text := squeeze 32%N text in
  let text := squeeze 10%N text in
  let text := replace_char 9%N 32%N text in
  strip text.

(** *** remove_special_characters *)

Section RemoveSpecial.

(** [\w] in a [str] pattern: the alphanumeric characters of the
    interpreter's Unicode database, and the underscore. *)
Variable is_word : codepoint -> bool.

Definition kept_unicode (c : codepoint) : bool :=
  (is_cjk c || is_listed_punctuation c || py_isspace c || is_word c)%bool.

Definition kept_plain (c : codepoint) : bool :=
  (py_isspace c || is_word c)%bool.

Definition remove_special_characters (text : pystr)
  (preserve_unicode : bool) : pystr :=
  if preserve_unicode then filter kept_unicode text
  else filter kept_plain text.

End RemoveSpecial.

(** *** calculate_confidence_score *)

(** [min(a, b)] of Python: [b] when [b < a], else [a]. *)
Definition py_min (a b : Q) : Q :=
  if Qle_bool a b then a else b.

Definition ge_bool (a b : Q) : bool := Qle_bool b a.

Definition calculate_confidence_score (cfg : Config.t)
  (original_length cleaned_length : Z) (extraction_rate : option Q) : Q :=
  if Z.eqb original_length 0%Z then MIN_CONFIDENCE_SCORE cfg
  else
    let extraction_rate :=
      match extraction_rate with
      | Some r => r
      | None =>
          if Z.ltb 0%Z original_length
          then (inject_Z cleaned_length / inject_Z original_length)%Q
          else 0%Q
      end in
    let confidence :=
      if ge_bool extraction_rate (7 # 10)%Q then (95 # 100)%Q
      else if ge_bool extraction_rate (5 # 10)%Q then (85 # 100)%Q
      else if ge_bool extraction_rate (3 # 10)%Q then (70 # 100)%Q
      else if ge_bool extraction_rate (1 # 10)%Q then (50 # 100)%Q
      else MIN_CONFIDENCE_SCORE cfg in
    py_min confidence 1%Q.

(** *** clean_html *)

(** The parse tree BeautifulSoup hands back: the text nodes of the
    page, its CDATA sections (which only [html.parser] keeps as such),
    the other strings (comments, declarations, the doctype and
    processing instructions) and tags with the attributes the selectors
    of [clean_html] look at. *)
#[warnings="-register-all"]
Inductive node :=
| NavigableString (s : pystr)
| CData (s : pystr)
| Comment (s : pystr)
| Tag (name : string) (id : option string) (classes : list string)
      (children : list node).

Inductive selector :=
| TypeSelector (name : string)
| ClassSelector (class : string)
| IdSelector (id : string).

Definition REMOVE_TAGS : list string :=
  ["script"; "style"; "meta"; "link"; "noscript"; "iframe"]%string.

(** 'nav', 'footer', 'sidebar', '.sidebar', '#sidebar', '.nav', '#nav',
    '.header', '#header', '.advertisement', '.ad' *)
Definition NON_CONTENT_SELECTORS : list selector :=
  [TypeSelector "nav"; TypeSelector "footer"; TypeSelector "sidebar";
   ClassSelector "sidebar"; IdSelector "sidebar";
   ClassSelector "nav"; IdSelector "nav";
   ClassSelector "header"; IdSelector "header";
   ClassSelector "advertisement"; ClassSelector "ad"]%string.

Definition selects (sel : selector) (name : string) (id : option string)
  (classes : list string) : bool :=
  match sel with
  | TypeSelector n => String.eqb n name
  | ClassSelector c => existsb (String.eqb c) classes
  | IdSelector i =>
      match id with
      | Some j => String.eqb i j
      | None => false
      end
  end.

(** [for tag in soup.find_all(...): tag.decompose()], with the elements
    found given by [sel]: each of them leaves the tree with all it
    contains. *)
Fixpoint decompose_in (sel : selector) (n : node) : list node :=
  match n with
  | Tag name id classes children =>
      if selects sel name id classes then []
      else [Tag name id classes (flat_map (decompose_in sel) children)]
  | _ => [n]
  end.

Definition decompose (soup : list node) (sel : selector) : list node :=
  flat_map (decompose_in sel) soup.

(** The tags whose text the tree builder does not make a
    [NavigableString] but a string class of their own
    ([RubyTextString], [RubyParenthesisString], [Stylesheet], [Script]
    and [TemplateString]): a text node gets the class of the string
    container it lies in, at whatever depth. *)
Definition STRING_CONTAINERS : list string :=
  ["rt"; "rp"; "style"; "script"; "template"]%string.

Definition is_string_container (name : string) : bool :=
  existsb (String.eqb name) STRING_CONTAINERS.

(** The strings [get_text] walks over, in document order, called on the
    soup: those of class [NavigableString] or [CData] and no others, so
    that a text node inside a string container is left out, as a comment
    is.  [inside] says whether the node lies in a string container. *)
Fixpoint strings (inside : bool) (n : node) : list pystr :=
  match n with
  | NavigableString s => if inside then [] else [s]
  | CData s => [s]
  | Comment _ => []
  | Tag name _ _ children =>
      flat_map (strings (inside || is_string_container name)) children
  end.

Fixpoint join (separator : pystr) (parts : list pystr) : pystr :=
  match parts with
  | [] => []
  | [p] => p
  | p :: rest => p ++ separator ++ join separator rest
  end.

Definition nonempty (s : pystr) : bool :=
  match s with
  | [] => false
  | _ => true
  end.

(** [soup.get_text(separator=' ', strip=True)]: every string is
    stripped, the empty ones are skipped, the others are joined. *)
Definition get_text (soup : list node) : pystr :=
  join [32%N] (filter nonempty (map strip (flat_map (strings false) soup))).

(** What the code takes from outside the repository: the [\w] class of
    [re], the two parsers behind [BeautifulSoup(html, ...)], either of
    which may raise, and [walk_fault], which says when walking the tree
    raises (the library does on markup nested too deep). *)
Record Library := {
  is_word : codepoint -> bool;
  parse_lxml : pystr -> outcome (list node);
  parse_html_parser : pystr -> outcome (list node);
  walk_fault : list node -> option exn
}.

Definition strip_soup (soup : list node) : list node :=
  let soup :=
    fold_left (fun soup tag_name => decompose soup (TypeSelector tag_name))
      REMOVE_TAGS soup in
  fold_left decompose NON_CONTENT_SELECTORS soup.

Definition clean_html (lib : Library) (html_content : pystr)
  : outcome pystr :=
  let after_parse (soup : list node) :=
    match walk_fault lib soup with
    | Some e => Raise e
    | None => Return (get_text (strip_soup soup))
    end in
  match parse_lxml lib html_content with
  | Return soup => after_parse soup
  | Raise _ =>
      match parse_html_parser lib html_content with
      | Return soup => after_parse soup
      | Raise _ => Return []
      end
  end.

(** *** clean_text *)

Record CleanResult := {
  cleaned_text : pystr;
  content_length : Z;
  extraction_confidence : Q;
  raw_text_length : Z;
  status : string;
  error : option exn
}.

Definition clean_text_try (cfg : Config.t) (lib : Library)
  (html_content : pystr) : outcome CleanResult :=
  match clean_html lib html_content with
  | Raise e => Raise e
  | Return raw_text =>
      let raw_text_length := len raw_text in
      if Z.eqb raw_text_length 0%Z then
        Return {| cleaned_text := [];
                  content_length := 0%Z;
                  extraction_confidence := MIN_CONFIDENCE_SCORE cfg;
                  raw_text_length := 0%Z;
                  status := "failed";
                  error := None |}
      else
        let normalized_text := normalize_whitespace raw_text in
        let cleaned_text :=
          remove_special_characters (is_word lib) normalized_text true in
        let cleaned_length := len cleaned_text in
        let confidence :=
          calculate_confidence_score cfg raw_text_length cleaned_length
            None in
        let status :=
          if Z.ltb cleaned_length (MIN_CONTENT_LENGTH cfg)
          then "partial"%string else "success"%string in
        Return {| cleaned_text := cleaned_text;
                  content_length := cleaned_length;
                  extraction_confidence := confidence;
                  raw_text_length := raw_text_length;
                  status := status;
                  error := None |}
  end.

(** The [except Exception] arm of [clean_text]. *)
Definition clean_text (cfg : Config.t) (lib : Library)
  (html_content : pystr) : CleanResult :=
  match clean_text_try cfg lib html_content with
  | Return result => result
  | Raise e =>
      {| cleaned_text := [];
         content_length := 0%Z;
         extraction_confidence := MIN_CONFIDENCE_SCORE cfg;
         raw_text_length := 0%Z;
         status := "error";
         error := Some e |}
  end.

End TextProcessor.

(** ** A state and exception monad for the code that talks to the world *)

Definition M (St A : Type) : Type := St -> outcome A * St.

Definition ret {St A : Type} (a : A) : M St A := fun st => (Return a, st).

Definition raise {St A : Type} (e : exn) : M St A := fun st => (Raise e, st).

Definition bind {St A B : Type} (c : M St A) (k : A -> M St B) : M St B :=
  fun st =>
    match c st with
    | (Return a, st') => k a st'
    | (Raise e, st') => (Raise e, st')
    end.

(** [try: body / except Exception as e: handler(e)] *)
Definition try_except {St A : Type} (body : M St A) (handler : exn -> M St A)
  : M St A :=
  fun st =>
    match body st with
    | (Return a, st') => (Return a, st')
    | (Raise e, st') => handler e st'
    end.

Notation "x <- c ;; k" := (bind c (fun x => k))
  (at level 61, c at next level, right associativity).
Notation "c ;;; k" := (bind c (fun _ => k))
  (at level 61, right associativity).

(** ** google_scraper.py *)

Module GoogleScraper.

Import Config TextProcessor.

(** *** exponential_backoff *)

Section Backoff.

Variables St A : Type.
Variable cfg : Config.t.

(** The decorated function, with the state it reads and changes (its
    [self] and the world behind the session). *)
Variable func : M St A.

(** What one call of the wrapper did: its result, the state it leaves,
    how many times it called [func], the exceptions it caught and went on
    after, and the delays it slept. *)
Record Run := {
  result : outcome A;
  final : St;
  calls : nat;
  caught : list exn;
  sleeps : list Q
}.

Definition backoff_delay (attempt : Z) : Q :=
  (SCRAPER_BACKOFF_FACTOR cfg * SCRAPER_BACKOFF_FACTOR cfg ^ (attempt - 1))%Q.

(** The [for attempt in range(1, SCRAPER_MAX_RETRIES + 1)] loop with
    [remaining] iterations to go, and the [raise last_exception] after
    it; [raise None] is a [TypeError]. *)
Fixpoint wrapper_loop (remaining : nat) (attempt : Z)
  (last_exception : option exn) (st : St) : Run :=
  match remaining with
  | O =>
      {| result :=
           match last_exception with
           | Some e => Raise e
           | None =>
               Raise (TypeError "exceptions must derive from BaseException")
           end;
         final := st; calls := 0; caught := []; sleeps := [] |}
  | S remaining' =>
      match func st with
      | (Return a, st') =>
          {| result := Return a;
             final := st'; calls := 1; caught := []; sleeps := [] |}
      | (Raise e, st') =>
          if is_request_exception e then
            let rest := wrapper_loop remaining' (attempt + 1) (Some e) st' in
            {| result := result rest;
               final := final rest;
               calls := S (calls rest);
               caught := e :: caught rest;
               sleeps :=
                 if Z.ltb attempt (SCRAPER_MAX_RETRIES cfg)
                 then backoff_delay attempt :: sleeps rest
                 else sleeps rest |}
          else
            {| result := Raise e;
               final := st'; calls := 1; caught := []; sleeps := [] |}
      end
  end.

Definition exponential_backoff (st : St) : Run :=
  wrapper_loop (Z.to_nat (SCRAPER_MAX_RETRIES cfg)) 1%Z None st.

End Backoff.

(** *** Python lists and strings used below *)

Definition inspect {T : Type} (x : T) : {y : T | x = y} :=
  exist _ x eq_refl.

(** [xs[i]] for an [int] index: negative indices count from the end. *)
Definition getitem {T : Type} (xs : list T) (i : Z) : outcome T :=
  let j := if Z.ltb i 0 then (i + len xs)%Z else i in
  if Z.ltb j 0 then Raise IndexError
  else
    match nth_error xs (Z.to_nat j) with
    | Some x => Return x
    | None => Raise IndexError
    end.

(** [xs[:n]] *)
Definition slice_to {T : Type} (xs : list T) (n : Z) : list T :=
  if Z.ltb n 0 then firstn (Z.to_nat (len xs + n)) xs
  else firstn (Z.to_nat n) xs.

Definition lower_ascii (c : ascii) : ascii :=
  let n := nat_of_ascii c in
  if (Nat.leb 65 n && Nat.leb n 90)%bool then ascii_of_nat (n + 32) else c.

Fixpoint lower (s : string) : string :=
  match s with
  | EmptyString => EmptyString
  | String c rest => String (lower_ascii c) (lower rest)
  end.

(** [needle in hay] *)
Definition contains (needle hay : string) : bool :=
  match String.index 0 needle hay with
  | Some _ => true
  | None => false
  end.

(** *** GoogleSearcher *)

Record GoogleSearcher := {
  api_keys : list string;
  search_engine_ids : list string;
  current_key_index : Z
}.

(** [GoogleSearcher.__init__] *)
Definition new_searcher (cfg : Config.t) : GoogleSearcher :=
  {| api_keys := GOOGLE_API_KEYS cfg;
     search_engine_ids := GOOGLE_SEARCH_ENGINE_IDS cfg;
     current_key_index := 0 |}.

Record Params := {
  param_q : pystr;
  param_key : string;
  param_cx : string;
  param_num : Z;
  param_start : Z
}.

(** The decoded body of a search response, as far as the code looks into
    it: whether it has an ['error'] entry (and its ['message'], if any)
    and whether it has ['items'] (and the ['link'] of each, if any). *)
Record ApiData := {
  api_error : option (option string);
  api_items : option (list (option pystr))
}.

(** A response of the search API: its status and what [response.json()]
    gives, which is an exception of the library when the body does not
    decode. *)
Record ApiResponse := {
  api_status_code : Z;
  api_json : outcome ApiData
}.

(** [response.raise_for_status()] *)
Definition raise_for_status {St : Type} (status_code : Z) : M St unit :=
  if (Z.leb 400 status_code && Z.ltb status_code 600)%bool
  then raise (RequestException (HTTPError status_code))
  else ret tt.

Definition lift {St A : Type} (o : outcome A) : M St A :=
  fun st => (o, st).

Section Search.

Variable World : Type.
Variable cfg : Config.t.

(** [self.session.get(GOOGLE_SEARCH_API_URL, params=params, timeout=10)] *)
Variable session_get : Params -> M World ApiResponse.

Definition SearchState : Type := GoogleSearcher * World.

Definition on_world {A : Type} (c : M World A) : M SearchState A :=
  fun st =>
    let '(self, w) := st in
    let '(o, w') := c w in
    (o, (self, w')).

Definition get_self : M SearchState GoogleSearcher :=
  fun st => (Return (fst st), st).

Definition _rotate_api_key : M SearchState unit :=
  fun st =>
    let '(self, w) := st in
    if Z.eqb (len (api_keys self)) 0 then (Raise ZeroDivisionError, st)
    else
      (Return tt,
       ({| api_keys := api_keys self;
           search_engine_ids := search_engine_ids self;
           current_key_index :=
             ((current_key_index self + 1) mod len (api_keys self))%Z |},
        w)).

Definition _get_current_key_pair : M SearchState (string * string) :=
  self <- get_self ;;
  api_key <- lift (getitem (api_keys self) (current_key_index self)) ;;
  search_engine_id <-
    lift (getitem (search_engine_ids self) (current_key_index self)) ;;
  ret (api_key, search_engine_id).

(** [[item['link'] for item in data['items']]] *)
Fixpoint links (items : list (option pystr)) : outcome (list pystr) :=
  match items with
  | [] => Return []
  | None :: _ => Raise (KeyError "link")
  | Some link :: rest =>
      match links rest with
      | Return urls => Return (link :: urls)
      | Raise e => Raise e
      end
  end.

Definition links_of (data : ApiData) : outcome (list pystr) :=
  match api_items data with
  | Some items => links items
  | None => Return []
  end.

(** The body of [search_google], one attempt of the decorated call. *)
Definition search_google_once (query : pystr) : M SearchState (list pystr) :=
  try_except
    (pair <- _get_current_key_pair ;;
     let params start :=
       {| param_q := query; param_key := fst pair; param_cx := snd pair;
          param_num := 10; param_start := start |} in
     response <- on_world (session_get (params 1%Z)) ;;
     raise_for_status (api_status_code response) ;;;
     data <- lift (api_json response) ;;
     match api_error data with
     | Some message =>
         raise (ValueError
                  ("Google API error: " ++
                   match message with
                   | Some m => m
                   | None => "Unknown error"
                   end))
     | None => ret tt
     end ;;;
     urls <- lift (links_of data) ;;
     response <- on_world (session_get (params 11%Z)) ;;
     raise_for_status (api_status_code response) ;;;
     data <- lift (api_json response) ;;
     more <- lift (links_of data) ;;
     let urls := (urls ++ more)%list in
     _rotate_api_key ;;;
     ret (slice_to urls (SCRAPER_RESULTS_PER_CELEBRITY cfg)))
    (fun e => _rotate_api_key ;;; raise e).

(** [search_google] as the callers see it, under [@exponential_backoff]. *)
Definition search_google (query : pystr) (st : SearchState)
  : Run SearchState (list pystr) :=
  exponential_backoff cfg (search_google_once query) st.

End Search.

(** *** What a fetch gives, for both scrapers *)

(** The dictionary [fetch_and_parse] and [_fetch_single_url] return.
    The keys every arm sets are plain fields; the others are options,
    [None] when the key is absent.  The value under ["error"] can itself
    be Python's [None]. *)
Record FetchResult := {
  fr_status : string;
  fr_error : option (option string);
  fr_cleaned_text : option pystr;
  fr_content_length : option Z;
  fr_extraction_confidence : option Q;
  fr_domain : pystr;
  fr_processing_time_ms : Z
}.

Definition failure (status : string) (error : option string) (domain : pystr)
  (processing_time_ms : Z) : FetchResult :=
  {| fr_status := status;
     fr_error := Some error;
     fr_cleaned_text := None;
     fr_content_length := None;
     fr_extraction_confidence := None;
     fr_domain := domain;
     fr_processing_time_ms := processing_time_ms |}.

(** The dictionary built from [clean_text]'s result; every key of that
    result is set, so the defaults of its [.get] calls are never used. *)
Definition cleaned (clean_result : CleanResult) (domain : pystr)
  (processing_time_ms : Z) : FetchResult :=
  {| fr_status := status clean_result;
     fr_error := None;
     fr_cleaned_text := Some (cleaned_text clean_result);
     fr_content_length := Some (content_length clean_result);
     fr_extraction_confidence := Some (extraction_confidence clean_result);
     fr_domain := domain;
     fr_processing_time_ms := processing_time_ms |}.

(** An entry of the first list [scrape_urls] returns. *)
Record ScrapedPage := {
  original_url : pystr;
  page_cleaned_text : pystr;
  page_domain : pystr;
  page_content_length : Z;
  page_extraction_confidence : Q;
  page_processing_time_ms : Z
}.

(** An entry of the second list. *)
Record FailedUrl := {
  url : pystr;
  failed_error : option string;
  failed_status : string
}.

Definition get {T : Type} (value : option T) (default : T) : T :=
  match value with
  | Some v => v
  | None => default
  end.

(** [result["status"] == "success" or result["status"] == "partial"] *)
Definition succeeded (result : FetchResult) : bool :=
  (String.eqb (fr_status result) "success"
   || String.eqb (fr_status result) "partial")%bool.

Definition scraped_page (cfg : Config.t) (url : pystr) (result : FetchResult)
  : ScrapedPage :=
  {| original_url := url;
     page_cleaned_text := get (fr_cleaned_text result) [];
     page_domain := fr_domain result;
     page_content_length := get (fr_content_length result) 0%Z;
     page_extraction_confidence :=
       get (fr_extraction_confidence result) (DEFAULT_CONFIDENCE_SCORE cfg);
     page_processing_time_ms := fr_processing_time_ms result |}.

Definition failed_url (url : pystr) (result : FetchResult) : FailedUrl :=
  {| url := url;
     failed_error := get (fr_error result) (Some "Unknown error"%string);
     failed_status := fr_status result |}.

(** [domain.replace('www.', '')] *)
Fixpoint remove_www (domain : pystr) : pystr :=
  match domain with
  | 119%N :: 119%N :: 119%N :: 46%N :: rest => remove_www rest
  | c :: rest => c :: remove_www rest
  | [] => []
  end.

(** [_extract_domain], the same in both scrapers; [urlparse] gives the
    [netloc] and the [path] of a URL, or raises. *)
Definition _extract_domain (urlparse : pystr -> outcome (pystr * pystr))
  (url : pystr) : pystr :=
  match urlparse url with
  | Return (netloc, path) =>
      remove_www (if nonempty netloc then netloc else path)
  | Raise _ => []
  end.

(** What the scrapers take from outside the repository besides the
    text library: the clock in milliseconds, [urlparse] and the text
    [str(e)] of an exception. *)
Record Platform (World : Type) := {
  library : Library;
  now_ms : World -> Z;
  urlparse : pystr -> outcome (pystr * pystr);
  str : exn -> string
}.

(** *** WebScraper *)

Record HttpResponse := {
  resp_status_code : Z;
  resp_content_type : option string;
  resp_text : pystr
}.

Section Fetch.

Variable World : Type.
Variable cfg : Config.t.
Variable platform : Platform World.

(** [self.session.get(url, timeout=SCRAPER_TIMEOUT_SEC,
    allow_redirects=True)] *)
Variable session_get : pystr -> M World HttpResponse.

Definition elapsed (start_time : Z) : M World Z :=
  fun w => (Return (now_ms platform w - start_time)%Z, w).

(** The body of [fetch_and_parse]: every exception ends in a dictionary. *)
Definition fetch_and_parse_once (url : pystr) : M World FetchResult :=
  fun w =>
    let start_time := now_ms platform w in
    let domain := _extract_domain (urlparse platform) url in
    let fetched :=
      (response <- session_get url ;;
       raise_for_status (resp_status_code response) ;;;
       ret response) w in
    match fetched with
    | (Return response, w') =>
        let content_type :=
          lower (get (resp_content_type response) EmptyString) in
        let processing_time := (now_ms platform w' - start_time)%Z in
        if (negb (contains "text" content_type)
            && negb (contains "html" content_type))%bool then
          (Return (failure "failed"
                     (Some ("Invalid content type: " ++ content_type)%string)
                     domain processing_time), w')
        else
          let clean_result :=
            clean_text cfg (library platform) (resp_text response) in
          (Return (cleaned clean_result domain processing_time), w')
    | (Raise (RequestException Timeout), w') =>
        (Return (failure "timeout" (Some "Request timeout"%string) domain
                   (now_ms platform w' - start_time)), w')
    | (Raise e, w') =>
        (Return (failure "failed" (Some (str platform e)) domain
                   (now_ms platform w' - start_time)), w')
    end.

(** [fetch_and_parse] under [@exponential_backoff]. *)
Definition fetch_and_parse (url : pystr) (w : World) : Run World FetchResult :=
  exponential_backoff cfg (fetch_and_parse_once url) w.

(** What [time.sleep] does with a length that is not negative: it
    returns when the pause is over, or raises, as it does with an
    [OverflowError] for a length the clock cannot hold. *)
Variable sleep : Q -> M World unit.

(** [time.sleep(seconds)]: a negative length is a [ValueError]. *)
Definition time_sleep (seconds : Q) : M World unit :=
  if Qle_bool 0 seconds then sleep seconds
  else raise (ValueError "sleep length must be non-negative").

(** [SCRAPER_DELAY_BETWEEN_REQUESTS / 1000] *)
Definition delay_between_requests : Q :=
  (inject_Z (SCRAPER_DELAY_BETWEEN_REQUESTS cfg) / 1000)%Q.

(** The loop of [scrape_urls], with the two lists built so far: before
    every fetch the pause, which may raise. *)
Fixpoint scrape_loop (urls : list pystr) (results : list ScrapedPage)
  (failed_urls : list FailedUrl)
  : M World (list ScrapedPage * list FailedUrl) :=
  match urls with
  | [] => ret (results, failed_urls)
  | url :: rest =>
      fun w =>
        match time_sleep delay_between_requests w with
        | (Raise e, w') => (Raise e, w')
        | (Return _, w') =>
            let run := fetch_and_parse url w' in
            match result run with
            | Raise e => (Raise e, final run)
            | Return r =>
                if succeeded r then
                  scrape_loop rest (results ++ [scraped_page cfg url r])
                    failed_urls (final run)
                else
                  scrape_loop rest results
                    (failed_urls ++ [failed_url url r]) (final run)
            end
        end
  end.

Definition scrape_urls (urls : list pystr)
  : M World (list ScrapedPage * list FailedUrl) :=
  scrape_loop urls [] [].

End Fetch.

End GoogleScraper.

(** ** crawl4ai_scraper.py *)

Module Crawl4AIScraper.

Import Config TextProcessor GoogleScraper.

(** What [crawler.arun] resolves to, as far as the code reads it. *)
Record CrawlResult := {
  success : bool;
  error_message : option string;
  markdown : option pystr
}.

(** Truth value of an optional string: [None] and the empty string are
    false. *)
Definition truthy (s : option string) : bool :=
  match s with
  | Some (String _ _) => true
  | _ => false
  end.

Section Crawl.

Variable World : Type.
Variable cfg : Config.t.
Variable platform : Platform World.

(** [await crawler.arun(url=url, cache_mode=CacheMode.ENABLED,
    javascript_enabled=True)]: a result, [None], or an exception. *)
Variable arun : pystr -> M World (option CrawlResult).

(** [not result or not result.success] *)
Definition crawl_failed (result : option CrawlResult) : bool :=
  match result with
  | None => true
  | Some r => negb (success r)
  end.

(** [attempt < SCRAPER_MAX_RETRIES and result and result.error_message] *)
Definition retry_failed_crawl (attempt : Z) (result : option CrawlResult)
  : bool :=
  (Z.ltb attempt (SCRAPER_MAX_RETRIES cfg)
   && match result with
      | None => false
      | Some r => truthy (error_message r)
      end)%bool.

(** The arms of [_fetch_single_url] that return without another attempt,
    once [arun] has given [result]. *)
Definition settle (url : pystr) (result : option CrawlResult)
  (processing_time : Z) : FetchResult :=
  let domain := _extract_domain (urlparse platform) url in
  if crawl_failed result then
    failure "failed"
      match result with
      | Some r => error_message r
      | None => Some "Unknown error"%string
      end
      domain processing_time
  else
    let markdown_content :=
      match result with
      | Some r => get (markdown r) []
      | None => []
      end in
    if negb (nonempty markdown_content) then
      failure "failed" (Some "No content extracted"%string) domain
        processing_time
    else
      cleaned (clean_text cfg (library platform) markdown_content) domain
        processing_time.

(** [_fetch_single_url(crawler, url, attempt)]: it calls itself with
    [attempt + 1] only while [attempt < SCRAPER_MAX_RETRIES]. *)
Equations? _fetch_single_url (url : pystr) (attempt : Z) (w : World)
  : FetchResult * World
  by wf (Z.to_nat (SCRAPER_MAX_RETRIES cfg - attempt)) lt :=
  _fetch_single_url url attempt w with arun url w := {
    | (Return result, w')
        with inspect (crawl_failed result
                      && retry_failed_crawl attempt result)%bool := {
        | exist _ true _ => _fetch_single_url url (attempt + 1) w'
        | exist _ false _ =>
            (settle url result (now_ms platform w' - now_ms platform w), w') };
    | (Raise AsyncioTimeoutError, w')
        with inspect (Z.ltb attempt (SCRAPER_MAX_RETRIES cfg)) := {
        | exist _ true _ => _fetch_single_url url (attempt + 1) w'
        | exist _ false _ =>
            (failure "timeout" (Some "Request timeout"%string)
               (_extract_domain (urlparse platform) url)
               (now_ms platform w' - now_ms platform w), w') };
    | (Raise e, w') =>
        (failure "failed" (Some (str platform e))
           (_extract_domain (urlparse platform) url)
           (now_ms platform w' - now_ms platform w), w') }.
Proof.
  - unfold retry_failed_crawl in *.
    apply andb_prop in e as [_ e]. apply andb_prop in e as [e _].
    apply Z.ltb_lt in e. lia.
  - apply Z.ltb_lt in e. lia.
Qed.

(** [asyncio.gather] over one task per URL: the list of results has the
    order of [urls], whatever the order in which the fetches complete.
    The tasks are run here one after the other. *)
Fixpoint gather (urls : list pystr) (w : World) : list FetchResult * World :=
  match urls with
  | [] => ([], w)
  | url :: rest =>
      let '(r, w') := _fetch_single_url url 1%Z w in
      let '(rs, w'') := gather rest w' in
      (r :: rs, w'')
  end.

(** [for url, result in zip(urls, results)], with the two lists built
    so far. *)
Fixpoint separate (pairs : list (pystr * FetchResult))
  (successful_results : list ScrapedPage) (failed_urls : list FailedUrl)
  : list ScrapedPage * list FailedUrl :=
  match pairs with
  | [] => (successful_results, failed_urls)
  | (url, r) :: rest =>
      if succeeded r then
        separate rest (successful_results ++ [scraped_page cfg url r])
          failed_urls
      else
        separate rest successful_results (failed_urls ++ [failed_url url r])
  end.

Definition scrape_urls_async (urls : list pystr) (w : World)
  : (list ScrapedPage * list FailedUrl) * World :=
  match urls with
  | [] => (([], []), w)
  | _ =>
      let '(results, w') := gather urls w in
      (separate (combine urls results) [] [], w')
  end.

End Crawl.

End Crawl4AIScraper.

(** ** database_handler.py *)

Module DatabaseHandler.

Import GoogleScraper.

(** A mention dictionary with the keys [batch_insert_mentions] reads;
    ['time_stamp'] is the one it reads with a default. *)
Record Mention := {
  celebrity_id : Z;
  mention_url : pystr;
  mention_text : pystr;
  mention_domain : pystr;
  mention_length : Z;
  mention_confidence : Q;
  mention_time_ms : Z;
  time_stamp : option string
}.

(** A row of [celebrity_mentions]: the values of one [INSERT]. *)
Record Row := {
  row_mention : Mention;
  row_time_stamp : string
}.

(** Modelled from the spec: the table definition is not among the
    sources.  The spec gives the uniqueness key of a stored mention as
    the pair (entityId, originalUrl); the schema table of the database
    tests words it [(celebrity_id, original_url(255))], an index on the
    first 255 characters of the URL.  Two rows with the same id and URL
    have the same key under either wording. *)
Definition unique_key (m : Mention) : Z * pystr :=
  (celebrity_id m, firstn 255 (mention_url m)).

Fixpoint pystr_eqb (s1 s2 : pystr) : bool :=
  match s1, s2 with
  | [], [] => true
  | c1 :: r1, c2 :: r2 => (N.eqb c1 c2 && pystr_eqb r1 r2)%bool
  | _, _ => false
  end.

Definition key_eqb (k1 k2 : Z * pystr) : bool :=
  (Z.eqb (fst k1) (fst k2) && pystr_eqb (snd k1) (snd k2))%bool.

Definition has_key (rows : list Row) (k : Z * pystr) : bool :=
  existsb (fun r => key_eqb (unique_key (row_mention r)) k) rows.

(** The database server: when an [INSERT] of a row fails for another
    reason than a duplicate, given the committed rows (with the text of
    its error), and when a [COMMIT] fails, given the committed rows and
    the rows of the open transaction. *)
Record Server := {
  insert_error : list Row -> Row -> option string;
  commit_error : list Row -> list Row -> option string
}.

(** A connection with [autocommit=False]: the committed rows and the
    rows its open transaction has inserted. *)
Record Connection := {
  table : list Row;
  pending : list Row
}.

Definition visible (conn : Connection) : list Row :=
  (table conn ++ pending conn)%list.

Definition commit (conn : Connection) : Connection :=
  {| table := visible conn; pending := [] |}.

Definition rollback (conn : Connection) : Connection :=
  {| table := table conn; pending := [] |}.

Definition DUPLICATE_ENTRY : string :=
  "1062 (23000): Duplicate entry for key 'unique_mention'".

Section Store.

Variable server : Server.

(** [datetime.now().isoformat()] *)
Variable now_isoformat : string.

(** [cursor.execute(insert_query, values)]: the row joins the
    transaction, or the server answers with an error and its text. *)
Definition execute_insert (conn : Connection) (row : Row)
  : (string + unit) * Connection :=
  if has_key (visible conn) (unique_key (row_mention row)) then
    (inl DUPLICATE_ENTRY, conn)
  else
    match insert_error server (table conn) row with
    | Some message => (inl message, conn)
    | None =>
        (inr tt,
         {| table := table conn; pending := (pending conn ++ [row])%list |})
    end.

(** The [for mention in mentions] loop, with the two counters. *)
Fixpoint insert_loop (mentions : list Mention) (inserted skipped : Z)
  (conn : Connection) : (Z * Z) * Connection :=
  match mentions with
  | [] => ((inserted, skipped), conn)
  | mention :: rest =>
      let row :=
        {| row_mention := mention;
           row_time_stamp := get (time_stamp mention) now_isoformat |} in
      match execute_insert conn row with
      | (inr tt, conn') => insert_loop rest (inserted + 1) skipped conn'
      | (inl e, conn') =>
          if contains "Duplicate entry" e
          then insert_loop rest inserted (skipped + 1) conn'
          else insert_loop rest inserted (skipped + 1) conn'
      end
  end.

(** [batch_insert_mentions(connection, mentions)]: the counters and the
    connection it leaves.  A failing commit is caught and rolled back,
    and the counters are returned as they stand.  The connection is one
    the pool handed out, on which [connection.cursor()] succeeds, and the
    mentions are the dictionaries the pipeline builds, with every key. *)
Definition batch_insert_mentions (conn : Connection)
  (mentions : list Mention) : (Z * Z) * Connection :=
  let '(counts, conn') := insert_loop mentions 0 0 conn in
  match commit_error server (table conn') (pending conn') with
  | None => (counts, commit conn')
  | Some _ => (counts, rollback conn')
  end.

End Store.

End DatabaseHandler.

(** ** scraping_pipeline.py *)

Module ScrapingPipeline.

(** [xs[i:j]] for [0 <= i <= j] *)
Definition slice {T : Type} (xs : list T) (i j : Z) : list T :=
  firstn (Z.to_nat (j - i)) (skipn (Z.to_nat i) xs).

Section Batches.

Variable T : Type.

(** [for i in range(start, len(celebrities), batch_size)] with a
    positive step, from [i] on: the batches appended from there. *)
Equations? batches_from (celebrities : list T) (batch_size : positive)
  (i : Z) : list (list T)
  by wf (Z.to_nat (len celebrities - i)) lt :=
  batches_from celebrities batch_size i
    with GoogleScraper.inspect (Z.ltb i (len celebrities)) := {
    | exist _ true _ =>
        slice celebrities i (i + Z.pos batch_size)
          :: batches_from celebrities batch_size (i + Z.pos batch_size)
    | exist _ false _ => [] }.
Proof.
  apply Z.ltb_lt in e. lia.
Qed.

(** [split_into_batches(celebrities, batch_size)]: [range] refuses a
    step of zero and is empty for a negative one. *)
Definition split_into_batches (celebrities : list T) (batch_size : Z)
  : outcome (list (list T)) :=
  match batch_size with
  | Z0 => Raise (ValueError "range() arg 3 must not be zero")
  | Zneg _ => Return []
  | Zpos step => Return (batches_from celebrities step 0)
  end.

End Batches.

End ScrapingPipeline.

(** * Properties *)

Unset Implicit Arguments.

(** ** The confidence score *)

Module ConfidenceFacts.

Import Config TextProcessor.

(** The step function as the specification words it, for a floor value
    and a preservation ratio: 0.95 from 0.70 on, 0.85 from 0.50 on, 0.70
    from 0.30 on, 0.50 from 0.10 on, the floor below. *)
Definition step_confidence (floor r : Q) : Q :=
  if Qle_bool (7 # 10)%Q r then (95 # 100)%Q
  else if Qle_bool (5 # 10)%Q r then (85 # 100)%Q
  else if Qle_bool (3 # 10)%Q r then (70 # 100)%Q
  else if Qle_bool (1 # 10)%Q r then (50 # 100)%Q
  else floor.

(** The preservation ratio of two lengths. *)
Definition ratio (cleaned_length original_length : Z) : Q :=
  (inject_Z cleaned_length / inject_Z original_length)%Q.

(** The default configuration with another floor value. *)
Definition with_floor (floor : Q) : Config.t :=
  {| GOOGLE_API_KEYS := []; GOOGLE_SEARCH_ENGINE_IDS := [];
     SCRAPER_RESULTS_PER_CELEBRITY := 20%Z;
     SCRAPER_DELAY_BETWEEN_REQUESTS := 1000%Z; SCRAPER_MAX_RETRIES := 3%Z;
     SCRAPER_BACKOFF_FACTOR := (1 # 2)%Q; CELEBRITIES_PER_BATCH := 20%Z;
     MIN_CONFIDENCE_SCORE := floor;
     DEFAULT_CONFIDENCE_SCORE := (85 # 100)%Q;
     MIN_CONTENT_LENGTH := 50%Z |}.

Lemma Qle_bool_false (a b : Q) : Qle_bool a b = false <-> (b < a)%Q.
Proof.
  split; intro H.
  - apply Qnot_le_lt. intro Hle. apply Qle_bool_iff in Hle. congruence.
  - destruct (Qle_bool a b) eqn:E; [|reflexivity].
    apply Qle_bool_iff in E. exfalso. apply (Qlt_not_le _ _ H E).
Qed.

Lemma py_min_le (a b : Q) : (a <= b)%Q -> py_min a b = a.
Proof.
  intro H. unfold py_min. apply Qle_bool_iff in H. now rewrite H.
Qed.

Lemma py_min_gt (a b : Q) : (b < a)%Q -> py_min a b = b.
Proof.
  intro H. unfold py_min. apply Qle_bool_false in H. now rewrite H.
Qed.

(** The score once the ratio is known, for a length that is not zero:
    the [min] with 1.0 only ever touches the floor value. *)
Lemma score_of_rate (cfg : Config.t) (o c : Z) (r : Q) :
  o <> 0%Z ->
  calculate_confidence_score cfg o c (Some r)
  = step_confidence (py_min (MIN_CONFIDENCE_SCORE cfg) 1) r.
Proof.
  intro Ho. unfold calculate_confidence_score, step_confidence, ge_bool.
  destruct (Z.eqb_spec o 0); [contradiction|].
  destruct (Qle_bool (7 # 10) r); [reflexivity|].
  destruct (Qle_bool (5 # 10) r); [reflexivity|].
  destruct (Qle_bool (3 # 10) r); [reflexivity|].
  destruct (Qle_bool (1 # 10) r); reflexivity.
Qed.

Lemma score_of_lengths (cfg : Config.t) (o c : Z) :
  (0 < o)%Z ->
  calculate_confidence_score cfg o c None
  = calculate_confidence_score cfg o c (Some (ratio c o)).
Proof.
  intro Ho. unfold calculate_confidence_score, ratio.
  destruct (Z.eqb_spec o 0); [lia|].
  destruct (Z.ltb_spec 0 o); [reflexivity|lia].
Qed.

(** A threshold on the ratio is a comparison of the two lengths. *)
Lemma ratio_threshold (n : Z) (d : positive) (c o : Z) :
  (0 < o)%Z ->
  Qle_bool (n # d) (ratio c o) = true <-> (n * o <= Z.pos d * c)%Z.
Proof.
  intro Ho. rewrite Qle_bool_iff. unfold ratio.
  assert (Hpos : (0 < inject_Z o)%Q) by (unfold Qlt; simpl; lia).
  split; intro H.
  - apply (Qmult_le_compat_r _ _ (inject_Z o)) in H; [|now apply Qlt_le_weak].
    assert (E : (inject_Z c / inject_Z o * inject_Z o == inject_Z c)%Q).
    { field. intro E. rewrite E in Hpos. discriminate. }
    rewrite E in H. unfold Qle in H. simpl in H. lia.
  - apply Qle_shift_div_l; [exact Hpos|].
    unfold Qle. simpl. lia.
Qed.

Lemma step_confidence_monotone (floor r1 r2 : Q) :
  (floor <= 1 # 2)%Q -> (r1 <= r2)%Q ->
  (step_confidence floor r1 <= step_confidence floor r2)%Q.
Proof.
  intros Hf Hr. unfold step_confidence.
  repeat match goal with
  | |- context [Qle_bool ?a ?b] =>
      let E := fresh "E" in
      destruct (Qle_bool a b) eqn:E;
      [apply Qle_bool_iff in E | apply Qle_bool_false in E]
  end; lra.
Qed.

(** C2, as amended.  For lengths with [original_length > 0] the score is
    the step function of the ratio [cleaned_length / original_length]
    (0.95 from 0.70 on, 0.85 from 0.50, 0.70 from 0.30, 0.50 from 0.10),
    and below 0.10 it is the configured floor capped at 1.0, which is
    the floor itself whenever the floor is at most 1.0, as the default
    0.5 is.  For [original_length = 0] it is the floor, uncapped, and
    when the text extracted from the page is empty [clean_text] reports
    the status "failed" with the floor as confidence. *)
Theorem confidence_score_step (cfg : Config.t) (lib : Library) :
  (forall o c : Z, (0 < o)%Z ->
     calculate_confidence_score cfg o c None
     = step_confidence (py_min (MIN_CONFIDENCE_SCORE cfg) 1) (ratio c o))
  /\ ((MIN_CONFIDENCE_SCORE cfg <= 1)%Q ->
      forall o c : Z, (0 < o)%Z ->
        calculate_confidence_score cfg o c None
        = step_confidence (MIN_CONFIDENCE_SCORE cfg) (ratio c o))
  /\ (forall c : Z,
        calculate_confidence_score cfg 0 c None = MIN_CONFIDENCE_SCORE cfg)
  /\ (forall html raw,
        clean_html lib html = Return raw -> len raw = 0%Z ->
        status (clean_text cfg lib html) = "failed"%string
        /\ extraction_confidence (clean_text cfg lib html)
           = MIN_CONFIDENCE_SCORE cfg).
Proof.
  repeat split.
  - intros o c Ho. rewrite score_of_lengths by exact Ho.
    apply score_of_rate. lia.
  - intros Hf o c Ho. rewrite score_of_lengths by exact Ho.
    rewrite score_of_rate by lia. now rewrite py_min_le.
  - unfold clean_text, clean_text_try. rewrite H.
    apply Z.eqb_eq in H0. now rewrite H0.
  - unfold clean_text, clean_text_try. rewrite H.
    apply Z.eqb_eq in H0. now rewrite H0.
Qed.

(** A library whose parsers give back the same tree for every input. *)
Definition constant_library (soup : list node) : Library :=
  {| is_word := fun c => (in_range 48 57 c || in_range 65 90 c
                          || in_range 97 122 c || N.eqb c 95)%N%bool;
     parse_lxml := fun _ => Return soup;
     parse_html_parser := fun _ => Return soup;
     walk_fault := fun _ => None |}.

Lemma confidence_score_step_default :
  calculate_confidence_score (with_floor (1 # 2)) 100 5 None = (1 # 2)%Q
  /\ calculate_confidence_score (with_floor (1 # 2)) 100 75 None
     = (95 # 100)%Q
  /\ status (clean_text (with_floor (1 # 2)) (constant_library []) [])
     = "failed"%string.
Proof.
  destruct (confidence_score_step (with_floor (1 # 2)) (constant_library []))
    as (_ & Hstep & _ & Hempty).
  split; [|split].
  - rewrite Hstep; [reflexivity | discriminate | lia].
  - rewrite Hstep; [reflexivity | discriminate | lia].
  - apply (Hempty [] []); reflexivity.
Defined.

(** C2 as stated fails when the floor is configured above 1.0: with a
    floor of 2, lengths 100 and 5 give the ratio 0.05, below every
    threshold, and the score is 1.0, not the floor. *)
Lemma confidence_score_floor_above_one :
  (0 < 100)%Z
  /\ (ratio 5 100 < 1 # 10)%Q
  /\ ~ (calculate_confidence_score (with_floor 2) 100 5 None
        == MIN_CONFIDENCE_SCORE (with_floor 2))%Q
  /\ ~ (calculate_confidence_score (with_floor 2) 100 5 None
        == step_confidence (MIN_CONFIDENCE_SCORE (with_floor 2))
             (ratio 5 100))%Q.
Proof.
  split; [lia|]. split; [reflexivity|]. split; vm_compute; discriminate.
Qed.

(** C9, as amended.  For a floor value of at most 0.50 and a positive
    original length, the score does not decrease when the preservation
    ratio grows, whether the ratio comes from the two lengths or is
    handed in by the caller. *)
Theorem confidence_monotone (cfg : Config.t) (o c1 c2 : Z) (r1 r2 : Q) :
  (MIN_CONFIDENCE_SCORE cfg <= 1 # 2)%Q ->
  (0 < o)%Z ->
  ((ratio c1 o < ratio c2 o)%Q ->
   (calculate_confidence_score cfg o c1 None
    <= calculate_confidence_score cfg o c2 None)%Q)
  /\ ((r1 < r2)%Q ->
      (calculate_confidence_score cfg o c1 (Some r1)
       <= calculate_confidence_score cfg o c2 (Some r2))%Q).
Proof.
  intros Hf Ho.
  assert (Hmin : py_min (MIN_CONFIDENCE_SCORE cfg) 1 = MIN_CONFIDENCE_SCORE cfg)
    by (apply py_min_le; lra).
  split; intro Hr.
  - rewrite !score_of_lengths by exact Ho.
    rewrite !score_of_rate by lia. rewrite Hmin.
    apply step_confidence_monotone; [exact Hf | now apply Qlt_le_weak].
  - rewrite !score_of_rate by lia. rewrite Hmin.
    apply step_confidence_monotone; [exact Hf | now apply Qlt_le_weak].
Qed.

Lemma confidence_monotone_default :
  (calculate_confidence_score (with_floor (1 # 2)) 100 5 None
   <= calculate_confidence_score (with_floor (1 # 2)) 100 20 None)%Q
  /\ (calculate_confidence_score (with_floor (1 # 2)) 100 20 None
      <= calculate_confidence_score (with_floor (1 # 2)) 100 60 None)%Q.
Proof.
  split.
  - refine (proj1 (confidence_monotone (with_floor (1 # 2)) 100 5 20 0 0
                     _ _) _); [discriminate | lia | reflexivity].
  - refine (proj1 (confidence_monotone (with_floor (1 # 2)) 100 20 60 0 0
                     _ _) _); [discriminate | lia | reflexivity].
Defined.

(** C9 as stated, for every floor value, fails: with a floor of 0.6 the
    ratio 0.05 scores 0.6 and the larger ratio 0.20 scores 0.5. *)
Lemma confidence_not_monotone_high_floor :
  (ratio 5 100 < ratio 20 100)%Q
  /\ ~ (calculate_confidence_score (with_floor (6 # 10)) 100 5 None
        <= calculate_confidence_score (with_floor (6 # 10)) 100 20 None)%Q.
Proof.
  split; [reflexivity|]. vm_compute. intro H. apply H. reflexivity.
Qed.

End ConfidenceFacts.

(** ** Cleaning a page *)

Module TextFacts.

Import Config TextProcessor.

(** The CJK ideographs of a text, in order. *)
Definition cjk (s : pystr) : pystr := filter is_cjk s.

(** [needle in hay] for two texts. *)
Fixpoint starts_with (needle hay : pystr) : bool :=
  match needle, hay with
  | [], _ => true
  | x :: needle', y :: hay' => (N.eqb x y && starts_with needle' hay')%bool
  | _ :: _, [] => false
  end.

Fixpoint occurs (needle hay : pystr) : bool :=
  (starts_with needle hay
   || match hay with
      | [] => false
      | _ :: hay' => occurs needle hay'
      end)%bool.

(** The selectors of both loops of [clean_html]. *)
Definition DENYLIST : list selector :=
  (map TypeSelector REMOVE_TAGS ++ NON_CONTENT_SELECTORS)%list.

(** The shape of a test on a tag: its name, its id and its classes. *)
Definition tag_test : Type := string -> option string -> list string -> bool.

Definition denied (name : string) (id : option string)
  (classes : list string) : bool :=
  existsb (fun sel => selects sel name id classes) DENYLIST.

(** The strings of a tree that [get_text] takes and that lie in no
    element for which [out] holds; [inside] says whether the tree lies
    in a string container. *)
Fixpoint strings_outside (out : tag_test) (inside : bool) (n : node)
  : list pystr :=
  match n with
  | NavigableString s => if inside then [] else [s]
  | CData s => [s]
  | Comment _ => []
  | Tag name id classes children =>
      if out name id classes then []
      else
        flat_map (strings_outside out (inside || is_string_container name))
          children
  end.

(** The text nodes that are kept: those outside scripts, styles,
    navigation and the other elements of the denylist, and outside the
    ruby annotations ([rt], [rp]) and templates, whose text [get_text]
    leaves out. *)
Definition content_strings (soup : list node) : list pystr :=
  flat_map (strings_outside denied false) soup.

(** Following the words of the specification: the text nodes of the
    page that lie in no element with one of the [names], which for the
    non-script, non-navigation text nodes are [script] and [nav]. *)
Fixpoint text_nodes_outside (names : list string) (n : node) : list pystr :=
  match n with
  | NavigableString s => [s]
  | CData s => [s]
  | Comment _ => []
  | Tag name _ _ children =>
      if existsb (String.eqb name) names then []
      else flat_map (text_nodes_outside names) children
  end.

Definition non_script_non_navigation (soup : list node) : list pystr :=
  flat_map (text_nodes_outside ["script"; "nav"]%string) soup.

(** [BeautifulSoup(html, 'lxml')] gave [soup], or raised and
    [BeautifulSoup(html, 'html.parser')] gave it. *)
Definition parsed (lib : Library) (html : pystr) (soup : list node) : Prop :=
  parse_lxml lib html = Return soup
  \/ ((exists e, parse_lxml lib html = Raise e)
      /\ parse_html_parser lib html = Return soup).

(** Induction on trees, with the hypothesis for every child of a tag. *)
Section NodeInduction.

Variable P : node -> Prop.
Hypothesis P_string : forall s, P (NavigableString s).
Hypothesis P_cdata : forall s, P (CData s).
Hypothesis P_comment : forall s, P (Comment s).
Hypothesis P_tag : forall name id classes children,
  Forall P children -> P (Tag name id classes children).

Fixpoint node_induction (n : node) : P n :=
  match n with
  | NavigableString s => P_string s
  | CData s => P_cdata s
  | Comment s => P_comment s
  | Tag name id classes children =>
      P_tag name id classes children
        ((fix all (l : list node) : Forall P l :=
            match l with
            | [] => Forall_nil P
            | x :: l' => Forall_cons x (node_induction x) (all l')
            end) children)
  end.

End NodeInduction.

Lemma flat_map_Forall_ext {A B : Type} (f g : A -> list B) (l : list A) :
  Forall (fun x => f x = g x) l -> flat_map f l = flat_map g l.
Proof.
  induction 1 as [|x l Hx _ IH]; simpl; [reflexivity|].
  now rewrite Hx, IH.
Qed.

Lemma flat_map_flat_map {A B C : Type} (f : B -> list C) (g : A -> list B)
  (l : list A) :
  flat_map f (flat_map g l) = flat_map (fun x => flat_map f (g x)) l.
Proof.
  induction l as [|x l IH]; simpl; [reflexivity|].
  now rewrite flat_map_app, IH.
Qed.

Lemma strings_outside_none (n : node) :
  forall inside,
  strings_outside (fun _ _ _ => false) inside n = strings inside n.
Proof.
  induction n as [s|s|s|name id classes children IH] using node_induction;
    intro inside; simpl; try reflexivity.
  apply flat_map_Forall_ext.
  eapply Forall_impl; [|exact IH]. intros child H. apply H.
Qed.

Lemma strings_outside_ext (out out' : tag_test) (n : node) :
  (forall name id classes, out name id classes = out' name id classes) ->
  forall inside, strings_outside out inside n = strings_outside out' inside n.
Proof.
  intro E.
  induction n as [s|s|s|name id classes children IH] using node_induction;
    intro inside; simpl; try reflexivity.
  rewrite E. destruct (out' name id classes); [reflexivity|].
  apply flat_map_Forall_ext.
  eapply Forall_impl; [|exact IH]. intros child H. apply H.
Qed.

(** One pass of [decompose] takes out the strings under the elements it
    selects and no others. *)
Lemma strings_outside_decompose_in (out : tag_test) (sel : selector)
  (n : node) :
  forall inside,
  flat_map (strings_outside out inside) (decompose_in sel n)
  = strings_outside
      (fun name id classes =>
         (out name id classes || selects sel name id classes)%bool) inside n.
Proof.
  induction n as [s|s|s|name id classes children IH] using node_induction;
    intro inside; simpl; try reflexivity; try (now rewrite app_nil_r).
  destruct (selects sel name id classes) eqn:Esel; simpl.
  - now rewrite orb_true_r.
  - rewrite orb_false_r, app_nil_r.
    destruct (out name id classes); [reflexivity|].
    rewrite flat_map_flat_map. apply flat_map_Forall_ext.
    eapply Forall_impl; [|exact IH]. intros child H. apply H.
Qed.

Lemma strings_outside_decompose (out : tag_test) (sel : selector)
  (inside : bool) (soup : list node) :
  flat_map (strings_outside out inside) (decompose soup sel)
  = flat_map
      (strings_outside
         (fun name id classes =>
            (out name id classes || selects sel name id classes)%bool)
         inside) soup.
Proof.
  unfold decompose. rewrite flat_map_flat_map.
  apply flat_map_Forall_ext, Forall_forall. intros n _.
  apply strings_outside_decompose_in.
Qed.

Lemma strings_outside_passes (inside : bool) (sels : list selector) :
  forall (out : tag_test) (soup : list node),
  flat_map (strings_outside out inside) (fold_left decompose sels soup)
  = flat_map
      (strings_outside
         (fun name id classes =>
            (out name id classes
             || existsb (fun sel => selects sel name id classes) sels)%bool)
         inside)
      soup.
Proof.
  induction sels as [|sel sels IH]; intros out soup; simpl.
  - apply flat_map_Forall_ext, Forall_forall. intros n _.
    apply strings_outside_ext. intros. now rewrite orb_false_r.
  - rewrite IH, strings_outside_decompose.
    apply flat_map_Forall_ext, Forall_forall. intros n _.
    apply strings_outside_ext. intros name id classes.
    destruct (out name id classes), (selects sel name id classes),
      (existsb (fun sel0 => selects sel0 name id classes) sels);
      reflexivity.
Qed.

(** The strings [get_text] walks after the two loops of [clean_html] are
    the content strings of the parsed tree. *)
Lemma strings_strip_soup (soup : list node) :
  flat_map (strings false) (strip_soup soup) = content_strings soup.
Proof.
  change (strip_soup soup) with (fold_left decompose DENYLIST soup).
  unfold content_strings.
  rewrite <- (flat_map_Forall_ext
                (strings_outside (fun _ _ _ => false) false) (strings false))
    by (apply Forall_forall; intros n _; apply strings_outside_none).
  rewrite strings_outside_passes.
  apply flat_map_Forall_ext, Forall_forall. intros n _.
  now apply strings_outside_ext.
Qed.

(** No whitespace character is a CJK ideograph. *)
Lemma space_not_cjk (c : codepoint) : py_isspace c = true -> is_cjk c = false.
Proof.
  intro H. destruct (is_cjk c) eqn:E; [|reflexivity]. exfalso.
  unfold py_isspace, is_cjk, in_range in *.
  repeat rewrite ?orb_true_iff, ?andb_true_iff, ?N.leb_le, ?N.eqb_eq in *.
  lia.
Qed.

Lemma cjk_app (s t : pystr) : cjk (s ++ t) = (cjk s ++ cjk t)%list.
Proof. apply filter_app. Qed.

Lemma squeeze_cons (c x : codepoint) (rest : pystr) :
  squeeze c (x :: rest)
  = if N.eqb x c then
      match rest with
      | y :: _ => if N.eqb y c then squeeze c rest else x :: squeeze c rest
      | [] => [x]
      end
    else x :: squeeze c rest.
Proof. reflexivity. Qed.

Lemma cjk_cons (x : codepoint) (text : pystr) :
  cjk (x :: text) = if is_cjk x then x :: cjk text else cjk text.
Proof. reflexivity. Qed.

Lemma cjk_squeeze (c : codepoint) (text : pystr) :
  is_cjk c = false -> cjk (squeeze c text) = cjk text.
Proof.
  intro Hc. induction text as [|x rest IH]; [reflexivity|].
  rewrite (squeeze_cons c x rest).
  destruct (N.eqb_spec x c) as [->|_].
  - destruct rest as [|y rest']; [reflexivity|].
    destruct (N.eqb y c).
    + now rewrite IH, (cjk_cons c), Hc.
    + now rewrite !(cjk_cons c), Hc, IH.
  - now rewrite !(cjk_cons x), IH.
Qed.

Lemma cjk_replace_char (a b : codepoint) (text : pystr) :
  is_cjk a = false -> is_cjk b = false ->
  cjk (replace_char a b text) = cjk text.
Proof.
  intros Ha Hb. unfold cjk, replace_char.
  induction text as [|x rest IH]; [reflexivity|]. simpl.
  destruct (N.eqb_spec x a) as [->|_]; rewrite IH; [|reflexivity].
  now rewrite Ha, Hb.
Qed.

Lemma cjk_lstrip (text : pystr) : cjk (lstrip text) = cjk text.
Proof.
  induction text as [|x rest IH]; [reflexivity|]. simpl.
  destruct (py_isspace x) eqn:E; [|reflexivity].
  rewrite IH. unfold cjk. simpl. now rewrite (space_not_cjk x E).
Qed.

Lemma cjk_rev (text : pystr) : cjk (rev text) = rev (cjk text).
Proof.
  induction text as [|x rest IH]; [reflexivity|]. simpl.
  rewrite cjk_app, IH. unfold cjk. simpl.
  destruct (is_cjk x); simpl; [reflexivity | now rewrite app_nil_r].
Qed.

Lemma cjk_strip (text : pystr) : cjk (strip text) = cjk text.
Proof.
  unfold strip, rstrip.
  now rewrite cjk_rev, cjk_lstrip, cjk_rev, rev_involutive, cjk_lstrip.
Qed.

Lemma cjk_normalize_whitespace (text : pystr) :
  cjk (normalize_whitespace text) = cjk text.
Proof.
  unfold normalize_whitespace.
  now rewrite cjk_strip, cjk_replace_char, !cjk_squeeze.
Qed.

(** Every ideograph of the three ranges is on the allow-list. *)
Lemma cjk_remove_special_characters (is_word : codepoint -> bool)
  (text : pystr) :
  cjk (remove_special_characters is_word text true) = cjk text.
Proof.
  unfold cjk, remove_special_characters.
  induction text as [|x rest IH]; [reflexivity|]. simpl.
  unfold kept_unicode at 1. destruct (is_cjk x) eqn:E; simpl.
  - now rewrite E, IH.
  - destruct (_ || _)%bool; simpl; [now rewrite E, IH | exact IH].
Qed.

Lemma cjk_join (separator : pystr) (parts : list pystr) :
  cjk separator = [] -> cjk (join separator parts) = cjk (List.concat parts).
Proof.
  intro Hsep. induction parts as [|p rest IH]; [reflexivity|].
  destruct rest as [|q rest'].
  - simpl. now rewrite app_nil_r.
  - change (join separator (p :: q :: rest'))
      with (p ++ separator ++ join separator (q :: rest'))%list.
    change (List.concat (p :: q :: rest'))
      with (p ++ List.concat (q :: rest'))%list.
    now rewrite !cjk_app, Hsep, IH.
Qed.

Lemma concat_nonempty (parts : list pystr) :
  List.concat (filter nonempty parts) = List.concat parts.
Proof.
  induction parts as [|p rest IH]; [reflexivity|]. simpl.
  destruct p; simpl; [exact IH | now rewrite IH].
Qed.

Lemma cjk_concat_strip (parts : list pystr) :
  cjk (List.concat (map strip parts)) = cjk (List.concat parts).
Proof.
  induction parts as [|p rest IH]; [reflexivity|]. simpl.
  now rewrite !cjk_app, cjk_strip, IH.
Qed.

Lemma cjk_get_text (soup : list node) :
  cjk (get_text soup) = cjk (List.concat (flat_map (strings false) soup)).
Proof.
  unfold get_text.
  rewrite cjk_join by reflexivity.
  now rewrite concat_nonempty, cjk_concat_strip.
Qed.

(** What [clean_html] returns once a parser has given a tree. *)
Lemma clean_html_parsed (lib : Library) (html : pystr) (soup : list node) :
  parsed lib html soup -> walk_fault lib soup = None ->
  clean_html lib html = Return (get_text (strip_soup soup)).
Proof.
  intros [Hp | [[e He] Hp]] Hw; unfold clean_html.
  - now rewrite Hp, Hw.
  - now rewrite He, Hp, Hw.
Qed.

(** The cleaned text of a page keeps the ideographs of the text that
    [clean_html] extracted. *)
Lemma cjk_clean_text (cfg : Config.t) (lib : Library) (html raw : pystr) :
  clean_html lib html = Return raw ->
  cjk (cleaned_text (clean_text cfg lib html)) = cjk raw.
Proof.
  intro H. unfold clean_text, clean_text_try. rewrite H.
  destruct (Z.eqb_spec (len raw) 0) as [E|_]; cbn [cleaned_text].
  - destruct raw; [reflexivity | discriminate].
  - now rewrite cjk_remove_special_characters, cjk_normalize_whitespace.
Qed.

(** The page of the scenario and the tree lxml builds for it: the script
    in the head, the paragraph in the body. *)
Definition scenario_html : pystr :=
  [60; 115; 99; 114; 105; 112; 116; 62; 97; 108; 101; 114; 116; 40; 49; 41;
   60; 47; 115; 99; 114; 105; 112; 116; 62; 60; 112; 62;
   21608; 26480; 20523; 26032; 32862; 60; 47; 112; 62]%N.

Definition headline : pystr := [21608; 26480; 20523; 26032; 32862]%N.

Definition alert : pystr := [97; 108; 101; 114; 116]%N.

Definition scenario_soup : list node :=
  [Tag "html" None []
     [Tag "head" None []
        [Tag "script" None []
           [NavigableString [97; 108; 101; 114; 116; 40; 49; 41]%N]];
      Tag "body" None [] [Tag "p" None [] [NavigableString headline]]]].

(** A page with a ruby annotation, [<p>.<ruby>.<rt>.</rt></ruby></p>]
    with one ideograph at each dot, and the tree lxml builds for it. *)
Definition ruby_html : pystr :=
  [60; 112; 62; 21608; 60; 114; 117; 98; 121; 62; 26480; 60; 114; 116; 62;
   20523; 60; 47; 114; 116; 62; 60; 47; 114; 117; 98; 121; 62;
   60; 47; 112; 62]%N.

Definition ruby_soup : list node :=
  [Tag "html" None []
     [Tag "body" None []
        [Tag "p" None []
           [NavigableString [21608%N];
            Tag "ruby" None []
              [NavigableString [26480%N];
               Tag "rt" None [] [NavigableString [20523%N]]]]]]].

(** C7, as amended.  When a parser gives a tree for the page and walking
    it raises nothing, the cleaned text has exactly the CJK ideographs
    of the text nodes that lie outside the elements [clean_html]
    removes (scripts, styles, navigation and the others of its two
    lists) and outside [rt], [rp] and [template] elements, whose text
    [get_text] leaves out: each of them and in the same order.  For the
    page [<script>alert(1)</script><p>...</p>] with the five ideographs
    of the headline in the paragraph, the cleaned text is the headline:
    it contains the headline and does not contain [alert]. *)
Theorem cjk_preservation (cfg : Config.t) (lib : Library) :
  (forall html soup,
     parsed lib html soup -> walk_fault lib soup = None ->
     cjk (cleaned_text (clean_text cfg lib html))
     = cjk (List.concat (content_strings soup)))
  /\ (parsed lib scenario_html scenario_soup ->
      walk_fault lib scenario_soup = None ->
      cleaned_text (clean_text cfg lib scenario_html) = headline
      /\ occurs headline (cleaned_text (clean_text cfg lib scenario_html))
         = true
      /\ occurs alert (cleaned_text (clean_text cfg lib scenario_html))
         = false).
Proof.
  split.
  - intros html soup Hp Hw.
    rewrite (cjk_clean_text cfg lib html _
               (clean_html_parsed lib html soup Hp Hw)).
    now rewrite cjk_get_text, strings_strip_soup.
  - intros Hp Hw.
    assert (E : cleaned_text (clean_text cfg lib scenario_html) = headline).
    { unfold clean_text, clean_text_try.
      rewrite (clean_html_parsed lib _ _ Hp Hw). reflexivity. }
    rewrite E. repeat split; reflexivity.
Qed.

(** C7 as stated fails for a ruby annotation: the ideograph in [rt] is
    in a text node that is neither in a script nor in navigation, and
    the cleaned text does not have it. *)
Lemma ruby_text_is_dropped :
  let page :=
    clean_text (ConfidenceFacts.with_floor (1 # 2))
      (ConfidenceFacts.constant_library ruby_soup) ruby_html in
  cleaned_text page = [21608; 32; 26480]%N
  /\ cjk (List.concat (non_script_non_navigation ruby_soup))
     = [21608; 26480; 20523]%N
  /\ cjk (cleaned_text page)
     <> cjk (List.concat (non_script_non_navigation ruby_soup)).
Proof.
  vm_compute. repeat split. discriminate.
Qed.

Lemma cjk_preservation_scenario :
  cleaned_text
    (clean_text (ConfidenceFacts.with_floor (1 # 2))
       (ConfidenceFacts.constant_library scenario_soup) scenario_html)
  = headline.
Proof.
  refine (proj1 (proj2 (cjk_preservation (ConfidenceFacts.with_floor (1 # 2))
                          (ConfidenceFacts.constant_library scenario_soup))
                   _ _)).
  - left. reflexivity.
  - reflexivity.
Defined.

(** C10.  [clean_text] returns a result for every input, whatever the
    parsers and the tree walk do, raising included; its status is one of
    "success", "partial", "failed" and "error", and its content length is
    the length of its cleaned text. *)
Theorem clean_text_total (cfg : Config.t) (lib : Library) (html : pystr) :
  In (status (clean_text cfg lib html))
     ["success"; "partial"; "failed"; "error"]%string
  /\ content_length (clean_text cfg lib html)
     = len (cleaned_text (clean_text cfg lib html)).
Proof.
  unfold clean_text, clean_text_try.
  destruct (clean_html lib html) as [raw|e]; simpl.
  - destruct (Z.eqb (len raw) 0); simpl.
    + split; [right; right; left; reflexivity | reflexivity].
    + split; [|reflexivity].
      destruct (Z.ltb _ _); [right; left | left]; reflexivity.
  - split; [do 3 right; left; reflexivity | reflexivity].
Qed.

End TextFacts.

(** ** Retrying and key rotation *)

Module RetryFacts.

Import Config GoogleScraper.

Lemma last_default {T : Type} (l : list T) (x d d' : T) :
  last (x :: l) d = last (x :: l) d'.
Proof.
  revert x. induction l as [|y l IH]; intro x; [reflexivity|].
  change (last (y :: l) d = last (y :: l) d'). apply IH.
Qed.

Lemma last_cons {T : Type} (l : list T) (x d : T) :
  last (x :: l) d = last l x.
Proof.
  destruct l as [|y l]; [reflexivity|].
  change (last (y :: l) d = last (y :: l) x). apply last_default.
Qed.

Local Arguments last {A} l d : simpl never.

Section Wrapper.

Variables St A : Type.
Variable cfg : Config.t.
Variable func : M St A.

(** The exception [raise last_exception] raises after the loop. *)
Definition raised_after (last_exception : option exn) : exn :=
  match last_exception with
  | Some e => e
  | None => TypeError "exceptions must derive from BaseException"
  end.

(** The wrapper goes on only after a [RequestException]. *)
Lemma caught_request_exceptions (remaining : nat) :
  forall attempt last_exception st,
  Forall (fun e => is_request_exception e = true)
    (caught (wrapper_loop cfg func remaining attempt last_exception st)).
Proof.
  induction remaining as [|k IH]; intros attempt last_exception st; simpl.
  - constructor.
  - destruct (func st) as [[a|e] st']; [constructor|].
    destruct (is_request_exception e) eqn:E; simpl; [|constructor].
    constructor; [exact E | apply IH].
Qed.

Lemma calls_bounded (remaining : nat) :
  forall attempt last_exception st,
  (calls (wrapper_loop cfg func remaining attempt last_exception st)
   <= remaining)%nat.
Proof.
  induction remaining as [|k IH]; intros attempt last_exception st; simpl.
  - lia.
  - destruct (func st) as [[a|e] st']; simpl; [lia|].
    destruct (is_request_exception e); simpl; [|lia].
    specialize (IH (attempt + 1)%Z (Some e) st'). lia.
Qed.

(** A first attempt that does not raise a [RequestException] is the only
    attempt. *)
Lemma single_attempt (remaining : nat) (attempt : Z)
  (last_exception : option exn) (st : St) :
  (forall e, fst (func st) <> Raise (RequestException e)) ->
  wrapper_loop cfg func (S remaining) attempt last_exception st
  = {| result := fst (func st); final := snd (func st);
       calls := 1; caught := []; sleeps := [] |}.
Proof.
  intro H. simpl. destruct (func st) as [[a|e] st']; [reflexivity|].
  destruct e; try reflexivity. exfalso. now apply (H e).
Qed.

(** The state in which the attempt after [k] others begins: every
    attempt begins in the state the attempt before it has left. *)
Fixpoint state_before (k : nat) (st : St) : St :=
  match k with
  | O => st
  | S k' => state_before k' (snd (func st))
  end.

(** The attempt after [k] others, counted from the call in state [st],
    raises a [RequestException]. *)
Definition fails_at (st : St) (k : nat) : Prop :=
  exists e, fst (func (state_before k st)) = Raise (RequestException e).

(** What one run of the loop does, whatever the operation: the attempts
    before the last have all raised a [RequestException], the outcome
    and the state are those of the last attempt, and a run that stops
    before the attempts are used up has not ended in a
    [RequestException]. *)
Lemma wrapper_loop_outcome (remaining : nat) :
  forall attempt last_exception st,
  (0 < remaining)%nat ->
  let run := wrapper_loop cfg func remaining attempt last_exception st in
  (1 <= calls run <= remaining)%nat
  /\ result run = fst (func (state_before (calls run - 1) st))
  /\ final run = snd (func (state_before (calls run - 1) st))
  /\ (forall j, (j < calls run - 1)%nat -> fails_at st j)
  /\ ((calls run < remaining)%nat ->
      forall e, result run <> Raise (RequestException e)).
Proof.
  induction remaining as [|k IH]; intros attempt last_exception st Hpos;
    [lia|].
  cbn [wrapper_loop]. cbv zeta.
  destruct (func st) as [[a|e] st'] eqn:Efunc.
  - cbn. rewrite Efunc. repeat split; try lia; discriminate.
  - destruct (is_request_exception e) eqn:Ereq.
    + cbn [result final calls].
      destruct k as [|k'].
      * cbn. rewrite Efunc. repeat split; try lia.
      * destruct (IH (attempt + 1)%Z (Some e) st') as (H1 & H2 & H3 & H4 & H5);
          [lia|].
        replace (S (calls (wrapper_loop cfg func (S k') (attempt + 1)
                             (Some e) st')) - 1)%nat
          with (S (calls (wrapper_loop cfg func (S k') (attempt + 1)
                            (Some e) st') - 1))%nat by lia.
        cbn [state_before]. rewrite Efunc. cbn [snd].
        split; [lia|]. split; [exact H2|]. split; [exact H3|]. split.
        -- intros [|j] Hj.
           ++ destruct e; try discriminate. eexists. cbn. now rewrite Efunc.
           ++ destruct (H4 j) as [e' He']; [lia|].
              exists e'. cbn [state_before]. now rewrite Efunc.
        -- intro Hlt. apply H5. lia.
    + cbn. rewrite Efunc. repeat split; try lia.
      intros _ e' E. injection E as ->. discriminate.
Qed.

(** The attempt after [k] failed ones ends the run when it does not
    raise a [RequestException]; after [remaining] failed attempts the
    run has used them up. *)
Lemma wrapper_loop_stops (remaining k : nat) (attempt : Z)
  (last_exception : option exn) (st : St) :
  (k < remaining)%nat ->
  (forall j, (j < k)%nat -> fails_at st j) ->
  (forall e, fst (func (state_before k st)) <> Raise (RequestException e)) ->
  let run := wrapper_loop cfg func remaining attempt last_exception st in
  calls run = S k
  /\ result run = fst (func (state_before k st))
  /\ final run = snd (func (state_before k st)).
Proof.
  intros Hk Hfail Hstop. cbv zeta.
  destruct (wrapper_loop_outcome remaining attempt last_exception st)
    as (H1 & H2 & H3 & H4 & H5); [lia|].
  assert (Hcalls :
    calls (wrapper_loop cfg func remaining attempt last_exception st) = S k).
  { destruct (Nat.lt_trichotomy
                (calls (wrapper_loop cfg func remaining attempt
                          last_exception st) - 1) k) as [Hlt|[Heq|Hgt]].
    - exfalso. destruct (Hfail _ Hlt) as [e He].
      apply (H5 ltac:(lia) e). now rewrite H2.
    - lia.
    - exfalso. destruct (H4 k Hgt) as [e He]. now apply (Hstop e). }
  rewrite Hcalls in H2, H3.
  replace (S k - 1)%nat with k in H2, H3 by lia.
  now repeat split.
Qed.

Lemma wrapper_loop_exhausted (remaining : nat) (attempt : Z)
  (last_exception : option exn) (st : St) :
  (0 < remaining)%nat ->
  (forall j, (j < remaining)%nat -> fails_at st j) ->
  let run := wrapper_loop cfg func remaining attempt last_exception st in
  calls run = remaining
  /\ exists e,
       fst (func (state_before (remaining - 1) st))
       = Raise (RequestException e)
       /\ result run = Raise (RequestException e)
       /\ final run = snd (func (state_before (remaining - 1) st)).
Proof.
  intros Hpos Hfail. cbv zeta.
  destruct (wrapper_loop_outcome remaining attempt last_exception st Hpos)
    as (H1 & H2 & H3 & H4 & H5).
  assert (Hcalls :
    calls (wrapper_loop cfg func remaining attempt last_exception st)
    = remaining).
  { destruct (Nat.eq_dec
                (calls (wrapper_loop cfg func remaining attempt
                          last_exception st)) remaining) as [E|Hne];
      [exact E|].
    exfalso. destruct (Hfail (calls (wrapper_loop cfg func remaining attempt
                                       last_exception st) - 1)%nat)
      as [e He]; [lia|].
    apply (H5 ltac:(lia) e). now rewrite H2. }
  rewrite Hcalls in H2, H3. split; [exact Hcalls|].
  destruct (Hfail (remaining - 1)%nat) as [e He]; [lia|].
  exists e. split; [exact He|]. split; [now rewrite H2 | exact H3].
Qed.

(** The exceptions the loop has caught are those of its attempts, but
    for the last attempt when that one ended the run. *)
Lemma caught_ends_with_raised (remaining : nat) :
  forall attempt last_exception st e,
  result (wrapper_loop cfg func remaining attempt last_exception st)
  = Raise (RequestException e) ->
  (0 < remaining)%nat ->
  exists before,
    caught (wrapper_loop cfg func remaining attempt last_exception st)
    = (before ++ [RequestException e])%list.
Proof.
  induction remaining as [|k IH]; intros attempt last_exception st e Hr Hpos;
    [lia|].
  revert Hr. cbn [wrapper_loop]. cbv zeta.
  destruct (func st) as [[a|e0] st'] eqn:Efunc; [discriminate|].
  destruct (is_request_exception e0) eqn:Ereq.
  - cbn [result caught]. destruct k as [|k'].
    + cbn. intro Hr. injection Hr as ->. now exists [].
    + intro Hr. destruct (IH (attempt + 1)%Z (Some e0) st' e Hr)
        as [before Hb]; [lia|].
      exists (e0 :: before). now rewrite Hb.
  - cbn. intro Hr. injection Hr as ->. discriminate.
Qed.

(** The loop with [remaining] iterations to go, the last of which is
    attempt number [SCRAPER_MAX_RETRIES]: one sleep before every call
    but the first, with the delays of the attempts in turn, and the
    outcome and state of the last call. *)
Lemma wrapper_loop_trace (remaining : nat) :
  forall attempt last_exception st,
  (attempt + Z.of_nat remaining = SCRAPER_MAX_RETRIES cfg + 1)%Z ->
  (0 < remaining)%nat ->
  let run := wrapper_loop cfg func remaining attempt last_exception st in
  calls run = S (List.length (sleeps run))
  /\ sleeps run
     = map (fun n => backoff_delay cfg (attempt + Z.of_nat n))
         (seq 0 (List.length (sleeps run)))
  /\ exists st', result run = fst (func st') /\ final run = snd (func st').
Proof.
  induction remaining as [|k IH]; intros attempt last_exception st Hinv Hpos;
    [lia|].
  cbn [wrapper_loop]. cbv zeta.
  destruct (func st) as [[a|e] st'] eqn:Efunc.
  - cbn. repeat split. exists st. now rewrite Efunc.
  - destruct (is_request_exception e) eqn:Ereq.
    + cbn [result final calls sleeps].
      destruct k as [|k'].
      * cbn. destruct (Z.ltb_spec attempt (SCRAPER_MAX_RETRIES cfg)); [lia|].
        repeat split. exists st. now rewrite Efunc.
      * destruct (IH (attempt + 1)%Z (Some e) st') as (Hc & Hs & Hlast);
          [lia | lia|].
        destruct (Z.ltb_spec attempt (SCRAPER_MAX_RETRIES cfg)); [|lia].
        split; [|split; [|exact Hlast]].
        -- simpl List.length. now rewrite Hc.
        -- simpl List.length. rewrite <- cons_seq, map_cons, <- seq_shift,
             map_map, Z.add_0_r.
           f_equal. rewrite Hs at 1. apply map_ext. intro n.
           f_equal. lia.
    + cbn. repeat split. exists st. now rewrite Efunc.
Qed.


End Wrapper.

(** *** One attempt of [search_google] rotates the key once *)

Definition rotate_self (self : GoogleSearcher) : GoogleSearcher :=
  {| api_keys := api_keys self;
     search_engine_ids := search_engine_ids self;
     current_key_index :=
       ((current_key_index self + 1) mod len (api_keys self))%Z |}.

Section SearchFacts.

Variable World : Type.
Variable cfg : Config.t.
Variable session_get : Params -> M World ApiResponse.

(** A computation that leaves the searcher as it found it. *)
Definition keeps_self {A : Type} (c : M (SearchState World) A) : Prop :=
  forall st, fst (snd (c st)) = fst st.

(** A computation that rotates the key when it returns and leaves the
    searcher alone when it raises. *)
Definition rotates_on_return {A : Type} (c : M (SearchState World) A) : Prop :=
  forall st, api_keys (fst st) <> [] ->
  fst (snd (c st))
  = match fst (c st) with
    | Return _ => rotate_self (fst st)
    | Raise _ => fst st
    end.

Lemma keeps_ret {A : Type} (a : A) : keeps_self (ret a).
Proof. intro st. reflexivity. Qed.

Lemma keeps_raise {A : Type} (e : exn) : keeps_self (raise (A := A) e).
Proof. intro st. reflexivity. Qed.

Lemma keeps_lift {A : Type} (o : outcome A) : keeps_self (lift o).
Proof. intro st. reflexivity. Qed.

Lemma keeps_on_world {A : Type} (c : M World A) : keeps_self (on_world c).
Proof.
  intros [self w]. unfold on_world. now destruct (c w).
Qed.

Lemma keeps_get_self : keeps_self (@get_self World).
Proof. intro st. reflexivity. Qed.

Lemma keeps_raise_for_status (code : Z) :
  keeps_self (raise_for_status (St := SearchState World) code).
Proof.
  intro st. unfold raise_for_status. now destruct (_ && _)%bool.
Qed.

Lemma keeps_bind {A B : Type} (c : M (SearchState World) A)
  (k : A -> M (SearchState World) B) :
  keeps_self c -> (forall a, keeps_self (k a)) -> keeps_self (bind c k).
Proof.
  intros Hc Hk st. unfold bind. specialize (Hc st).
  destruct (c st) as [[a|e] st']; simpl in *; [|exact Hc].
  now rewrite Hk.
Qed.

Lemma keeps_get_current_key_pair :
  keeps_self (@_get_current_key_pair World).
Proof.
  unfold _get_current_key_pair.
  repeat (apply keeps_bind;
          [first [apply keeps_get_self | apply keeps_lift] | intro]).
  apply keeps_ret.
Qed.

Lemma rotates_bind {A B : Type} (c : M (SearchState World) A)
  (k : A -> M (SearchState World) B) :
  keeps_self c -> (forall a, rotates_on_return (k a)) ->
  rotates_on_return (bind c k).
Proof.
  intros Hc Hk st Hkeys. unfold bind. specialize (Hc st).
  destruct (c st) as [[a|e] st']; simpl in *; [|exact Hc].
  rewrite Hk by now rewrite Hc. now rewrite Hc.
Qed.

Lemma len_nonempty {T : Type} (l : list T) : l <> [] -> len l <> 0%Z.
Proof. destruct l; [congruence | discriminate]. Qed.

Lemma rotate_api_key_spec (st : SearchState World) :
  api_keys (fst st) <> [] ->
  @_rotate_api_key World st = (Return tt, (rotate_self (fst st), snd st)).
Proof.
  intro H. destruct st as [self w]. unfold _rotate_api_key.
  apply len_nonempty in H. simpl in H.
  destruct (Z.eqb_spec (len (api_keys self)) 0); [contradiction|reflexivity].
Qed.

Lemma rotates_rotate_then_ret {A : Type} (a : A) :
  rotates_on_return (@_rotate_api_key World ;;; ret a).
Proof.
  intros st H. unfold bind. now rewrite rotate_api_key_spec.
Qed.

(** Whatever the two requests give, one attempt leaves the searcher with
    its key rotated once and nothing else changed. *)
Lemma search_google_once_rotates (query : pystr) (st : SearchState World) :
  api_keys (fst st) <> [] ->
  fst (snd (search_google_once cfg session_get query st))
  = rotate_self (fst st).
Proof.
  intro Hkeys. unfold search_google_once, try_except.
  match goal with
  | |- fst (snd (match ?c st with _ => _ end)) = _ =>
      assert (Hbody : rotates_on_return c)
  end.
  { apply rotates_bind; [apply keeps_get_current_key_pair | intro pair].
    apply rotates_bind; [apply keeps_on_world | intro response].
    apply rotates_bind; [apply keeps_raise_for_status | intros _].
    apply rotates_bind; [apply keeps_lift | intro data].
    apply rotates_bind;
      [destruct (api_error data); [apply keeps_raise | apply keeps_ret]
      | intros _].
    apply rotates_bind; [apply keeps_lift | intro urls].
    apply rotates_bind; [apply keeps_on_world | intro response2].
    apply rotates_bind; [apply keeps_raise_for_status | intros _].
    apply rotates_bind; [apply keeps_lift | intro data2].
    apply rotates_bind; [apply keeps_lift | intro more].
    apply rotates_rotate_then_ret. }
  specialize (Hbody st Hkeys).
  match goal with
  | |- fst (snd (match ?c st with _ => _ end)) = _ =>
      destruct (c st) as [[urls|e] st']
  end; simpl in *; [exact Hbody|].
  unfold bind. rewrite rotate_api_key_spec by now rewrite Hbody.
  simpl. now rewrite Hbody.
Qed.

Lemma iter_rotate_keys (k : nat) (self : GoogleSearcher) :
  api_keys (Nat.iter k rotate_self self) = api_keys self
  /\ search_engine_ids (Nat.iter k rotate_self self) = search_engine_ids self.
Proof.
  induction k as [|k IH]; [now split|]. simpl. exact IH.
Qed.

Lemma iter_rotate_index (k : nat) (self : GoogleSearcher) :
  (0 <= current_key_index self < len (api_keys self))%Z ->
  current_key_index (Nat.iter k rotate_self self)
  = ((current_key_index self + Z.of_nat k) mod len (api_keys self))%Z.
Proof.
  intro Hrange. induction k as [|k IH].
  - simpl. rewrite Z.add_0_r. symmetry. now apply Z.mod_small.
  - change (Nat.iter (S k) rotate_self self)
      with (rotate_self (Nat.iter k rotate_self self)).
    unfold rotate_self at 1. cbn [current_key_index].
    rewrite (proj1 (iter_rotate_keys k self)), IH.
    rewrite Z.add_mod_idemp_l by lia. f_equal. lia.
Qed.

(** The wrapped call rotates once for every attempt it makes. *)
Lemma search_loop_rotations (query : pystr) (remaining : nat) :
  forall attempt last_exception self w,
  api_keys self <> [] ->
  fst (final (wrapper_loop cfg (search_google_once cfg session_get query)
                remaining attempt last_exception (self, w)))
  = Nat.iter
      (calls (wrapper_loop cfg (search_google_once cfg session_get query)
                remaining attempt last_exception (self, w)))
      rotate_self self.
Proof.
  induction remaining as [|k IH]; intros attempt last_exception self w Hkeys;
    [reflexivity|].
  pose proof (search_google_once_rotates query (self, w) Hkeys) as Hrot.
  simpl in Hrot |- *.
  destruct (search_google_once cfg session_get query (self, w))
    as [[urls|e] [self' w']]; simpl in *; [exact Hrot|].
  destruct (is_request_exception e); simpl; [|exact Hrot].
  subst self'. rewrite IH by exact Hkeys.
  symmetry. exact (Nat.iter_succ_r _ _ rotate_self self).
Qed.

End SearchFacts.

(** *** Concrete runs *)

(** The default configuration with five credential pairs. *)
Definition five_keys : Config.t :=
  Config.defaults ["key1"; "key2"; "key3"; "key4"; "key5"]%string
    ["cx1"; "cx2"; "cx3"; "cx4"; "cx5"]%string.

(** A network on which every request times out. *)
Definition timeout_net : Params -> M unit ApiResponse :=
  fun _ w => (Raise (RequestException Timeout), w).

(** A search provider that answers every request with status 403. *)
Definition forbidden_net : Params -> M unit ApiResponse :=
  fun _ w =>
    (Return {| api_status_code := 403;
               api_json := Return {| api_error := None; api_items := None |} |},
     w).


Definition some_query : pystr := [21608; 26480; 20523]%N.

Lemma Forall_last {T : Type} (P : T -> Prop) (l : list T) (d : T) :
  Forall P l -> l <> [] -> P (last l d).
Proof.
  induction 1 as [|x l Hx Hl IH]; intro Hne; [congruence|].
  rewrite last_cons. destruct l as [|y l']; [exact Hx|].
  rewrite <- (last_default l' y d x). apply IH. discriminate.
Qed.

(** C4, as amended.  With a pool that is not empty and the cursor inside
    it, one call of [search_google] advances the cursor once for every
    attempt it makes: after a call of [calls] attempts the cursor is
    [(i + calls) mod N], and nothing else of the searcher changes.  The
    number of attempts is at most [SCRAPER_MAX_RETRIES], and it is one,
    so that the cursor advances exactly once, when the first attempt
    returns or raises anything but a [RequestException]. *)
Theorem rotation_once_per_attempt (World : Type) (cfg : Config.t)
  (session_get : Params -> M World ApiResponse) (query : pystr)
  (self : GoogleSearcher) (w : World) :
  api_keys self <> [] ->
  (0 <= current_key_index self < len (api_keys self))%Z ->
  let run := search_google cfg session_get query (self, w) in
  api_keys (fst (final run)) = api_keys self
  /\ search_engine_ids (fst (final run)) = search_engine_ids self
  /\ current_key_index (fst (final run))
     = ((current_key_index self + Z.of_nat (calls run))
        mod len (api_keys self))%Z
  /\ (calls run <= Z.to_nat (SCRAPER_MAX_RETRIES cfg))%nat
  /\ ((1 <= SCRAPER_MAX_RETRIES cfg)%Z ->
      (forall e, fst (search_google_once cfg session_get query (self, w))
                 <> Raise (RequestException e)) ->
      calls run = 1%nat
      /\ current_key_index (fst (final run))
         = ((current_key_index self + 1) mod len (api_keys self))%Z).
Proof.
  intros Hkeys Hrange run.
  assert (Hfinal : fst (final run) = Nat.iter (calls run) rotate_self self)
    by (apply search_loop_rotations; exact Hkeys).
  assert (Hindex : current_key_index (fst (final run))
                   = ((current_key_index self + Z.of_nat (calls run))
                      mod len (api_keys self))%Z)
    by (rewrite Hfinal; now apply iter_rotate_index).
  repeat split.
  - rewrite Hfinal. apply iter_rotate_keys.
  - rewrite Hfinal. apply iter_rotate_keys.
  - exact Hindex.
  - apply calls_bounded.
  - subst run. unfold search_google, exponential_backoff.
    destruct (Z.to_nat (SCRAPER_MAX_RETRIES cfg)) eqn:E; [lia|].
    now rewrite single_attempt.
  - rewrite Hindex. subst run. unfold search_google, exponential_backoff.
    destruct (Z.to_nat (SCRAPER_MAX_RETRIES cfg)) eqn:E; [lia|].
    now rewrite single_attempt.
Qed.

Lemma rotation_once_per_attempt_forbidden :
  current_key_index
    (fst (final (search_google five_keys forbidden_net some_query
                   (new_searcher five_keys, tt))))
  = ((0 + Z.of_nat
            (calls (search_google five_keys forbidden_net some_query
                      (new_searcher five_keys, tt)))) mod 5)%Z.
Proof.
  refine (proj1 (proj2 (proj2
    (rotation_once_per_attempt unit five_keys forbidden_net some_query
       (new_searcher five_keys) tt _ _)))).
  - discriminate.
  - vm_compute. split; [discriminate | reflexivity].
Defined.

(** C4 as stated fails when an attempt is retried: with five keys and a
    network that times out, one call makes three attempts and leaves the
    cursor at 3, not at (0 + 1) mod 5. *)
Lemma rotation_thrice_on_timeouts :
  let run := search_google five_keys timeout_net some_query
               (new_searcher five_keys, tt) in
  current_key_index (new_searcher five_keys) = 0%Z
  /\ calls run = 3%nat
  /\ current_key_index (fst (final run)) = 3%Z
  /\ current_key_index (fst (final run)) <> ((0 + 1) mod 5)%Z.
Proof.
  vm_compute. repeat split; discriminate.
Qed.

(** An operation that times out on its first three calls and returns
    from the fourth on; its state counts the calls. *)
Definition fails_thrice : M nat (list pystr) :=
  fun n =>
    if Nat.ltb n 3 then (Raise (RequestException Timeout), S n)
    else (Return [], S n).

(** C5, as amended.  When at least one attempt is configured and each
    of the [SCRAPER_MAX_RETRIES] attempts of the wrapped operation
    raises a [RequestException], whatever the operation would do
    afterwards, the wrapper makes all the attempts and then raises to
    its caller the exception of the last one, leaving the state that
    attempt left; it returns no value. *)
Theorem exhausted_attempts_raise (St A : Type) (cfg : Config.t)
  (func : M St A) (st : St) :
  (1 <= SCRAPER_MAX_RETRIES cfg)%Z ->
  (forall j, (j < Z.to_nat (SCRAPER_MAX_RETRIES cfg))%nat ->
             fails_at St A func st j) ->
  let run := exponential_backoff cfg func st in
  let last_attempt :=
    state_before St A func (Z.to_nat (SCRAPER_MAX_RETRIES cfg) - 1) st in
  calls run = Z.to_nat (SCRAPER_MAX_RETRIES cfg)
  /\ (exists e before,
        fst (func last_attempt) = Raise (RequestException e)
        /\ caught run = (before ++ [RequestException e])%list
        /\ result run = Raise (RequestException e))
  /\ final run = snd (func last_attempt)
  /\ (forall a, result run <> Return a).
Proof.
  intros Hmax Hfail run last_attempt.
  destruct (wrapper_loop_exhausted St A cfg func
              (Z.to_nat (SCRAPER_MAX_RETRIES cfg)) 1%Z None st)
    as (Hc & e & He & Hr & Hf); [lia | exact Hfail|].
  fold (exponential_backoff cfg func st) in Hc, Hr, Hf. fold run in Hc, Hr, Hf.
  destruct (caught_ends_with_raised St A cfg func
              (Z.to_nat (SCRAPER_MAX_RETRIES cfg)) 1%Z None st e Hr)
    as [before Hb]; [lia|].
  fold (exponential_backoff cfg func st) in Hb. fold run in Hb.
  split; [exact Hc|]. split; [|split; [exact Hf|]].
  - exists e, before. now repeat split.
  - intros a E. rewrite Hr in E. discriminate.
Qed.

Lemma exhausted_attempts_raise_timeout :
  calls (exponential_backoff five_keys fails_thrice 0%nat) = 3%nat
  /\ result (exponential_backoff five_keys fails_thrice 0%nat)
     = Raise (RequestException Timeout).
Proof.
  destruct (exhausted_attempts_raise nat (list pystr) five_keys fails_thrice
              0%nat) as (Hc & (e & before & He & _ & Hr) & _).
  - vm_compute. discriminate.
  - intros j Hj. exists Timeout.
    destruct j as [|[|[|j]]]; [reflexivity | reflexivity | reflexivity|].
    exfalso. vm_compute in Hj. lia.
  - split; [exact Hc|]. rewrite Hr, <- He. reflexivity.
Defined.

(** C5 as stated fails: a search on a network that times out at every
    attempt raises the timeout out of the wrapper, and returns nothing. *)
Lemma timeouts_raise_past_wrapper :
  let run := search_google five_keys timeout_net some_query
               (new_searcher five_keys, tt) in
  calls run = Z.to_nat (SCRAPER_MAX_RETRIES five_keys)
  /\ result run = Raise (RequestException Timeout)
  /\ ~ (exists urls, result run = Return urls).
Proof.
  vm_compute. repeat split. intros [urls E]. discriminate.
Qed.

(** A search provider whose first answer carries an error payload. *)
Definition quota_net : Params -> M unit ApiResponse :=
  fun _ w =>
    (Return {| api_status_code := 200;
               api_json :=
                 Return {| api_error := Some (Some "Quota exceeded"%string);
                           api_items := None |} |},
     w).

(** C6, as amended.  The wrapper goes on to another attempt after every
    [RequestException] and after nothing else.  An attempt that returns
    or raises another exception, as [search_google] does with a
    [ValueError] for an error payload, ends the call there, whichever
    attempt it is: after [k] attempts that raised a [RequestException]
    the call has made [k + 1] attempts and slept [k] delays, so none
    when it is the first.  An attempt that raises a [RequestException]
    and is not the last one configured is followed by another.  A [RequestException] of any kind, the
    [HTTPError] that [raise_for_status] raises for a 4xx or 5xx status
    included, is retried until the [SCRAPER_MAX_RETRIES] attempts are
    used up. *)
Theorem retries_on_request_exceptions (St A : Type) (cfg : Config.t)
  (func : M St A) (st : St) :
  (1 <= SCRAPER_MAX_RETRIES cfg)%Z ->
  let run := exponential_backoff cfg func st in
  Forall (fun e => is_request_exception e = true) (caught run)
  /\ (forall k,
        (S k < Z.to_nat (SCRAPER_MAX_RETRIES cfg))%nat ->
        (forall j, (j <= k)%nat -> fails_at St A func st j) ->
        (S k < calls run)%nat)
  /\ (forall k,
        (k < Z.to_nat (SCRAPER_MAX_RETRIES cfg))%nat ->
        (forall j, (j < k)%nat -> fails_at St A func st j) ->
        (forall e, fst (func (state_before St A func k st))
                   <> Raise (RequestException e)) ->
        result run = fst (func (state_before St A func k st))
        /\ final run = snd (func (state_before St A func k st))
        /\ calls run = S k /\ List.length (sleeps run) = k)
  /\ ((forall j, (j < Z.to_nat (SCRAPER_MAX_RETRIES cfg))%nat ->
                 fails_at St A func st j) ->
      calls run = Z.to_nat (SCRAPER_MAX_RETRIES cfg)
      /\ List.length (sleeps run)
         = (Z.to_nat (SCRAPER_MAX_RETRIES cfg) - 1)%nat
      /\ exists e, result run = Raise (RequestException e))
  /\ (forall code, (400 <= code < 600)%Z ->
      raise_for_status (St := St) code st
      = (Raise (RequestException (HTTPError code)), st)).
Proof.
  intros Hmax run.
  destruct (wrapper_loop_trace St A cfg func
              (Z.to_nat (SCRAPER_MAX_RETRIES cfg)) 1%Z None st)
    as (Hsleeps & _); [lia | lia|].
  fold (exponential_backoff cfg func st) in Hsleeps. fold run in Hsleeps.
  split; [|split; [|split; [|split]]].
  - apply caught_request_exceptions.
  - intros k Hk Hfail.
    destruct (wrapper_loop_outcome St A cfg func
                (Z.to_nat (SCRAPER_MAX_RETRIES cfg)) 1%Z None st)
      as (Hc & Hr & _ & _ & Hearly); [lia|].
    fold (exponential_backoff cfg func st) in Hc, Hr, Hearly.
    fold run in Hc, Hr, Hearly.
    destruct (Nat.lt_ge_cases (S k) (calls run)) as [Hlt|Hge];
      [exact Hlt|].
    exfalso. destruct (Hfail (calls run - 1)%nat) as [e He]; [lia|].
    apply (Hearly ltac:(lia) e). now rewrite Hr.
  - intros k Hk Hfail Hstop.
    destruct (wrapper_loop_stops St A cfg func
                (Z.to_nat (SCRAPER_MAX_RETRIES cfg)) k 1%Z None st Hk Hfail
                Hstop) as (Hc & Hr & Hf).
    fold (exponential_backoff cfg func st) in Hc, Hr, Hf.
    fold run in Hc, Hr, Hf.
    split; [exact Hr|]. split; [exact Hf|]. split; [exact Hc | lia].
  - intro Hfail.
    destruct (wrapper_loop_exhausted St A cfg func
                (Z.to_nat (SCRAPER_MAX_RETRIES cfg)) 1%Z None st)
      as (Hc & e & _ & Hr & _); [lia | exact Hfail|].
    fold (exponential_backoff cfg func st) in Hc, Hr. fold run in Hc, Hr.
    split; [exact Hc|]. split; [lia | now exists e].
  - intros code Hcode. unfold raise_for_status, raise.
    destruct (Z.leb_spec 400 code); [|lia].
    destruct (Z.ltb_spec code 600); [reflexivity|lia].
Qed.

Lemma retries_on_request_exceptions_quota :
  let run := search_google five_keys quota_net some_query
               (new_searcher five_keys, tt) in
  result run = Raise (ValueError "Google API error: Quota exceeded")
  /\ calls run = 1%nat /\ sleeps run = [].
Proof.
  intro run.
  destruct (retries_on_request_exceptions _ _ five_keys
              (search_google_once five_keys quota_net some_query)
              (new_searcher five_keys, tt)) as (_ & _ & Hstop & _).
  - vm_compute. discriminate.
  - destruct (Hstop 0%nat) as (Hr & _ & Hc & Hs).
    + vm_compute. lia.
    + intros j Hj. exfalso. lia.
    + intros e. vm_compute. discriminate.
    + subst run. unfold search_google.
      split; [rewrite Hr; reflexivity | split; [exact Hc|]].
      destruct (sleeps _); [reflexivity | discriminate].
Defined.

(** C6 as stated fails for a 4xx answer: a provider that answers 403 to
    every request is asked on all three attempts, with the two delays
    slept in between, before the [HTTPError] reaches the caller. *)
Lemma forbidden_is_retried :
  let run := search_google five_keys forbidden_net some_query
               (new_searcher five_keys, tt) in
  result run = Raise (RequestException (HTTPError 403))
  /\ calls run = 3%nat
  /\ sleeps run = [(1 # 2) * (1 # 2) ^ (1 - 1); (1 # 2) * (1 # 2) ^ (2 - 1)]%Q
  /\ calls run <> 1%nat.
Proof.
  vm_compute. repeat split. discriminate.
Qed.

End RetryFacts.

(** ** Fetching a list of URLs *)

Module FetchFacts.

Import Config TextProcessor GoogleScraper Crawl4AIScraper.

Definition pystr_dec : forall s t : pystr, {s = t} + {s <> t} :=
  list_eq_dec N.eq_dec.

Definition page_urls (pages : list ScrapedPage) : list pystr :=
  map original_url pages.

Definition failed_urls_of (failures : list FailedUrl) : list pystr :=
  map url failures.



(** What the two loops establish, with the lists they started from. *)
Definition accounted (urls : list pystr) (pages0 : list ScrapedPage)
  (failures0 : list FailedUrl) (pages : list ScrapedPage)
  (failures : list FailedUrl) : Prop :=
  (List.length pages + List.length failures
   = List.length pages0 + List.length failures0 + List.length urls)%nat
  /\ Permutation (page_urls pages ++ failed_urls_of failures)
       ((page_urls pages0 ++ failed_urls_of failures0) ++ urls).


Lemma accounted_page (cfg : Config.t) (u : pystr) (r : FetchResult)
  (rest : list pystr) (pages0 : list ScrapedPage) (failures0 : list FailedUrl)
  (pages : list ScrapedPage) (failures : list FailedUrl) :
  accounted rest (pages0 ++ [scraped_page cfg u r]) failures0 pages failures ->
  accounted (u :: rest) pages0 failures0 pages failures.
Proof.
  intros [Hlen Hperm]. split.
  - rewrite length_app in Hlen. simpl in *. lia.
  - rewrite Hperm. unfold page_urls. rewrite map_app. simpl.
    rewrite <- !app_assoc. apply Permutation_app_head. simpl.
    apply Permutation_middle.
Qed.

Lemma accounted_failure (u : pystr) (r : FetchResult)
  (rest : list pystr) (pages0 : list ScrapedPage) (failures0 : list FailedUrl)
  (pages : list ScrapedPage) (failures : list FailedUrl) :
  accounted rest pages0 (failures0 ++ [failed_url u r]) pages failures ->
  accounted (u :: rest) pages0 failures0 pages failures.
Proof.
  intros [Hlen Hperm]. split.
  - rewrite length_app in Hlen. simpl in *. lia.
  - rewrite Hperm. unfold failed_urls_of. rewrite map_app. simpl.
    rewrite <- !app_assoc. do 2 apply Permutation_app_head. reflexivity.
Qed.

(** The loop over [zip(urls, results)] accounts for the URLs, whatever
    the results and whatever the order in which they were obtained. *)
Lemma separate_accounted (cfg : Config.t) (urls : list pystr) :
  forall (results : list FetchResult) pages0 failures0,
  List.length results = List.length urls ->
  accounted urls pages0 failures0
    (fst (separate cfg (combine urls results) pages0 failures0))
    (snd (separate cfg (combine urls results) pages0 failures0)).
Proof.
  induction urls as [|u rest IH]; intros results pages0 failures0 Hlen.
  - simpl. split; [simpl; lia | now rewrite app_nil_r].
  - destruct results as [|r results]; [discriminate|].
    injection Hlen as Hlen. simpl.
    destruct (succeeded r).
    + apply (accounted_page cfg u r). now apply IH.
    + apply (accounted_failure u r). now apply IH.
Qed.

Section Scrapers.

Variable World : Type.
Variable cfg : Config.t.
Variable platform : Platform World.



(** [time.sleep] returns for the length [seconds], in every world. *)
Definition sleep_returns (sleep : Q -> M World unit) (seconds : Q) : Prop :=
  forall w, exists w', sleep seconds w = (Return tt, w').

Lemma delay_not_negative :
  (0 <= SCRAPER_DELAY_BETWEEN_REQUESTS cfg)%Z ->
  Qle_bool 0 (delay_between_requests cfg) = true.
Proof.
  intro H. apply Qle_bool_iff. unfold delay_between_requests.
  apply Qle_shift_div_l; [reflexivity|].
  rewrite Qmult_0_l. change 0%Q with (inject_Z 0). now rewrite <- Zle_Qle.
Qed.


(** The pause before a fetch is over without an exception when the
    delay is not negative and [time.sleep] takes it. *)
Lemma time_sleep_returns (sleep : Q -> M World unit) (w : World) :
  (0 <= SCRAPER_DELAY_BETWEEN_REQUESTS cfg)%Z ->
  sleep_returns sleep (delay_between_requests cfg) ->
  exists w', time_sleep sleep (delay_between_requests cfg) w = (Return tt, w').
Proof.
  intros Hdelay Hsleep. unfold time_sleep.
  rewrite delay_not_negative by exact Hdelay. apply Hsleep.
Qed.



Lemma gather_length (arun : pystr -> M World (option CrawlResult))
  (urls : list pystr) :
  forall w, List.length (fst (gather cfg platform arun urls w))
            = List.length urls.
Proof.
  induction urls as [|u rest IH]; intro w; [reflexivity|]. simpl.
  destruct (_fetch_single_url cfg platform arun u 1 w) as [r w'].
  specialize (IH w'). destruct (gather cfg platform arun rest w') as [rs w''].
  simpl in *. now rewrite IH.
Qed.

End Scrapers.

(** *** A small world to run the scrapers in *)

Definition example_platform : Platform unit :=
  {| library :=
       ConfidenceFacts.constant_library
         [Tag "p" None [] [NavigableString TextFacts.headline]];
     now_ms := fun _ => 0%Z;
     urlparse := fun u => Return (u, []);
     str := fun _ => "request failed"%string |}.

Definition first_url : pystr := [97; 46; 116; 119]%N.
Definition second_url : pystr := [98; 46; 116; 119]%N.

(** The first URL answers with a page, every other one times out. *)
Definition example_session : pystr -> M unit HttpResponse :=
  fun u w =>
    if pystr_dec u first_url then
      (Return {| resp_status_code := 200;
                 resp_content_type := Some "text/html; charset=utf-8"%string;
                 resp_text := TextFacts.scenario_html |}, w)
    else (Raise (RequestException Timeout), w).


(** A [time.sleep] that takes every length. *)
Definition plain_sleep : Q -> M unit unit := fun _ w => (Return tt, w).





End FetchFacts.

(** ** Storing mentions *)

Module StoreFacts.

Import GoogleScraper DatabaseHandler.

Definition key_of (r : Row) : Z * pystr := unique_key (row_mention r).

(** No two rows have the same key. *)
Definition unique_rows (rows : list Row) : Prop := NoDup (map key_of rows).


(** How many of the mentions have a key that a row already has. *)
Definition already_stored (rows : list Row) (mentions : list Mention) : Z :=
  len (filter (fun m => has_key rows (unique_key m)) mentions).

Lemma pystr_eqb_eq (s t : pystr) : pystr_eqb s t = true <-> s = t.
Proof.
  revert t. induction s as [|c s IH]; intros [|d t]; simpl;
    try (split; [discriminate | congruence]); [tauto|].
  rewrite andb_true_iff, N.eqb_eq, IH. split.
  - intros [-> ->]. reflexivity.
  - intro E. injection E as -> ->. now split.
Qed.

Lemma key_eqb_eq (k1 k2 : Z * pystr) : key_eqb k1 k2 = true <-> k1 = k2.
Proof.
  destruct k1 as [i1 u1], k2 as [i2 u2]. unfold key_eqb. simpl.
  rewrite andb_true_iff, Z.eqb_eq, pystr_eqb_eq. split.
  - intros [-> ->]. reflexivity.
  - intro E. injection E as -> ->. now split.
Qed.

Lemma has_key_In (rows : list Row) (k : Z * pystr) :
  has_key rows k = true <-> In k (map key_of rows).
Proof.
  unfold has_key. rewrite existsb_exists, in_map_iff. split.
  - intros (r & Hin & E). exists r. apply key_eqb_eq in E. now split.
  - intros (r & E & Hin). exists r. split; [exact Hin|]. now apply key_eqb_eq.
Qed.

Lemma has_key_app (rows rows' : list Row) (k : Z * pystr) :
  has_key (rows ++ rows') k = (has_key rows k || has_key rows' k)%bool.
Proof. apply existsb_app. Qed.



Section Store.

Variable server : Server.
Variable now_isoformat : string.

(** An [INSERT] leaves the committed rows alone and only ever adds to
    the transaction. *)
Lemma execute_insert_grows (conn : Connection) (row : Row) :
  table (snd (execute_insert server conn row)) = table conn
  /\ exists added,
       pending (snd (execute_insert server conn row))
       = (pending conn ++ added)%list.
Proof.
  unfold execute_insert.
  destruct (has_key _ _); [|destruct (insert_error _ _ _)]; simpl;
    (split; [reflexivity|]).
  - exists []. now rewrite app_nil_r.
  - exists []. now rewrite app_nil_r.
  - now exists [row].
Qed.

Lemma execute_insert_unique (conn : Connection) (row : Row) :
  unique_rows (visible conn) ->
  unique_rows (visible (snd (execute_insert server conn row))).
Proof.
  intro Hu. unfold execute_insert.
  destruct (has_key _ _) eqn:Ek; [exact Hu|].
  destruct (insert_error _ _ _); [exact Hu|]. simpl.
  unfold unique_rows, visible in *. simpl.
  rewrite app_assoc, map_app. simpl.
  apply (Permutation_NoDup (Permutation_cons_append _ _)).
  constructor; [|exact Hu].
  intro Hin. apply has_key_In in Hin. unfold key_of in *. congruence.
Qed.

(** A mention whose key is stored is answered with the duplicate error. *)
Lemma execute_insert_duplicate (conn : Connection) (row : Row) :
  has_key (visible conn) (key_of row) = true ->
  execute_insert server conn row = (inl DUPLICATE_ENTRY, conn).
Proof.
  intro H. unfold execute_insert. unfold key_of in H. now rewrite H.
Qed.

Lemma execute_insert_keeps_keys (conn : Connection) (row : Row)
  (k : Z * pystr) :
  has_key (visible conn) k = true ->
  has_key (visible (snd (execute_insert server conn row))) k = true.
Proof.
  intro H. destruct (execute_insert_grows conn row) as [Ht [added Hp]].
  unfold visible in *. rewrite Ht, Hp, app_assoc, has_key_app, H.
  reflexivity.
Qed.

Lemma already_stored_mono (conn conn' : Connection)
  (mentions : list Mention) :
  (forall k, has_key (visible conn) k = true ->
             has_key (visible conn') k = true) ->
  (already_stored (visible conn) mentions
   <= already_stored (visible conn') mentions)%Z.
Proof.
  intro H. unfold already_stored, len.
  induction mentions as [|m rest IH]; simpl; [lia|].
  destruct (has_key (visible conn) (unique_key m)) eqn:E.
  - rewrite (H _ E). simpl. lia.
  - destruct (has_key (visible conn') (unique_key m)); simpl; lia.
Qed.

(** The loop counts every mention once, counts every mention whose key
    was stored as skipped, and keeps the keys of the rows distinct. *)
Lemma insert_loop_spec (mentions : list Mention) :
  forall inserted skipped conn,
  let r := insert_loop server now_isoformat mentions inserted skipped conn in
  (fst (fst r) + snd (fst r) = inserted + skipped + len mentions)%Z
  /\ (skipped + already_stored (visible conn) mentions <= snd (fst r))%Z
  /\ (inserted <= fst (fst r))%Z
  /\ table (snd r) = table conn
  /\ (unique_rows (visible conn) -> unique_rows (visible (snd r))).
Proof.
  induction mentions as [|m rest IH]; intros inserted skipped conn.
  - simpl. unfold already_stored, len. simpl. repeat split; try lia. tauto.
  - cbn [insert_loop]. cbv zeta.
    set (row := {| row_mention := m;
                   row_time_stamp := get (time_stamp m) now_isoformat |}).
    pose proof (execute_insert_grows conn row) as [Ht _].
    pose proof (execute_insert_unique conn row) as Hu.
    pose proof (execute_insert_keeps_keys conn row) as Hk.
    assert (Hlen : len (m :: rest) = (len rest + 1)%Z)
      by (unfold len; simpl List.length; lia).
    assert (Hdup : has_key (visible conn) (unique_key m) = true ->
                   exists e, execute_insert server conn row = (inl e, conn)).
    { intro H. exists DUPLICATE_ENTRY. now apply execute_insert_duplicate. }
    assert (Hstored :
      (already_stored (visible conn) (m :: rest)
       = (if has_key (visible conn) (unique_key m) then 1 else 0)
         + already_stored (visible conn) rest)%Z).
    { unfold already_stored, len. simpl filter.
      destruct (has_key (visible conn) (unique_key m)); simpl List.length;
        lia. }
    pose proof (already_stored_mono conn
                  (snd (execute_insert server conn row)) rest Hk) as Hmono.
    destruct (execute_insert server conn row) as [[e|[]] conn'] eqn:E;
      simpl in Ht, Hu, Hk, Hmono.
    + assert (Hsame :
        insert_loop server now_isoformat rest inserted (skipped + 1) conn'
        = (if contains "Duplicate entry" e
           then insert_loop server now_isoformat rest inserted (skipped + 1)
                  conn'
           else insert_loop server now_isoformat rest inserted (skipped + 1)
                  conn')) by now destruct (contains _ _).
      rewrite <- Hsame.
      destruct (IH inserted (skipped + 1)%Z conn') as (H1 & H2 & H3 & H4 & H5).
      rewrite Hlen, Hstored.
      destruct (has_key (visible conn) (unique_key m));
        repeat split; try lia; try congruence; auto.
    + destruct (IH (inserted + 1)%Z skipped conn') as (H1 & H2 & H3 & H4 & H5).
      rewrite Hlen, Hstored.
      destruct (has_key (visible conn) (unique_key m)) eqn:Ekey.
      * destruct (Hdup eq_refl) as [e' He']. discriminate.
      * repeat split; try lia; try congruence; auto.
Qed.

(** The connection after a row has joined the transaction. *)
Definition with_row (conn : Connection) (row : Row) : Connection :=
  {| table := table conn; pending := (pending conn ++ [row])%list |}.

Definition row_of (m : Mention) : Row :=
  {| row_mention := m;
     row_time_stamp := get (time_stamp m) now_isoformat |}.

Lemma insert_loop_fresh (m : Mention) (rest : list Mention)
  (inserted skipped : Z) (conn : Connection) :
  has_key (visible conn) (unique_key m) = false ->
  insert_error server (table conn) (row_of m) = None ->
  insert_loop server now_isoformat (m :: rest) inserted skipped conn
  = insert_loop server now_isoformat rest (inserted + 1) skipped
      (with_row conn (row_of m)).
Proof.
  intros Hkey Hok. cbn [insert_loop]. cbv zeta. fold (row_of m).
  unfold execute_insert. cbn [row_mention row_of]. now rewrite Hkey, Hok.
Qed.

Lemma insert_loop_duplicate (m : Mention) (rest : list Mention)
  (inserted skipped : Z) (conn : Connection) :
  has_key (visible conn) (unique_key m) = true ->
  insert_loop server now_isoformat (m :: rest) inserted skipped conn
  = insert_loop server now_isoformat rest inserted (skipped + 1) conn.
Proof.
  intro Hkey. cbn [insert_loop]. cbv zeta. fold (row_of m).
  rewrite execute_insert_duplicate by exact Hkey.
  now destruct (contains _ _).
Qed.

Lemma has_key_with_row (conn : Connection) (m : Mention) :
  has_key (visible (with_row conn (row_of m))) (unique_key m) = true.
Proof.
  unfold visible, with_row. simpl. rewrite !has_key_app. simpl.
  replace (key_eqb _ _) with true; [now rewrite !orb_true_r|].
  symmetry. now apply key_eqb_eq.
Qed.




Lemma visible_commit (conn : Connection) :
  visible (commit conn) = visible conn
  /\ table (commit conn) = visible conn.
Proof.
  unfold commit, visible. simpl. now rewrite app_nil_r.
Qed.

End Store.

(** A server that refuses nothing but duplicates, an empty table and a
    mention to store. *)
Definition plain_server : Server :=
  {| insert_error := fun _ _ => None; commit_error := fun _ _ => None |}.

Definition empty_connection : Connection := {| table := []; pending := [] |}.

Definition a_mention : Mention :=
  {| celebrity_id := 1;
     mention_url := FetchFacts.first_url;
     mention_text := TextFacts.headline;
     mention_domain := FetchFacts.first_url;
     mention_length := 5;
     mention_confidence := (95 # 100)%Q;
     mention_time_ms := 120;
     time_stamp := None |}.



End StoreFacts.

(** ** Splitting the roster *)

Module BatchFacts.

Import ScrapingPipeline.

Section Batches.

Variable T : Type.

(** The loop, one iteration unfolded. *)
Lemma batches_from_unfold (celebrities : list T) (batch_size : positive)
  (i : Z) :
  batches_from celebrities batch_size i
  = if Z.ltb i (len celebrities)
    then slice celebrities i (i + Z.pos batch_size)
           :: batches_from celebrities batch_size (i + Z.pos batch_size)
    else [].
Proof.
  funelim (batches_from celebrities batch_size i).
  - now rewrite e.
  - now rewrite e.
Qed.

(** From index [i] on, the loop cuts the rest of the roster into
    batches of at most [batch_size] entities, none of them empty. *)
Lemma batches_from_spec (celebrities : list T) (batch_size : positive)
  (n : nat) :
  forall i, (0 <= i)%Z -> (Z.to_nat (len celebrities - i) <= n)%nat ->
  List.concat (batches_from celebrities batch_size i)
  = skipn (Z.to_nat i) celebrities
  /\ len (batches_from celebrities batch_size i)
     = Z.max 0 ((len celebrities - i + Z.pos batch_size - 1)
                / Z.pos batch_size)
  /\ Forall (fun batch => (0 < len batch <= Z.pos batch_size)%Z)
       (batches_from celebrities batch_size i).
Proof.
  induction n as [|n IH]; intros i Hi Hn;
    rewrite batches_from_unfold;
    destruct (Z.ltb_spec i (len celebrities)) as [Hlt|Hge]; try lia.
  - split; [|split; [|constructor]].
    + simpl. symmetry. apply skipn_all2. unfold len in Hge. lia.
    + unfold len at 1. simpl.
      assert ((len celebrities - i + Z.pos batch_size - 1)
              / Z.pos batch_size < 1)%Z; [|lia].
      apply Z.div_lt_upper_bound; lia.
  - destruct (IH (i + Z.pos batch_size)%Z) as (Hcat & Hlen & Hall); try lia.
    split; [|split].
    + simpl. rewrite Hcat. unfold slice.
      replace (Z.to_nat (i + Z.pos batch_size))
        with (Z.to_nat (i + Z.pos batch_size - i) + Z.to_nat i)%nat by lia.
      rewrite <- skipn_skipn. apply firstn_skipn.
    + unfold len at 1. simpl List.length.
      fold (len (batches_from celebrities batch_size (i + Z.pos batch_size))).
      rewrite Nat2Z.inj_succ. unfold len at 1 in Hlen. rewrite Hlen.
      replace (len celebrities - i + Z.pos batch_size - 1)%Z
        with ((len celebrities - (i + Z.pos batch_size) + Z.pos batch_size - 1)
              + 1 * Z.pos batch_size)%Z by lia.
      rewrite Z.div_add by lia.
      assert (0 <= (len celebrities - (i + Z.pos batch_size)
                    + Z.pos batch_size - 1) / Z.pos batch_size)%Z
        by (apply Z.div_pos; lia).
      lia.
    + constructor; [|exact Hall].
      unfold slice, len. rewrite length_firstn, length_skipn.
      unfold len in Hlt. lia.
  - split; [|split; [|constructor]].
    + simpl. symmetry. apply skipn_all2. unfold len in Hge. lia.
    + unfold len at 1. simpl.
      assert ((len celebrities - i + Z.pos batch_size - 1)
              / Z.pos batch_size < 1)%Z; [|lia].
      apply Z.div_lt_upper_bound; lia.
Qed.

End Batches.

(** C8.  For a roster of [M] entities and a positive batch size [B],
    [split_into_batches] returns the batches, there are [ceil(M / B)] of
    them (the quotient of [M + B - 1] by [B], the least [n] with
    [M <= n * B]), their concatenation is the roster in order, so that
    no entity is left out or repeated, and each holds between one and
    [B] entities. *)
Theorem partition_completeness (T : Type) (celebrities : list T)
  (batch_size : Z) :
  (0 < batch_size)%Z ->
  exists batches,
    split_into_batches celebrities batch_size = Return batches
    /\ len batches = ((len celebrities + batch_size - 1) / batch_size)%Z
    /\ (batch_size * (len batches - 1) < len celebrities
        <= batch_size * len batches)%Z
    /\ List.concat batches = celebrities
    /\ Forall (fun batch => (0 < len batch <= batch_size)%Z) batches.
Proof.
  intro Hpos. destruct batch_size as [|step|step]; try lia.
  exists (batches_from celebrities step 0). split; [reflexivity|].
  destruct (batches_from_spec T celebrities step
              (Z.to_nat (len celebrities - 0)) 0%Z) as (Hcat & Hlen & Hall);
    try lia.
  assert (Hq : (0 <= (len celebrities + Z.pos step - 1) / Z.pos step)%Z)
    by (apply Z.div_pos; unfold len; lia).
  assert (Hcount : len (batches_from celebrities step 0)
                   = ((len celebrities + Z.pos step - 1) / Z.pos step)%Z).
  { rewrite Hlen. replace (len celebrities - 0)%Z with (len celebrities) by lia.
    lia. }
  split; [exact Hcount|]. split; [|split; [exact Hcat | exact Hall]].
  rewrite Hcount.
  pose proof (Z.div_mod (len celebrities + Z.pos step - 1) (Z.pos step)) as Hd.
  pose proof (Z.mod_pos_bound (len celebrities + Z.pos step - 1) (Z.pos step)).
  lia.
Qed.

Lemma partition_completeness_five_by_two :
  exists batches,
    split_into_batches [1; 2; 3; 4; 5]%nat 2 = Return batches
    /\ len batches = 3%Z.
Proof.
  destruct (partition_completeness nat [1; 2; 3; 4; 5]%nat 2)
    as (batches & E & Hlen & _); [reflexivity|].
  exists batches. split; [exact E | exact Hlen].
Defined.

End BatchFacts.

(** * Further properties of the code *)

(** ** text_processor.py: the cleaning steps *)

Module TextExtras.

Import Config TextProcessor.

(** Whether the text has the character [c] twice in a row. *)
Fixpoint doubled (c : codepoint) (text : pystr) : bool :=
  match text with
  | [] => false
  | x :: rest =>
      (N.eqb x c
       && match rest with
          | y :: _ => N.eqb y c
          | [] => false
          end
       || doubled c rest)%bool
  end.

Lemma length_squeeze (c : codepoint) (text : pystr) :
  (List.length (squeeze c text) <= List.length text)%nat.
Proof.
  induction text as [|x rest IH]; [simpl; lia|].
  rewrite TextFacts.squeeze_cons.
  destruct (N.eqb x c); [destruct rest as [|y rest']|]; simpl in *;
    try lia.
  destruct (N.eqb y c); simpl in *; lia.
Qed.

(** [squeeze] leaves no character [c] next to another. *)
Lemma doubled_squeeze (c : codepoint) (text : pystr) :
  doubled c (squeeze c text) = false.
Proof.
  induction text as [|x rest IH]; [reflexivity|].
  rewrite TextFacts.squeeze_cons.
  destruct (N.eqb x c) eqn:Ex.
  - destruct rest as [|y rest']; [simpl; now rewrite Ex|].
    destruct (N.eqb y c) eqn:Ey; [exact IH|].
    rewrite TextFacts.squeeze_cons, Ey in IH |- *.
    simpl. simpl in IH. rewrite Ey in *. now rewrite andb_false_r.
  - simpl. now rewrite Ex, IH.
Qed.

Lemma doubled_app (c : codepoint) (s t : pystr) :
  doubled c (s ++ t) = false -> doubled c s = false /\ doubled c t = false.
Proof.
  induction s as [|x s IH]; [now split|]. simpl.
  intro H. apply orb_false_iff in H as [Hx Hrest].
  destruct (IH Hrest) as [Hs Ht]. split; [|exact Ht].
  rewrite Hs, orb_false_r.
  destruct (N.eqb x c); [|reflexivity]. simpl in *.
  destruct s as [|y s']; [reflexivity|exact Hx].
Qed.

Lemma doubled_replace_char (a b c : codepoint) (text : pystr) :
  a <> c -> b <> c ->
  doubled c (replace_char a b text) = doubled c text.
Proof.
  intros Ha Hb.
  assert (Hsame : forall x, N.eqb (if N.eqb x a then b else x) c = N.eqb x c).
  { intro x. destruct (N.eqb_spec x a) as [->|_]; [|reflexivity].
    destruct (N.eqb_spec b c), (N.eqb_spec a c); congruence. }
  unfold replace_char. induction text as [|x rest IH]; [reflexivity|].
  simpl. rewrite Hsame, IH. destruct rest as [|y rest']; [reflexivity|].
  simpl. now rewrite Hsame.
Qed.

(** [lstrip] takes whitespace off the front and stops at the first
    character that is none. *)
Lemma lstrip_split (text : pystr) :
  exists front,
    text = (front ++ lstrip text)%list /\ forallb py_isspace front = true.
Proof.
  induction text as [|x rest (front & E & Hfront)].
  - now exists [].
  - simpl. destruct (py_isspace x) eqn:Ex.
    + exists (x :: front). simpl. rewrite Ex, Hfront. split; [|reflexivity].
      now rewrite <- E.
    + now exists [].
Qed.

Lemma lstrip_head (text : pystr) :
  match lstrip text with
  | c :: _ => py_isspace c = false
  | [] => True
  end.
Proof.
  induction text as [|x rest IH]; [exact I|]. simpl.
  destruct (py_isspace x) eqn:Ex; [exact IH | exact Ex].
Qed.

Lemma rstrip_split (text : pystr) :
  exists back, text = (rstrip text ++ back)%list.
Proof.
  unfold rstrip. destruct (lstrip_split (rev text)) as (front & E & _).
  exists (rev front). rewrite <- rev_app_distr, <- E. now rewrite rev_involutive.
Qed.

Lemma strip_split (text : pystr) :
  exists front back, text = (front ++ strip text ++ back)%list.
Proof.
  unfold strip. destruct (lstrip_split text) as (front & E & _).
  destruct (rstrip_split (lstrip text)) as (back & E').
  exists front, back. now rewrite <- E', <- E.
Qed.

Lemma strip_ends (text : pystr) :
  match strip text with
  | c :: _ => py_isspace c = false
  | [] => True
  end
  /\ match rev (strip text) with
     | c :: _ => py_isspace c = false
     | [] => True
     end.
Proof.
  split.
  - unfold strip. destruct (rstrip_split (lstrip text)) as (back & E).
    pose proof (lstrip_head text) as H. rewrite E in H.
    destruct (rstrip (lstrip text)); [exact I | exact H].
  - unfold strip, rstrip. rewrite rev_involutive. apply lstrip_head.
Qed.

Lemma length_strip (text : pystr) :
  (List.length (strip text) <= List.length text)%nat.
Proof.
  destruct (strip_split text) as (front & back & E).
  rewrite E at 2. rewrite !length_app. lia.
Qed.

Lemma length_normalize_whitespace (text : pystr) :
  (List.length (normalize_whitespace text) <= List.length text)%nat.
Proof.
  unfold normalize_whitespace.
  etransitivity; [apply length_strip|].
  unfold replace_char. rewrite length_map.
  etransitivity; apply length_squeeze.
Qed.

(** X1.  The text [normalize_whitespace] returns has no tab and no two
    newlines in a row, neither begins nor ends with a whitespace
    character, and is not longer than the text it was given. *)
Theorem normalize_whitespace_shape (text : pystr) :
  ~ In 9%N (normalize_whitespace text)
  /\ doubled 10%N (normalize_whitespace text) = false
  /\ match normalize_whitespace text with
     | c :: _ => py_isspace c = false
     | [] => True
     end
  /\ match rev (normalize_whitespace text) with
     | c :: _ => py_isspace c = false
     | [] => True
     end
  /\ (List.length (normalize_whitespace text) <= List.length text)%nat.
Proof.
  unfold normalize_whitespace.
  set (squeezed := squeeze 10%N (squeeze 32%N text)).
  destruct (strip_split (replace_char 9%N 32%N squeezed)) as (front & back & E).
  split; [|split; [|split; [|split]]].
  - intro Hin.
    assert (Hin' : In 9%N (replace_char 9%N 32%N squeezed)).
    { rewrite E. apply in_or_app. right. apply in_or_app. now left. }
    unfold replace_char in Hin'. apply in_map_iff in Hin' as (x & Hx & _).
    destruct (N.eqb_spec x 9); [discriminate | congruence].
  - assert (H : doubled 10%N (replace_char 9%N 32%N squeezed) = false).
    { rewrite doubled_replace_char by discriminate. apply doubled_squeeze. }
    rewrite E in H. apply doubled_app in H as [_ H].
    now apply doubled_app in H as [H _].
  - apply strip_ends.
  - apply strip_ends.
  - apply length_normalize_whitespace.
Qed.

Lemma filter_weaker {T : Type} (f g : T -> bool) (l : list T) :
  (forall x, g x = true -> f x = true) ->
  filter g (filter f l) = filter g l.
Proof.
  intro H. induction l as [|x l IH]; [reflexivity|]. simpl.
  destruct (f x) eqn:Ef; simpl; [now rewrite IH|].
  destruct (g x) eqn:Eg; [|exact IH].
  rewrite (H x Eg) in Ef. discriminate.
Qed.

Lemma length_filter_le {T : Type} (f : T -> bool) (l : list T) :
  (List.length (filter f l) <= List.length l)%nat.
Proof.
  induction l as [|x l IH]; [simpl; lia|]. simpl.
  destruct (f x); simpl; lia.
Qed.

(** X2.  Removing special characters a second time changes nothing, in
    either mode; what the plain mode keeps the Unicode mode keeps too,
    so the plain mode after the Unicode mode is the plain mode; and the
    result has only characters of the text, with none added. *)
Theorem remove_special_characters_idempotent (is_word : codepoint -> bool)
  (text : pystr) (preserve_unicode : bool) :
  remove_special_characters is_word
    (remove_special_characters is_word text preserve_unicode)
    preserve_unicode
  = remove_special_characters is_word text preserve_unicode
  /\ remove_special_characters is_word
       (remove_special_characters is_word text true) false
     = remove_special_characters is_word text false
  /\ incl (remove_special_characters is_word text preserve_unicode) text
  /\ (List.length (remove_special_characters is_word text preserve_unicode)
      <= List.length text)%nat.
Proof.
  unfold remove_special_characters.
  split; [|split; [|split]].
  - destruct preserve_unicode; now apply filter_weaker.
  - apply filter_weaker. intros x H. unfold kept_plain in H.
    unfold kept_unicode. apply orb_true_iff in H as [H|H]; rewrite H;
      now rewrite ?orb_true_r.
  - destruct preserve_unicode; intros x H; now apply filter_In in H.
  - destruct preserve_unicode; apply length_filter_le.
Qed.

(** The five values the step function takes. *)
Lemma step_confidence_range (floor r : Q) :
  (0 <= floor <= 1)%Q ->
  (0 <= ConfidenceFacts.step_confidence floor r <= 1)%Q.
Proof.
  intro Hf. unfold ConfidenceFacts.step_confidence.
  repeat match goal with
  | |- context [Qle_bool ?a ?b] => destruct (Qle_bool a b)
  end; try exact Hf; split; discriminate.
Qed.

Lemma score_range (cfg : Config.t) (o c : Z) (rate : option Q) :
  (0 <= MIN_CONFIDENCE_SCORE cfg <= 1)%Q ->
  (0 <= calculate_confidence_score cfg o c rate <= 1)%Q.
Proof.
  intro Hf. destruct (Z.eq_dec o 0) as [->|Ho].
  - exact Hf.
  - assert (E : exists r, calculate_confidence_score cfg o c rate
                          = calculate_confidence_score cfg o c (Some r)).
    { destruct rate as [r|]; [now exists r|].
      unfold calculate_confidence_score.
      destruct (Z.eqb_spec o 0); [contradiction|]. eexists. reflexivity. }
    destruct E as [r ->]. rewrite ConfidenceFacts.score_of_rate by exact Ho.
    rewrite ConfidenceFacts.py_min_le by apply Hf.
    now apply step_confidence_range.
Qed.

(** X3.  With a floor value between 0 and 1, the confidence score is
    between 0 and 1 for all lengths, a ratio handed in by the caller
    included, and so is the confidence [clean_text] reports for any
    page. *)
Theorem confidence_between_zero_and_one (cfg : Config.t) (lib : Library)
  (o c : Z) (rate : option Q) (html : pystr) :
  (0 <= MIN_CONFIDENCE_SCORE cfg <= 1)%Q ->
  (0 <= calculate_confidence_score cfg o c rate <= 1)%Q
  /\ (0 <= extraction_confidence (clean_text cfg lib html) <= 1)%Q.
Proof.
  intro Hf. split; [now apply score_range|].
  unfold clean_text, clean_text_try.
  destruct (clean_html lib html) as [raw|e]; [|exact Hf].
  destruct (Z.eqb (len raw) 0); [exact Hf|].
  cbn [extraction_confidence]. now apply score_range.
Qed.

Lemma confidence_between_zero_and_one_default :
  (0 <= calculate_confidence_score (ConfidenceFacts.with_floor (1 # 2))
          100 42 None <= 1)%Q.
Proof.
  refine (proj1 (confidence_between_zero_and_one
                   (ConfidenceFacts.with_floor (1 # 2))
                   (ConfidenceFacts.constant_library []) 100 42 None [] _)).
  split; discriminate.
Defined.

(** X4.  What the result of [clean_text] tells: the cleaned text is never
    longer than the text extracted from the page; "success" means the
    cleaned text reaches the minimum content length and "partial" that
    it does not; "failed" and "error" come with an empty text, lengths
    of zero and the floor value as confidence; and the result carries an
    error exactly when its status is "error". *)
Theorem clean_text_report (cfg : Config.t) (lib : Library) (html : pystr) :
  (0 <= content_length (clean_text cfg lib html)
   <= raw_text_length (clean_text cfg lib html))%Z
  /\ (status (clean_text cfg lib html) = "success"%string ->
      (MIN_CONTENT_LENGTH cfg <= content_length (clean_text cfg lib html))%Z)
  /\ (status (clean_text cfg lib html) = "partial"%string ->
      (content_length (clean_text cfg lib html) < MIN_CONTENT_LENGTH cfg)%Z)
  /\ (status (clean_text cfg lib html) = "failed"%string
      \/ status (clean_text cfg lib html) = "error"%string ->
      cleaned_text (clean_text cfg lib html) = []
      /\ raw_text_length (clean_text cfg lib html) = 0%Z
      /\ extraction_confidence (clean_text cfg lib html)
         = MIN_CONFIDENCE_SCORE cfg)
  /\ (status (clean_text cfg lib html) = "error"%string
      <-> error (clean_text cfg lib html) <> None).
Proof.
  unfold clean_text, clean_text_try.
  destruct (clean_html lib html) as [raw|e].
  - destruct (Z.eqb_spec (len raw) 0) as [E|E].
    + cbn. repeat split; try discriminate; try lia; try congruence.
    + cbn [content_length raw_text_length status cleaned_text
           extraction_confidence error].
      assert (Hlen : (0 <= len (remove_special_characters (is_word lib)
                                  (normalize_whitespace raw) true)
                      <= len raw)%Z).
      { unfold len. split; [lia|]. apply Nat2Z.inj_le.
        etransitivity; [apply length_filter_le|].
        apply length_normalize_whitespace. }
      destruct (Z.ltb_spec
                  (len (remove_special_characters (is_word lib)
                          (normalize_whitespace raw) true))
                  (MIN_CONTENT_LENGTH cfg));
        repeat split; try discriminate; try lia; try congruence;
        try (intros [H|H]; discriminate);
        match goal with
        | H : _ \/ _ |- _ => destruct H; discriminate
        end.
  - cbn. repeat split; try discriminate; try lia; try congruence.
Qed.

Lemma clean_text_report_scenario :
  (content_length
     (clean_text (ConfidenceFacts.with_floor (1 # 2))
        (ConfidenceFacts.constant_library TextFacts.scenario_soup)
        TextFacts.scenario_html) < 50)%Z.
Proof.
  refine (proj1 (proj2 (proj2 (clean_text_report
            (ConfidenceFacts.with_floor (1 # 2))
            (ConfidenceFacts.constant_library TextFacts.scenario_soup)
            TextFacts.scenario_html))) _).
  reflexivity.
Defined.

End TextExtras.

(** ** text_processor.py: extract_metadata_from_text *)

Module Keywords.

Import TextProcessor GoogleScraper DatabaseHandler.

(** The set literal of the function, as written (two of its words are
    there twice). *)
Definition chinese_stopwords : list pystr :=
  [[30340]; [20102]; [26159]; [22312]; [19981]; [20102]; [25105]; [20182];
   [22905]; [23427]; [20204]; [20013]; [19978]; [19979]; [21644]; [25110];
   [21450]; [19982]; [20294]; [31561]; [20010]; [39318]; [20010]; [19968];
   [19968; 20010]]%N.

(** [text.split()], with the word read so far: the words between runs
    of whitespace, none of them empty. *)
Fixpoint split_from (word text : pystr) : list pystr :=
  match text with
  | [] => if nonempty word then [word] else []
  | c :: rest =>
      if py_isspace c then
        if nonempty word then word :: split_from [] rest
        else split_from [] rest
      else split_from (word ++ [c]) rest
  end.

Definition split (text : pystr) : list pystr := split_from [] text.

(** [w in words] *)
Definition member (w : pystr) (words : list pystr) : bool :=
  existsb (pystr_eqb w) words.

(** [len(w) > 1 and w not in chinese_stopwords] *)
Definition is_keyword (w : pystr) : bool :=
  (Z.ltb 1 (len w) && negb (member w chinese_stopwords))%bool.

(** [word_freq[word] = word_freq.get(word, 0) + 1] on a dictionary kept
    in insertion order. *)
Fixpoint bump (word : pystr) (word_freq : list (pystr * Z))
  : list (pystr * Z) :=
  match word_freq with
  | [] => [(word, 1%Z)]
  | (w, n) :: rest =>
      if pystr_eqb w word then (w, (n + 1)%Z) :: rest
      else (w, n) :: bump word rest
  end.

Definition count_words (words : list pystr) : list (pystr * Z) :=
  fold_left (fun word_freq word => bump word word_freq) words [].

(** [sorted(items, key=lambda x: x[1], reverse=True)]: by frequency,
    largest first, items of equal frequency in the order they had. *)
Fixpoint insert_by_frequency (item : pystr * Z) (sorted : list (pystr * Z))
  : list (pystr * Z) :=
  match sorted with
  | [] => [item]
  | other :: rest =>
      if Z.ltb (snd item) (snd other)
      then other :: insert_by_frequency item rest
      else item :: other :: rest
  end.

Definition sorted_by_frequency (items : list (pystr * Z))
  : list (pystr * Z) :=
  fold_right insert_by_frequency [] items.

Record Metadata := {
  top_keywords : list (pystr * Z);
  unique_words : Z;
  total_words : Z
}.

(** [extract_metadata_from_text(text, top_n)].  Nothing in its body
    raises on a [str], so its [except] arm is not reached. *)
Definition extract_metadata_from_text (text : pystr) (top_n : Z)
  : Metadata :=
  let words := split text in
  let filtered_words := filter is_keyword words in
  let word_freq := count_words filtered_words in
  {| top_keywords := slice_to (sorted_by_frequency word_freq) top_n;
     unique_words := len word_freq;
     total_words := len filtered_words |}.

End Keywords.

Module KeywordFacts.

Import TextProcessor GoogleScraper DatabaseHandler Keywords.

(** The sum of the frequencies of a list of items. *)
Definition frequencies (items : list (pystr * Z)) : Z :=
  fold_right (fun item sum => (snd item + sum)%Z) 0%Z items.

(** The frequency a dictionary has for a word, zero when it has none. *)
Fixpoint frequency_of (word : pystr) (word_freq : list (pystr * Z)) : Z :=
  match word_freq with
  | [] => 0%Z
  | (w, n) :: rest =>
      if pystr_eqb w word then n else frequency_of word rest
  end.

(** How often a word is in a list of words. *)
Definition occurrences (word : pystr) (words : list pystr) : Z :=
  len (filter (pystr_eqb word) words).

(** Largest frequency first. *)
Fixpoint descending (items : list (pystr * Z)) : Prop :=
  match items with
  | [] => True
  | item :: rest =>
      Forall (fun other => (snd other <= snd item)%Z) rest /\ descending rest
  end.

Lemma pystr_eqb_refl (w : pystr) : pystr_eqb w w = true.
Proof. now apply StoreFacts.pystr_eqb_eq. Qed.

Lemma pystr_eqb_sym (v w : pystr) : pystr_eqb v w = pystr_eqb w v.
Proof.
  destruct (pystr_eqb v w) eqn:E.
  - apply StoreFacts.pystr_eqb_eq in E. subst. symmetry.
    apply pystr_eqb_refl.
  - destruct (pystr_eqb w v) eqn:E'; [|reflexivity].
    apply StoreFacts.pystr_eqb_eq in E'. subst.
    rewrite pystr_eqb_refl in E. discriminate.
Qed.

(** *** The dictionary of counts *)

Lemma frequencies_bump (word : pystr) (word_freq : list (pystr * Z)) :
  frequencies (bump word word_freq) = (frequencies word_freq + 1)%Z.
Proof.
  induction word_freq as [|[w n] rest IH]; [reflexivity|]. simpl.
  destruct (pystr_eqb w word); simpl; [lia|]. rewrite IH. lia.
Qed.

Lemma frequency_of_bump (word other : pystr) (word_freq : list (pystr * Z)) :
  frequency_of other (bump word word_freq)
  = (frequency_of other word_freq
     + if pystr_eqb word other then 1 else 0)%Z.
Proof.
  induction word_freq as [|[w n] rest IH]; simpl.
  - destruct (pystr_eqb word other); lia.
  - destruct (pystr_eqb w word) eqn:Ew; simpl.
    + apply StoreFacts.pystr_eqb_eq in Ew. subst w.
      destruct (pystr_eqb word other); lia.
    + destruct (pystr_eqb w other) eqn:Eo; [|exact IH].
      apply StoreFacts.pystr_eqb_eq in Eo. subst w.
      rewrite (pystr_eqb_sym word other), Ew. lia.
Qed.

Lemma keys_bump (word : pystr) (word_freq : list (pystr * Z)) :
  map fst (bump word word_freq)
  = if member word (map fst word_freq) then map fst word_freq
    else (map fst word_freq ++ [word])%list.
Proof.
  unfold member. induction word_freq as [|[w n] rest IH]; [reflexivity|].
  simpl. rewrite (pystr_eqb_sym word w).
  destruct (pystr_eqb w word); simpl; [reflexivity|].
  rewrite IH. now destruct (existsb _ _).
Qed.

Lemma member_In (w : pystr) (words : list pystr) :
  member w words = true <-> In w words.
Proof.
  unfold member. rewrite existsb_exists. split.
  - intros (x & Hin & E). apply StoreFacts.pystr_eqb_eq in E. now subst.
  - intro Hin. exists w. split; [exact Hin | apply pystr_eqb_refl].
Qed.

(** What holds of the dictionary after the words [seen]. *)
Record counted (seen : list pystr) (word_freq : list (pystr * Z)) : Prop := {
  counted_keys : NoDup (map fst word_freq);
  counted_sum : frequencies word_freq = len seen;
  counted_each : forall w, frequency_of w word_freq = occurrences w seen;
  counted_known : forall w, In w (map fst word_freq) <-> In w seen
}.

Lemma counted_bump (seen : list pystr) (word : pystr)
  (word_freq : list (pystr * Z)) :
  counted seen word_freq -> counted (seen ++ [word]) (bump word word_freq).
Proof.
  intros [Hkeys Hsum Heach Hknown]. split.
  - rewrite keys_bump. destruct (member _ _) eqn:E; [exact Hkeys|].
    apply (Permutation_NoDup (Permutation_cons_append _ _)).
    constructor; [|exact Hkeys].
    intro Hin. apply member_In in Hin. congruence.
  - rewrite frequencies_bump, Hsum. unfold len. rewrite length_app.
    simpl. lia.
  - intro w. rewrite frequency_of_bump, Heach. unfold occurrences, len.
    rewrite filter_app, length_app. simpl. rewrite (pystr_eqb_sym word w).
    destruct (pystr_eqb w word); simpl; lia.
  - intro w. rewrite keys_bump, in_app_iff. simpl.
    destruct (member _ _) eqn:E.
    + apply member_In in E. rewrite Hknown in *. intuition (subst; auto).
    + rewrite in_app_iff, Hknown. simpl. tauto.
Qed.

Lemma counted_fold (words : list pystr) :
  forall seen word_freq,
  counted seen word_freq ->
  counted (seen ++ words)
    (fold_left (fun word_freq word => bump word word_freq) words word_freq).
Proof.
  induction words as [|w rest IH]; intros seen word_freq H; simpl.
  - now rewrite app_nil_r.
  - replace (seen ++ w :: rest)%list with ((seen ++ [w]) ++ rest)%list
      by now rewrite <- app_assoc.
    apply IH. now apply counted_bump.
Qed.

Lemma counted_count_words (words : list pystr) :
  counted words (count_words words).
Proof.
  apply (counted_fold words [] []). split; try reflexivity. constructor.
Qed.

Lemma frequency_of_entry (word_freq : list (pystr * Z)) (w : pystr) (n : Z) :
  NoDup (map fst word_freq) -> In (w, n) word_freq ->
  frequency_of w word_freq = n.
Proof.
  induction word_freq as [|[v m] rest IH]; [contradiction|]. simpl.
  intros Hnd [E|Hin]; inversion Hnd as [|? ? Hv Hrest]; subst.
  - injection E as -> ->. now rewrite pystr_eqb_refl.
  - destruct (pystr_eqb v w) eqn:Ev; [|now apply IH].
    apply StoreFacts.pystr_eqb_eq in Ev. subst v. exfalso. apply Hv.
    apply in_map_iff. now exists (w, n).
Qed.

(** *** Sorting and cutting *)

Lemma insert_by_frequency_permutation (item : pystr * Z)
  (items : list (pystr * Z)) :
  Permutation (insert_by_frequency item items) (item :: items).
Proof.
  induction items as [|other rest IH]; [reflexivity|]. simpl.
  destruct (Z.ltb _ _); [|reflexivity].
  rewrite IH. apply perm_swap.
Qed.

Lemma sorted_by_frequency_permutation (items : list (pystr * Z)) :
  Permutation (sorted_by_frequency items) items.
Proof.
  induction items as [|item rest IH]; [reflexivity|]. simpl.
  rewrite insert_by_frequency_permutation. now constructor.
Qed.

Lemma insert_by_frequency_descending (item : pystr * Z)
  (items : list (pystr * Z)) :
  descending items -> descending (insert_by_frequency item items).
Proof.
  induction items as [|other rest IH]; intro H; [now repeat constructor|].
  simpl. destruct H as [Hle Hrest].
  destruct (Z.ltb_spec (snd item) (snd other)) as [Hlt|Hge]; simpl.
  - split; [|now apply IH].
    apply (Permutation_Forall
             (Permutation_sym (insert_by_frequency_permutation item rest))).
    constructor; [lia | exact Hle].
  - split; [|split; assumption].
    constructor; [exact Hge|].
    apply (Forall_impl _ (fun x (Hx : (snd x <= snd other)%Z) =>
                            Z.le_trans _ _ _ Hx Hge) Hle).
Qed.

Lemma sorted_by_frequency_descending (items : list (pystr * Z)) :
  descending (sorted_by_frequency items).
Proof.
  induction items as [|item rest IH]; [exact I|].
  now apply insert_by_frequency_descending.
Qed.

Lemma Forall_firstn_of {T : Type} (P : T -> Prop) (n : nat) (l : list T) :
  Forall P l -> Forall P (firstn n l).
Proof.
  intro H. rewrite <- (firstn_skipn n l) in H.
  now apply Forall_app in H as [H _].
Qed.

Lemma descending_firstn (n : nat) (items : list (pystr * Z)) :
  descending items -> descending (firstn n items).
Proof.
  revert n. induction items as [|item rest IH]; intros [|n] H;
    try exact I.
  simpl. destruct H as [Hle Hrest].
  split; [now apply Forall_firstn_of | now apply IH].
Qed.

Lemma NoDup_firstn {T : Type} (n : nat) (l : list T) :
  NoDup l -> NoDup (firstn n l).
Proof.
  intro H. rewrite <- (firstn_skipn n l) in H.
  now apply NoDup_app_remove_r in H.
Qed.

Lemma frequencies_permutation (items items' : list (pystr * Z)) :
  Permutation items items' -> frequencies items = frequencies items'.
Proof.
  induction 1; simpl; lia.
Qed.

Lemma frequencies_firstn (n : nat) (items : list (pystr * Z)) :
  Forall (fun item => (1 <= snd item)%Z) items ->
  (frequencies (firstn n items) <= frequencies items)%Z
  /\ (len items <= frequencies items)%Z.
Proof.
  intro H. revert n. induction H as [|item rest Hitem Hrest IH]; intro n.
  - rewrite firstn_nil. unfold len. simpl. lia.
  - destruct (IH (pred n)) as [Hcut Hlen].
    unfold len in *. simpl List.length. rewrite Nat2Z.inj_succ.
    destruct n as [|n]; simpl in *; [|lia].
    split; lia.
Qed.

(** A slice [l[:n]] is a [firstn]. *)
Lemma slice_to_firstn {T : Type} (l : list T) (n : Z) :
  exists k, slice_to l n = firstn k l
            /\ ((0 <= n)%Z -> k = Z.to_nat n).
Proof.
  unfold slice_to. destruct (Z.ltb_spec n 0).
  - eexists. split; [reflexivity | lia].
  - eexists. split; [reflexivity | reflexivity].
Qed.

Lemma occurrences_positive (w : pystr) (words : list pystr) :
  In w words -> (1 <= occurrences w words)%Z.
Proof.
  intro Hin. unfold occurrences, len.
  assert (H : In w (filter (pystr_eqb w) words))
    by (apply filter_In; split; [exact Hin | apply pystr_eqb_refl]).
  destruct (filter (pystr_eqb w) words); [contradiction|].
  simpl List.length. lia.
Qed.

(** The entries of the dictionary of a list of words: each word of the
    list once, with the number of times the list has it. *)
Lemma count_words_entries (words : list pystr) (w : pystr) (n : Z) :
  In (w, n) (count_words words) ->
  In w words /\ n = occurrences w words /\ (1 <= n)%Z.
Proof.
  intro Hin. destruct (counted_count_words words) as [Hkeys _ Heach Hknown].
  assert (Hw : In w words).
  { apply Hknown. apply in_map_iff. now exists (w, n). }
  assert (Hn : n = occurrences w words).
  { rewrite <- Heach. symmetry. now apply frequency_of_entry. }
  repeat split; [exact Hw | exact Hn |].
  rewrite Hn. now apply occurrences_positive.
Qed.

Lemma count_words_positive (words : list pystr) :
  Forall (fun item => (1 <= snd item)%Z) (count_words words).
Proof.
  apply Forall_forall. intros [w n] Hin.
  now apply count_words_entries in Hin.
Qed.

(** X5.  The counts of [extract_metadata_from_text] agree: there are
    never more unique words than words counted, nor more words counted
    than words in the text; the frequencies of the top keywords add up
    to at most the total, and to the total when [top_n] is at least the
    number of unique words. *)
Theorem keyword_counts_agree (text : pystr) (top_n : Z) :
  (0 <= unique_words (extract_metadata_from_text text top_n)
   <= total_words (extract_metadata_from_text text top_n))%Z
  /\ (total_words (extract_metadata_from_text text top_n)
      <= len (split text))%Z
  /\ (frequencies (top_keywords (extract_metadata_from_text text top_n))
      <= total_words (extract_metadata_from_text text top_n))%Z
  /\ ((unique_words (extract_metadata_from_text text top_n) <= top_n)%Z ->
      frequencies (top_keywords (extract_metadata_from_text text top_n))
      = total_words (extract_metadata_from_text text top_n)).
Proof.
  unfold extract_metadata_from_text. cbn [unique_words total_words top_keywords].
  set (words := filter is_keyword (split text)).
  pose proof (counted_count_words words) as [_ Hsum _ _].
  pose proof (count_words_positive words) as Hpos.
  pose proof (sorted_by_frequency_permutation (count_words words)) as Hperm.
  assert (Hpos' : Forall (fun item => (1 <= snd item)%Z)
                    (sorted_by_frequency (count_words words)))
    by (apply (Permutation_Forall (Permutation_sym Hperm)); exact Hpos).
  split; [|split; [|split]].
  - split; [unfold len; lia|].
    rewrite <- Hsum. apply (frequencies_firstn 0 _ Hpos).
  - unfold words, len. apply Nat2Z.inj_le, TextExtras.length_filter_le.
  - destruct (slice_to_firstn (sorted_by_frequency (count_words words)) top_n)
      as (k & -> & _).
    rewrite <- Hsum, <- (frequencies_permutation _ _ Hperm).
    apply (frequencies_firstn k _ Hpos').
  - intro Hall.
    destruct (slice_to_firstn (sorted_by_frequency (count_words words)) top_n)
      as (k & -> & Hk).
    rewrite firstn_all2.
    + now rewrite (frequencies_permutation _ _ Hperm), Hsum.
    + rewrite (Permutation_length Hperm). unfold len in Hall.
      rewrite Hk; lia.
Qed.

(** A text of three words, one of them twice. *)
Definition three_words : pystr :=
  [21608; 26480; 20523; 32; 26032; 27468; 32; 21608; 26480; 20523]%N.

Lemma keyword_counts_agree_three_words :
  frequencies (top_keywords (extract_metadata_from_text three_words 5))
  = total_words (extract_metadata_from_text three_words 5).
Proof.
  refine (proj2 (proj2 (proj2 (keyword_counts_agree three_words 5))) _).
  vm_compute. discriminate.
Defined.

(** X6.  The top keywords come largest frequency first and no keyword
    twice; for a [top_n] that is not negative there are [top_n] of them,
    or all the unique words when those are fewer; and each is a word of
    the text of two characters or more that is no stopword, with the
    number of times the text has it as its frequency. *)
Theorem top_keywords_ranked (text : pystr) (top_n : Z) :
  descending (top_keywords (extract_metadata_from_text text top_n))
  /\ NoDup (map fst (top_keywords (extract_metadata_from_text text top_n)))
  /\ ((0 <= top_n)%Z ->
      len (top_keywords (extract_metadata_from_text text top_n))
      = Z.min top_n (unique_words (extract_metadata_from_text text top_n)))
  /\ (forall w n,
        In (w, n) (top_keywords (extract_metadata_from_text text top_n)) ->
        n = occurrences w (split text) /\ (1 <= n)%Z
        /\ (2 <= len w)%Z /\ member w chinese_stopwords = false).
Proof.
  unfold extract_metadata_from_text. cbn [unique_words total_words top_keywords].
  set (words := filter is_keyword (split text)).
  pose proof (sorted_by_frequency_permutation (count_words words)) as Hperm.
  destruct (slice_to_firstn (sorted_by_frequency (count_words words)) top_n)
    as (k & -> & Hk).
  split; [|split; [|split]].
  - apply descending_firstn, sorted_by_frequency_descending.
  - rewrite <- firstn_map. apply NoDup_firstn.
    apply (Permutation_NoDup (Permutation_map fst (Permutation_sym Hperm))).
    apply (counted_count_words words).
  - intro Hn. unfold len. rewrite length_firstn, (Permutation_length Hperm).
    rewrite (Hk Hn). lia.
  - intros w n Hin.
    assert (Hin' : In (w, n) (count_words words)).
    { apply (Permutation_in _ Hperm).
      rewrite <- (firstn_skipn k (sorted_by_frequency (count_words words))).
      apply in_or_app. now left. }
    apply count_words_entries in Hin' as (Hw & Hn & Hpos).
    unfold words in Hw. apply filter_In in Hw as [_ Hkey].
    unfold is_keyword in Hkey. apply andb_true_iff in Hkey as [Hlen Hstop].
    apply Z.ltb_lt in Hlen. apply negb_true_iff in Hstop.
    repeat split; try assumption; try lia.
    rewrite Hn. unfold occurrences, words. f_equal.
    apply TextExtras.filter_weaker. intros x Hx.
    apply StoreFacts.pystr_eqb_eq in Hx. subst x.
    unfold is_keyword. rewrite Hstop. simpl.
    rewrite andb_true_r. now apply Z.ltb_lt.
Qed.

Lemma top_keywords_ranked_three_words :
  top_keywords (extract_metadata_from_text three_words 1)
  = [([21608; 26480; 20523]%N, 2%Z)]
  /\ len (top_keywords (extract_metadata_from_text three_words 1)) = 1%Z.
Proof.
  split; [reflexivity|].
  refine (proj1 (proj2 (proj2 (top_keywords_ranked three_words 1))) _).
  discriminate.
Defined.

End KeywordFacts.

(** ** config.py: the helpers on the credential lists *)

Module ConfigHelpers.

Import Config GoogleScraper.

(** Truth value of a list. *)
Definition nonempty_list {T : Type} (l : list T) : bool :=
  match l with
  | [] => false
  | _ => true
  end.

(** [get_api_key_pair(index)] *)
Definition get_api_key_pair (cfg : Config.t) (index : Z)
  : outcome (string * string) :=
  if Z.leb (len (GOOGLE_API_KEYS cfg)) index then Raise IndexError
  else
    match getitem (GOOGLE_API_KEYS cfg) index with
    | Raise e => Raise e
    | Return api_key =>
        match getitem (GOOGLE_SEARCH_ENGINE_IDS cfg) index with
        | Raise e => Raise e
        | Return search_engine_id => Return (api_key, search_engine_id)
        end
    end.

(** [rotate_api_key_index(current_index)] *)
Definition rotate_api_key_index (cfg : Config.t) (current_index : Z)
  : outcome Z :=
  if Z.eqb (len (GOOGLE_API_KEYS cfg)) 0 then Raise ZeroDivisionError
  else Return ((current_index + 1) mod len (GOOGLE_API_KEYS cfg))%Z.

Definition newline : string := String (ascii_of_nat 10) EmptyString.

(** ["\n".join(f"  - {e}" for e in errors)] *)
Fixpoint bullet_lines (errors : list string) : string :=
  match errors with
  | [] => EmptyString
  | [e] => ("  - " ++ e)%string
  | e :: rest => ("  - " ++ e ++ newline ++ bullet_lines rest)%string
  end.

Definition empty (s : string) : bool :=
  match s with
  | EmptyString => true
  | _ => false
  end.

(** The list [errors] of [validate_config], for the two database
    settings it reads besides the credential lists. *)
Definition config_errors (cfg : Config.t) (DB_HOST DB_USER : string)
  : list string :=
  ((if nonempty_list (GOOGLE_API_KEYS cfg) then []
    else ["No Google API keys configured"%string])
   ++ (if nonempty_list (GOOGLE_SEARCH_ENGINE_IDS cfg) then []
       else ["No Google Search Engine IDs configured"%string])
   ++ (if empty DB_HOST then ["Database host not configured"%string] else [])
   ++ (if empty DB_USER then ["Database user not configured"%string] else [])
   ++ (if Z.eqb (len (GOOGLE_API_KEYS cfg))
               (len (GOOGLE_SEARCH_ENGINE_IDS cfg))
       then []
       else ["Number of API keys must match number of Search Engine IDs"
            %string]))%list.

(** [validate_config()] *)
Definition validate_config (cfg : Config.t) (DB_HOST DB_USER : string)
  : outcome bool :=
  match config_errors cfg DB_HOST DB_USER with
  | [] => Return true
  | errors =>
      Raise (ValueError
               ("Configuration validation failed:" ++ newline
                ++ bullet_lines errors))
  end.

End ConfigHelpers.

Module ConfigFacts.

Import Config GoogleScraper ConfigHelpers.

Lemma getitem_in_range {T : Type} (l : list T) (i : Z) :
  (0 <= i < len l)%Z ->
  exists x, getitem l i = Return x /\ nth_error l (Z.to_nat i) = Some x.
Proof.
  intro Hi. unfold getitem.
  destruct (Z.ltb_spec i 0); [lia|].
  destruct (Z.ltb_spec i 0); [lia|].
  destruct (nth_error l (Z.to_nat i)) as [x|] eqn:E; [now exists x|].
  apply nth_error_None in E. unfold len in Hi. lia.
Qed.

Lemma getitem_from_end {T : Type} (l : list T) (i : Z) :
  (- len l <= i < 0)%Z -> getitem l i = getitem l (i + len l).
Proof.
  intro Hi. unfold getitem.
  destruct (Z.ltb_spec i 0); [|lia].
  destruct (Z.ltb_spec (i + len l) 0); [lia|].
  destruct (Z.ltb_spec (i + len l) 0); [lia|reflexivity].
Qed.

Lemma getitem_out_of_range {T : Type} (l : list T) (i : Z) :
  (len l <= i \/ i < - len l)%Z -> getitem l i = Raise IndexError.
Proof.
  intro Hi. unfold getitem.
  destruct (Z.ltb_spec i 0).
  - destruct (Z.ltb_spec (i + len l) 0); [reflexivity|lia].
  - destruct (Z.ltb_spec i 0); [lia|].
    destruct (nth_error l (Z.to_nat i)) eqn:E; [|reflexivity].
    assert (Hlt : (Z.to_nat i < List.length l)%nat)
      by (apply nth_error_Some; congruence).
    unfold len in Hi. lia.
Qed.

(** X7.  With as many engine ids as keys, [get_api_key_pair] returns the
    key and the id at an index from 0 up to the number of keys, raises
    [IndexError] from the number of keys on, and for a negative index
    does not raise as long as the lists reach that far back: it returns
    the pair counted from the end. *)
Theorem key_pair_by_index (cfg : Config.t) (index : Z) :
  len (GOOGLE_SEARCH_ENGINE_IDS cfg) = len (GOOGLE_API_KEYS cfg) ->
  ((0 <= index < len (GOOGLE_API_KEYS cfg))%Z ->
   exists api_key search_engine_id,
     get_api_key_pair cfg index = Return (api_key, search_engine_id)
     /\ nth_error (GOOGLE_API_KEYS cfg) (Z.to_nat index) = Some api_key
     /\ nth_error (GOOGLE_SEARCH_ENGINE_IDS cfg) (Z.to_nat index)
        = Some search_engine_id)
  /\ ((len (GOOGLE_API_KEYS cfg) <= index)%Z ->
      get_api_key_pair cfg index = Raise IndexError)
  /\ ((- len (GOOGLE_API_KEYS cfg) <= index < 0)%Z ->
      get_api_key_pair cfg index
      = get_api_key_pair cfg (index + len (GOOGLE_API_KEYS cfg)))
  /\ ((index < - len (GOOGLE_API_KEYS cfg))%Z ->
      get_api_key_pair cfg index = Raise IndexError).
Proof.
  intro Hsame. unfold get_api_key_pair.
  split; [|split; [|split]]; intro Hi.
  - destruct (Z.leb_spec (len (GOOGLE_API_KEYS cfg)) index); [lia|].
    destruct (getitem_in_range (GOOGLE_API_KEYS cfg) index Hi)
      as (k & -> & Hk).
    destruct (getitem_in_range (GOOGLE_SEARCH_ENGINE_IDS cfg) index)
      as (c & -> & Hc); [lia|].
    now exists k, c.
  - now destruct (Z.leb_spec (len (GOOGLE_API_KEYS cfg)) index); [|lia].
  - destruct (Z.leb_spec (len (GOOGLE_API_KEYS cfg)) index); [lia|].
    destruct (Z.leb_spec (len (GOOGLE_API_KEYS cfg))
                (index + len (GOOGLE_API_KEYS cfg))); [lia|].
    rewrite (getitem_from_end (GOOGLE_API_KEYS cfg) index) by lia.
    rewrite (getitem_from_end (GOOGLE_SEARCH_ENGINE_IDS cfg) index) by lia.
    now rewrite Hsame.
  - destruct (Z.leb_spec (len (GOOGLE_API_KEYS cfg)) index); [reflexivity|].
    now rewrite getitem_out_of_range by lia.
Qed.

Lemma key_pair_by_index_last :
  get_api_key_pair RetryFacts.five_keys (-1)
  = Return ("key5", "cx5")%string.
Proof.
  rewrite (proj1 (proj2 (proj2 (key_pair_by_index RetryFacts.five_keys (-1)
                                  eq_refl)))).
  - reflexivity.
  - vm_compute. split; [discriminate | reflexivity].
Defined.

(** The next cursor is the same for two cursors only if they are. *)
Lemma shifted_mod_injective (K i j j' : Z) :
  (0 <= j < K)%Z -> (0 <= j' < K)%Z ->
  ((i + j) mod K = (i + j') mod K)%Z -> j = j'.
Proof.
  intros Hj Hj' E.
  pose proof (Z.div_mod (i + j) K ltac:(lia)) as Ha.
  pose proof (Z.div_mod (i + j') K ltac:(lia)) as Hb.
  rewrite E in Ha.
  assert (Hq : ((i + j) / K = (i + j') / K)%Z) by nia.
  rewrite Hq in Ha. lia.
Qed.

Lemma cursors_permutation (K : nat) (i : Z) :
  (0 < K)%nat ->
  Permutation
    (map (fun j => ((i + Z.of_nat j) mod Z.of_nat K)%Z) (seq 0 K))
    (map Z.of_nat (seq 0 K)).
Proof.
  intro HK. apply NoDup_Permutation_bis.
  - apply NoDup_map_NoDup_ForallPairs; [|apply seq_NoDup].
    intros j j' Hj Hj' E. apply in_seq in Hj, Hj'.
    apply Nat2Z.inj.
    apply (shifted_mod_injective (Z.of_nat K) i); [lia | lia | exact E].
  - now rewrite !length_map.
  - intros x Hx. apply in_map_iff in Hx as (j & <- & _).
    pose proof (Z.mod_pos_bound (i + Z.of_nat j) (Z.of_nat K) ltac:(lia)).
    apply in_map_iff. exists (Z.to_nat ((i + Z.of_nat j) mod Z.of_nat K)).
    split; [lia|]. apply in_seq. lia.
Qed.

Lemma searcher_eq (a b : GoogleSearcher) :
  api_keys a = api_keys b -> search_engine_ids a = search_engine_ids b ->
  current_key_index a = current_key_index b -> a = b.
Proof.
  destruct a, b. simpl. now intros -> -> ->.
Qed.

(** X8.  Rotation goes round the pool: from a cursor inside a pool of
    [K] keys, the cursors before each of [K] searches in a row are the
    [K] places of the pool, each once, and after the [K] rotations the
    searcher is as it was.  [rotate_api_key_index] computes the same
    next cursor as the searcher does. *)
Theorem rotation_visits_every_key (World : Type) (cfg : Config.t)
  (self : GoogleSearcher) (w : World) :
  api_keys self <> [] ->
  (0 <= current_key_index self < len (api_keys self))%Z ->
  _rotate_api_key (self, w) = (Return tt, (RetryFacts.rotate_self self, w))
  /\ Permutation
       (map (fun j => current_key_index
                        (Nat.iter j RetryFacts.rotate_self self))
          (seq 0 (List.length (api_keys self))))
       (map Z.of_nat (seq 0 (List.length (api_keys self))))
  /\ Nat.iter (List.length (api_keys self)) RetryFacts.rotate_self self = self
  /\ (GOOGLE_API_KEYS cfg = api_keys self ->
      rotate_api_key_index cfg (current_key_index self)
      = Return (current_key_index (RetryFacts.rotate_self self))).
Proof.
  intros Hkeys Hrange.
  assert (HK : (0 < List.length (api_keys self))%nat)
    by (destruct (api_keys self); [congruence | simpl; lia]).
  split; [|split; [|split]].
  - now apply (RetryFacts.rotate_api_key_spec World (self, w)).
  - rewrite (map_ext_in _
               (fun j => ((current_key_index self + Z.of_nat j)
                          mod Z.of_nat (List.length (api_keys self)))%Z)).
    + now apply cursors_permutation.
    + intros j _. now apply RetryFacts.iter_rotate_index.
  - apply searcher_eq; try apply RetryFacts.iter_rotate_keys.
    rewrite RetryFacts.iter_rotate_index by exact Hrange.
    unfold len in *.
    rewrite <- (Z.mul_1_l (Z.of_nat (List.length (api_keys self)))) at 1.
    rewrite Z.mod_add by lia. apply Z.mod_small. exact Hrange.
  - intro E. unfold rotate_api_key_index. rewrite E.
    destruct (Z.eqb_spec (len (api_keys self)) 0); [|reflexivity].
    unfold len in *. lia.
Qed.

Lemma rotation_visits_every_key_five :
  Nat.iter 5 RetryFacts.rotate_self (new_searcher RetryFacts.five_keys)
  = new_searcher RetryFacts.five_keys.
Proof.
  refine (proj1 (proj2 (proj2
    (rotation_visits_every_key unit RetryFacts.five_keys
       (new_searcher RetryFacts.five_keys) tt _ _)))).
  - discriminate.
  - vm_compute. split; [discriminate | reflexivity].
Defined.

(** What [validate_config] asks of a configuration. *)
Definition acceptable (cfg : Config.t) (DB_HOST DB_USER : string) : Prop :=
  GOOGLE_API_KEYS cfg <> [] /\ GOOGLE_SEARCH_ENGINE_IDS cfg <> []
  /\ DB_HOST <> EmptyString /\ DB_USER <> EmptyString
  /\ List.length (GOOGLE_API_KEYS cfg)
     = List.length (GOOGLE_SEARCH_ENGINE_IDS cfg).

Lemma validate_config_cases (cfg : Config.t) (DB_HOST DB_USER : string) :
  (validate_config cfg DB_HOST DB_USER = Return true
   /\ acceptable cfg DB_HOST DB_USER)
  \/ ((exists message,
         validate_config cfg DB_HOST DB_USER = Raise (ValueError message))
      /\ ~ acceptable cfg DB_HOST DB_USER).
Proof.
  unfold validate_config, config_errors, acceptable, len.
  destruct (GOOGLE_API_KEYS cfg) as [|k keys],
           (GOOGLE_SEARCH_ENGINE_IDS cfg) as [|c ids],
           DB_HOST as [|h host], DB_USER as [|u user];
    cbn [nonempty_list empty app];
    try (right; split; [eexists; reflexivity
                       | intros (? & ? & ? & ? & ?); congruence]).
  destruct (Z.eqb_spec (Z.of_nat (List.length (k :: keys)))
              (Z.of_nat (List.length (c :: ids)))) as [E|E]; cbn [app].
  - left. split; [reflexivity|]. repeat split; try discriminate. lia.
  - right. split; [eexists; reflexivity|].
    intros (_ & _ & _ & _ & H). lia.
Qed.

(** X9.  [validate_config] returns [True] exactly when there is a key,
    there is an engine id, the database host and user are not empty and
    there are as many ids as keys; otherwise it raises a [ValueError],
    and nothing else. *)
Theorem validate_config_accepts (cfg : Config.t) (DB_HOST DB_USER : string) :
  (validate_config cfg DB_HOST DB_USER = Return true
   <-> (GOOGLE_API_KEYS cfg <> [] /\ GOOGLE_SEARCH_ENGINE_IDS cfg <> []
        /\ DB_HOST <> EmptyString /\ DB_USER <> EmptyString
        /\ List.length (GOOGLE_API_KEYS cfg)
           = List.length (GOOGLE_SEARCH_ENGINE_IDS cfg)))
  /\ (validate_config cfg DB_HOST DB_USER = Return true
      \/ exists message,
           validate_config cfg DB_HOST DB_USER = Raise (ValueError message)).
Proof.
  destruct (validate_config_cases cfg DB_HOST DB_USER)
    as [[E H]|[[message E] H]]; rewrite E.
  - split; [|now left]. split; [intros _; exact H | reflexivity].
  - split; [|right; now exists message].
    split; [discriminate | intro H'; contradiction].
Qed.

(** X10.  On a configuration that [validate_config] accepts, a new
    searcher has a key pair under its cursor however often its key was
    rotated: [_get_current_key_pair] returns the key and the engine id
    of the same place and raises nothing. *)
Theorem validated_searcher_has_key_pair (World : Type) (cfg : Config.t)
  (DB_HOST DB_USER : string) (rotations : nat) (w : World) :
  validate_config cfg DB_HOST DB_USER = Return true ->
  exists api_key search_engine_id,
    _get_current_key_pair
      (Nat.iter rotations RetryFacts.rotate_self (new_searcher cfg), w)
    = (Return (api_key, search_engine_id),
       (Nat.iter rotations RetryFacts.rotate_self (new_searcher cfg), w))
    /\ nth_error (GOOGLE_API_KEYS cfg)
         (rotations mod List.length (GOOGLE_API_KEYS cfg))
       = Some api_key
    /\ nth_error (GOOGLE_SEARCH_ENGINE_IDS cfg)
         (rotations mod List.length (GOOGLE_API_KEYS cfg))
       = Some search_engine_id.
Proof.
  intro Hvalid.
  destruct (validate_config_cases cfg DB_HOST DB_USER)
    as [[_ (Hkeys & _ & _ & _ & Hsame)]|[[message E] _]];
    [|rewrite E in Hvalid; discriminate].
  set (self := Nat.iter rotations RetryFacts.rotate_self (new_searcher cfg)).
  assert (HK : (0 < List.length (GOOGLE_API_KEYS cfg))%nat)
    by (destruct (GOOGLE_API_KEYS cfg); [congruence | simpl; lia]).
  destruct (RetryFacts.iter_rotate_keys rotations (new_searcher cfg))
    as [Ekeys Eids].
  fold self in Ekeys, Eids. simpl in Ekeys, Eids.
  assert (Eindex : current_key_index self
                   = Z.of_nat (rotations
                               mod List.length (GOOGLE_API_KEYS cfg))).
  { unfold self. rewrite RetryFacts.iter_rotate_index.
    - simpl. unfold len. rewrite Nat2Z.inj_mod. reflexivity.
    - simpl. unfold len. lia. }
  pose proof (Nat.mod_upper_bound rotations
                (List.length (GOOGLE_API_KEYS cfg)) ltac:(lia)) as Hlt.
  destruct (getitem_in_range (GOOGLE_API_KEYS cfg)
              (current_key_index self)) as (k & Hk & Hk');
    [rewrite Eindex; unfold len; lia|].
  destruct (getitem_in_range (GOOGLE_SEARCH_ENGINE_IDS cfg)
              (current_key_index self)) as (c & Hc & Hc');
    [rewrite Eindex; unfold len; lia|].
  exists k, c. rewrite Eindex, Nat2Z.id in Hk', Hc'.
  split; [|split; assumption].
  unfold _get_current_key_pair, bind, get_self, lift, ret. simpl.
  now rewrite Ekeys, Eids, Hk, Hc.
Qed.

Lemma validated_searcher_has_key_pair_five :
  exists api_key search_engine_id,
    _get_current_key_pair
      (Nat.iter 7 RetryFacts.rotate_self (new_searcher RetryFacts.five_keys),
       tt)
    = (Return (api_key, search_engine_id),
       (Nat.iter 7 RetryFacts.rotate_self (new_searcher RetryFacts.five_keys),
        tt))
    /\ api_key = "key3"%string /\ search_engine_id = "cx3"%string.
Proof.
  destruct (validated_searcher_has_key_pair unit RetryFacts.five_keys
              "localhost" "celeb_user" 7 tt eq_refl)
    as (k & c & E & Hk & Hc).
  exists k, c. split; [exact E|].
  split; [injection Hk as <- | injection Hc as <-]; reflexivity.
Defined.

End ConfigFacts.

(** ** google_scraper.py: the retry wrapper *)

From Stdlib Require Import Qpower.

Module RetryExtras.

Import Config GoogleScraper.




(** An operation that times out on its first call and returns the
    number of the call from then on; its state counts the calls. *)
Definition fails_once : M nat nat :=
  fun n =>
    if Nat.eqb n 0 then (Raise (RequestException Timeout), S n)
    else (Return n, S n).

(** X12.  With at least one attempt configured, the wrapper makes
    between one and [SCRAPER_MAX_RETRIES] calls, each in the state the
    call before it left; every call before the last has raised a
    [RequestException]; what the wrapper returns or raises is what the
    last of its calls returned or raised, and the state it leaves is the
    one that call left.  A call that stops before the attempts are used
    up has not ended in a [RequestException]. *)
Theorem backoff_gives_last_outcome (St A : Type) (cfg : Config.t)
  (func : M St A) (st : St) :
  (1 <= SCRAPER_MAX_RETRIES cfg)%Z ->
  let run := exponential_backoff cfg func st in
  let last_attempt :=
    RetryFacts.state_before St A func (calls run - 1) st in
  (1 <= calls run <= Z.to_nat (SCRAPER_MAX_RETRIES cfg))%nat
  /\ result run = fst (func last_attempt)
  /\ final run = snd (func last_attempt)
  /\ (forall j, (j < calls run - 1)%nat ->
        exists e,
          fst (func (RetryFacts.state_before St A func j st))
          = Raise (RequestException e))
  /\ ((calls run < Z.to_nat (SCRAPER_MAX_RETRIES cfg))%nat ->
      forall e, result run <> Raise (RequestException e)).
Proof.
  intros Hmax run last_attempt. subst run last_attempt.
  unfold exponential_backoff.
  destruct (RetryFacts.wrapper_loop_outcome St A cfg func
              (Z.to_nat (SCRAPER_MAX_RETRIES cfg)) 1%Z None st)
    as (Hc & Hr & Hf & Hbefore & Hearly); [lia|].
  split; [exact Hc|]. split; [exact Hr|]. split; [exact Hf|].
  split; [|exact Hearly].
  intros j Hj. exact (Hbefore j Hj).
Qed.

Lemma backoff_gives_last_outcome_second_call :
  calls (exponential_backoff RetryFacts.five_keys fails_once 0%nat) = 2%nat
  /\ result (exponential_backoff RetryFacts.five_keys fails_once 0%nat)
     = Return 1%nat.
Proof.
  destruct (backoff_gives_last_outcome nat nat RetryFacts.five_keys
              fails_once 0%nat) as (_ & Hr & _).
  - vm_compute. discriminate.
  - split; [reflexivity|]. rewrite Hr. reflexivity.
Defined.

End RetryExtras.

(** ** google_scraper.py: the requests of a search *)

Module SearchExtras.

Import Config GoogleScraper.

(** A session that keeps a record of the parameters of every request,
    in the order in which they were made. *)
Definition logging {World : Type}
  (session_get : Params -> M World ApiResponse)
  : Params -> M (World * list Params) ApiResponse :=
  fun params st =>
    let '(w, log) := st in
    let '(o, w') := session_get params w in
    (o, (w', (log ++ [params])%list)).

(** The requests made so far by a computation started on [st]. *)
Definition requests {World A : Type}
  (r : outcome A * SearchState (World * list Params)) : list Params :=
  snd (snd (snd r)).

Lemma len_slice_to {T : Type} (l : list T) (n : Z) :
  (0 <= n)%Z -> (len (slice_to l n) <= n)%Z.
Proof.
  intro Hn. unfold slice_to, len.
  destruct (Z.ltb_spec n 0); [lia|].
  pose proof (firstn_le_length (Z.to_nat n) l). lia.
Qed.

(** X13.  One attempt of [search_google] asks for the first page and
    then for the second, in that order and at most once each, both for
    the query with ten results a page and with the key and the engine id
    under the cursor as it was when the attempt began.  An attempt that
    returns has made both requests, and returns at most
    [SCRAPER_RESULTS_PER_CELEBRITY] URLs when that cap is not
    negative. *)
Theorem search_requests_two_pages (World : Type) (cfg : Config.t)
  (session_get : Params -> M World ApiResponse) (query : pystr)
  (self : GoogleSearcher) (w : World) :
  let r := search_google_once cfg (logging session_get) query
             (self, (w, [])) in
  Forall (fun p =>
            param_q p = query /\ param_num p = 10%Z
            /\ getitem (api_keys self) (current_key_index self)
               = Return (param_key p)
            /\ getitem (search_engine_ids self) (current_key_index self)
               = Return (param_cx p)) (requests r)
  /\ map param_start (requests r)
     = firstn (List.length (requests r)) [1; 11]%Z
  /\ (forall urls, fst r = Return urls ->
        List.length (requests r) = 2%nat
        /\ ((0 <= SCRAPER_RESULTS_PER_CELEBRITY cfg)%Z ->
            (len urls <= SCRAPER_RESULTS_PER_CELEBRITY cfg)%Z)).
Proof.
  unfold requests, search_google_once, try_except,
    _get_current_key_pair, _rotate_api_key.
  unfold bind, get_self, lift, on_world, logging, raise_for_status, ret,
    raise.
  cbv beta zeta. cbn [fst snd].
  destruct (getitem (api_keys self) (current_key_index self))
    as [api_key|e1] eqn:Ekey.
  2: { destruct (Z.eqb (len (api_keys self)) 0); cbn;
       (split; [constructor | split; [reflexivity | discriminate]]). }
  destruct (getitem (search_engine_ids self) (current_key_index self))
    as [cx|e2] eqn:Ecx.
  2: { destruct (Z.eqb (len (api_keys self)) 0); cbn;
       (split; [constructor | split; [reflexivity | discriminate]]). }
  cbn [fst snd].
  repeat match goal with
  | |- context [session_get ?p ?w0] =>
      let o := fresh "o" in let w1 := fresh "w" in
      destruct (session_get p w0) as [[o|?] w1]; cbn [fst snd app]
  | |- context [(Z.leb 400 ?c && Z.ltb ?c 600)%bool] =>
      destruct (Z.leb 400 c && Z.ltb c 600)%bool; cbn [fst snd app]
  | |- context [api_json ?o] =>
      destruct (api_json o) as [?|?]; cbn [fst snd app]
  | |- context [api_error ?d] =>
      destruct (api_error d) as [?|]; cbn [fst snd app]
  | |- context [links_of ?d] =>
      destruct (links_of d) as [?|?]; cbn [fst snd app]
  | |- context [Z.eqb (len (api_keys self)) 0] =>
      destruct (Z.eqb (len (api_keys self)) 0); cbn [fst snd app]
  end;
  (split;
     [repeat (first [apply Forall_nil
                    | apply Forall_cons; [cbn; repeat split; reflexivity|]])
     | split;
         [reflexivity
         | intros urls E;
           first [discriminate E
                 | split; [reflexivity|];
                   intro Hcap; injection E as <-; now apply len_slice_to]]]).
Qed.

End SearchExtras.

(** ** google_scraper.py and crawl4ai_scraper.py: what a fetch reports *)

Module FetchExtras.

Import Config TextProcessor GoogleScraper Crawl4AIScraper.

(** A result dictionary as the scrapers build them: one of the five
    statuses, and under "success" or "partial" the cleaned text with its
    length and a confidence. *)
Definition well_formed (r : FetchResult) : Prop :=
  In (fr_status r) ["success"; "partial"; "failed"; "error"; "timeout"]%string
  /\ (succeeded r = true ->
      exists text,
        fr_cleaned_text r = Some text
        /\ fr_content_length r = Some (len text)
        /\ fr_extraction_confidence r <> None).

(** An entry of the first list says the length of its own text. *)
Definition page_consistent (p : ScrapedPage) : Prop :=
  page_content_length p = len (page_cleaned_text p).

(** An entry of the second list has one of the failure statuses. *)
Definition failure_classified (f : FailedUrl) : Prop :=
  In (failed_status f) ["failed"; "timeout"; "error"]%string.

Lemma failure_well_formed (status : string) (error : option string)
  (domain : pystr) (ms : Z) :
  In status ["failed"; "timeout"]%string ->
  well_formed (failure status error domain ms).
Proof.
  intros [<-|[<-|[]]]; (split; [cbn; tauto | discriminate]).
Qed.

Lemma cleaned_well_formed (cfg : Config.t) (lib : Library) (html : pystr)
  (domain : pystr) (ms : Z) :
  well_formed (cleaned (clean_text cfg lib html) domain ms).
Proof.
  unfold well_formed, cleaned, succeeded. cbn [fr_status fr_cleaned_text
    fr_content_length fr_extraction_confidence].
  unfold clean_text, clean_text_try.
  destruct (clean_html lib html) as [raw|e]; cbn.
  - destruct (Z.eqb (len raw) 0); cbn.
    + split; [tauto | discriminate].
    + destruct (Z.ltb _ _); cbn; (split; [tauto|]); intros _;
        eexists; (split; [reflexivity | split; [reflexivity | discriminate]]).
  - split; [tauto | discriminate].
Qed.

Lemma well_formed_entry (cfg : Config.t) (u : pystr) (r : FetchResult) :
  well_formed r ->
  if succeeded r then page_consistent (scraped_page cfg u r)
  else failure_classified (failed_url u r).
Proof.
  intros [Hstatus Hfields]. destruct (succeeded r) eqn:E.
  - destruct (Hfields eq_refl) as (text & Ht & Hl & _).
    unfold page_consistent, scraped_page. cbn. now rewrite Ht, Hl.
  - unfold failure_classified, failed_url, succeeded in *. cbn in *.
    destruct Hstatus as [H|[H|[H|[H|[H|[]]]]]]; rewrite <- H in *;
      cbn in *; try discriminate; tauto.
Qed.

Section Sync.

Variable World : Type.
Variable cfg : Config.t.
Variable platform : Platform World.
Variable session_get : pystr -> M World HttpResponse.

Lemma fetch_and_parse_once_well_formed (u : pystr) (w : World) :
  exists r, fst (fetch_and_parse_once cfg platform session_get u w) = Return r
            /\ snd (fetch_and_parse_once cfg platform session_get u w)
               = snd (session_get u w)
            /\ well_formed r.
Proof.
  unfold fetch_and_parse_once, bind, raise_for_status, ret, raise.
  destruct (session_get u w) as [[response|e] w'].
  - destruct (_ && _)%bool.
    + eexists. split; [reflexivity | split; [reflexivity|]].
      apply failure_well_formed. cbn. tauto.
    + destruct (_ && _)%bool; eexists;
        (split; [reflexivity | split; [reflexivity|]]).
      * apply failure_well_formed. cbn. tauto.
      * apply cleaned_well_formed.
  - destruct e as [[| | |]| | | | | | | |]; eexists;
      (split; [reflexivity | split; [reflexivity|]]);
      apply failure_well_formed; cbn; tauto.
Qed.

End Sync.

(** X14.  The retry decorator never retries [fetch_and_parse]: with at
    least one attempt configured it makes one request for the URL,
    sleeps no delay and returns a dictionary, because the body turns
    every exception into one.  A request that times out is reported
    with the status "timeout", and an answer with a 4xx or 5xx status
    with the status "failed" and no text. *)
Theorem fetch_and_parse_single_request (World : Type) (cfg : Config.t)
  (platform : Platform World) (session_get : pystr -> M World HttpResponse)
  (u : pystr) (w : World) :
  (1 <= SCRAPER_MAX_RETRIES cfg)%Z ->
  calls (fetch_and_parse cfg platform session_get u w) = 1%nat
  /\ sleeps (fetch_and_parse cfg platform session_get u w) = []
  /\ final (fetch_and_parse cfg platform session_get u w)
     = snd (session_get u w)
  /\ exists r,
       result (fetch_and_parse cfg platform session_get u w) = Return r
       /\ well_formed r
       /\ (fst (session_get u w) = Raise (RequestException Timeout) ->
           fr_status r = "timeout"%string)
       /\ (forall response,
             fst (session_get u w) = Return response ->
             (400 <= resp_status_code response < 600)%Z ->
             fr_status r = "failed"%string /\ fr_cleaned_text r = None).
Proof.
  intro Hmax.
  destruct (fetch_and_parse_once_well_formed World cfg platform session_get
              u w) as (r & Hr & Hw & Hwf).
  unfold fetch_and_parse, exponential_backoff.
  destruct (Z.to_nat (SCRAPER_MAX_RETRIES cfg)) eqn:E; [lia|].
  rewrite RetryFacts.single_attempt
    by (intros e He; rewrite Hr in He; discriminate).
  cbn [calls sleeps final result].
  split; [reflexivity|]. split; [reflexivity|]. split; [exact Hw|].
  exists r. split; [exact Hr|]. split; [exact Hwf|].
  revert Hr. unfold fetch_and_parse_once, bind, raise_for_status, ret, raise.
  destruct (session_get u w) as [[response|e] w']; cbn [fst].
  - intro Hr. split; [discriminate|].
    intros response' E' Hcode. injection E' as <-.
    destruct (Z.leb_spec 400 (resp_status_code response)); [|lia].
    destruct (Z.ltb_spec (resp_status_code response) 600); [|lia].
    cbn in Hr. injection Hr as <-. now split.
  - intro Hr. split; [|discriminate].
    intro E'. injection E' as ->. cbn in Hr. now injection Hr as <-.
Qed.

Lemma fetch_and_parse_single_request_example :
  calls (fetch_and_parse RetryFacts.five_keys FetchFacts.example_platform
           FetchFacts.example_session FetchFacts.second_url tt) = 1%nat.
Proof.
  refine (proj1 (fetch_and_parse_single_request unit RetryFacts.five_keys
                   FetchFacts.example_platform FetchFacts.example_session
                   FetchFacts.second_url tt _)).
  vm_compute. discriminate.
Defined.

Section Async.

Variable World : Type.
Variable cfg : Config.t.
Variable platform : Platform World.
Variable arun : pystr -> M World (option CrawlResult).

Lemma settle_well_formed (u : pystr) (result : option CrawlResult) (ms : Z) :
  well_formed (settle cfg platform u result ms).
Proof.
  unfold settle. destruct (crawl_failed result).
  - apply failure_well_formed. cbn. tauto.
  - destruct (negb _).
    + apply failure_well_formed. cbn. tauto.
    + apply cleaned_well_formed.
Qed.

Lemma fetch_single_url_well_formed (u : pystr) (attempt : Z) (w : World) :
  well_formed (fst (_fetch_single_url cfg platform arun u attempt w)).
Proof.
  funelim (_fetch_single_url cfg platform arun u attempt w);
    try assumption; cbn [fst];
    try (apply failure_well_formed; cbn; tauto).
  apply settle_well_formed.
Qed.

Lemma gather_well_formed (urls : list pystr) :
  forall w, Forall well_formed (fst (gather cfg platform arun urls w)).
Proof.
  induction urls as [|u rest IH]; intro w; [constructor|]. simpl.
  pose proof (fetch_single_url_well_formed u 1 w) as Hr.
  destruct (_fetch_single_url cfg platform arun u 1 w) as [r w'].
  specialize (IH w'). destruct (gather cfg platform arun rest w') as [rs w''].
  now constructor.
Qed.

End Async.


(** The entries [separate] makes of the pairs, in the order of the pairs. *)
Definition pages_of (cfg : Config.t) (pairs : list (pystr * FetchResult))
  : list ScrapedPage :=
  map (fun p => scraped_page cfg (fst p) (snd p))
    (filter (fun p => succeeded (snd p)) pairs).

Definition failures_of (pairs : list (pystr * FetchResult))
  : list FailedUrl :=
  map (fun p => failed_url (fst p) (snd p))
    (filter (fun p => negb (succeeded (snd p))) pairs).

Lemma separate_partition (cfg : Config.t)
  (pairs : list (pystr * FetchResult)) :
  forall pages failures,
  separate cfg pairs pages failures
  = ((pages ++ pages_of cfg pairs)%list, (failures ++ failures_of pairs)%list).
Proof.
  unfold pages_of, failures_of.
  induction pairs as [|[u r] rest IH]; intros pages failures; simpl.
  - now rewrite !app_nil_r.
  - destruct (succeeded r); simpl; rewrite IH, <- app_assoc; reflexivity.
Qed.

Lemma pages_of_consistent (cfg : Config.t)
  (pairs : list (pystr * FetchResult)) :
  Forall well_formed (map snd pairs) ->
  Forall page_consistent (pages_of cfg pairs)
  /\ Forall failure_classified (failures_of pairs).
Proof.
  unfold pages_of, failures_of.
  induction pairs as [|[u r] rest IH]; simpl; intro H; [now split|].
  apply Forall_cons_iff in H as [Hr Hrest].
  destruct (IH Hrest) as [IHp IHf].
  pose proof (well_formed_entry cfg u r Hr) as He.
  destruct (succeeded r); simpl; split; auto.
Qed.

Lemma map_snd_combine {A B : Type} (xs : list A) :
  forall ys : list B,
  List.length ys = List.length xs -> map snd (combine xs ys) = ys.
Proof.
  induction xs as [|x xs IH]; intros [|y ys]; simpl; try discriminate;
    [reflexivity|].
  intro H. injection H as H. now rewrite IH.
Qed.

(** X15.  Every entry of the first list [scrape_urls_async] returns
    gives as its content length the length of its own cleaned text, and
    every entry of the second list has the status "failed", "timeout" or
    "error": a result with a page status is never reported as failed. *)
Theorem crawled_entries_consistent (World : Type) (cfg : Config.t)
  (platform : Platform World) (arun : pystr -> M World (option CrawlResult))
  (urls : list pystr) (w : World) :
  Forall page_consistent
    (fst (fst (scrape_urls_async cfg platform arun urls w)))
  /\ Forall failure_classified
       (snd (fst (scrape_urls_async cfg platform arun urls w))).
Proof.
  unfold scrape_urls_async. destruct urls as [|u rest] eqn:E.
  - now split.
  - rewrite <- E.
    pose proof (gather_well_formed World cfg platform arun urls w) as Hwf.
    pose proof (FetchFacts.gather_length World cfg platform arun urls w)
      as Hlen.
    destruct (gather cfg platform arun urls w) as [results w'].
    cbn [fst snd] in *. rewrite separate_partition. cbn [fst snd app].
    apply pages_of_consistent. now rewrite map_snd_combine.
Qed.

(** X16.  [scrape_urls_async] keeps the order of its input in both
    lists: with one result per URL from the gathered fetches, the first
    list is made of the pairs whose result has the status "success" or
    "partial", the second of all the others, each in the order of the
    URLs. *)
Theorem crawled_entries_keep_order (World : Type) (cfg : Config.t)
  (platform : Platform World) (arun : pystr -> M World (option CrawlResult))
  (urls : list pystr) (w : World) :
  let results := fst (gather cfg platform arun urls w) in
  List.length results = List.length urls
  /\ fst (scrape_urls_async cfg platform arun urls w)
     = (pages_of cfg (combine urls results),
        failures_of (combine urls results)).
Proof.
  cbv zeta. split; [apply FetchFacts.gather_length|].
  unfold scrape_urls_async. destruct urls as [|u rest] eqn:E;
    [reflexivity|].
  rewrite <- E. destruct (gather cfg platform arun urls w) as [results w'].
  cbn [fst snd]. now rewrite separate_partition.
Qed.

Section SyncLoop.

Variable World : Type.
Variable cfg : Config.t.
Variable platform : Platform World.
Variable session_get : pystr -> M World HttpResponse.
Hypothesis Hmax : (1 <= SCRAPER_MAX_RETRIES cfg)%Z.

Lemma fetch_and_parse_well_formed (u : pystr) (w : World) :
  exists r, result (fetch_and_parse cfg platform session_get u w) = Return r
            /\ well_formed r.
Proof.
  destruct (fetch_and_parse_once_well_formed World cfg platform session_get
              u w) as (r & Hr & _ & Hwf).
  unfold fetch_and_parse, exponential_backoff.
  destruct (Z.to_nat (SCRAPER_MAX_RETRIES cfg)) eqn:E; [lia|].
  rewrite RetryFacts.single_attempt
    by (intros e He; rewrite Hr in He; discriminate).
  exists r. now split.
Qed.

Variable sleep : Q -> M World unit.
Hypothesis Hdelay : (0 <= SCRAPER_DELAY_BETWEEN_REQUESTS cfg)%Z.
Hypothesis Hsleep :
  FetchFacts.sleep_returns World sleep (delay_between_requests cfg).

Lemma scrape_loop_entries (urls : list pystr) :
  forall pages0 failures0 w,
  Forall page_consistent pages0 ->
  Forall failure_classified failures0 ->
  exists pages failures w',
    scrape_loop cfg platform session_get sleep urls pages0 failures0 w
    = (Return (pages, failures), w')
    /\ Forall page_consistent pages
    /\ Forall failure_classified failures.
Proof.
  induction urls as [|u rest IH]; intros pages0 failures0 w Hp Hf.
  - exists pages0, failures0, w. now split.
  - cbn [scrape_loop].
    destruct (FetchFacts.time_sleep_returns World cfg sleep w Hdelay Hsleep)
      as [w1 E1].
    rewrite E1. cbv zeta.
    destruct (fetch_and_parse_well_formed u w1) as (r & Hr & Hwf).
    rewrite Hr. pose proof (well_formed_entry cfg u r Hwf) as He.
    destruct (succeeded r); apply IH; auto;
      apply Forall_app; split; auto.
Qed.

End SyncLoop.

(** X17.  With at least one attempt configured and a delay between
    requests that is not negative and that [time.sleep] takes,
    [WebScraper.scrape_urls] returns two lists in which every page
    entry gives the length of its own cleaned text as its content
    length and every failure entry has the status "failed", "timeout"
    or "error". *)
Theorem fetched_entries_consistent (World : Type) (cfg : Config.t)
  (platform : Platform World) (session_get : pystr -> M World HttpResponse)
  (sleep : Q -> M World unit) (urls : list pystr) (w : World) :
  (1 <= SCRAPER_MAX_RETRIES cfg)%Z ->
  (0 <= SCRAPER_DELAY_BETWEEN_REQUESTS cfg)%Z ->
  FetchFacts.sleep_returns World sleep (delay_between_requests cfg) ->
  exists pages failures w',
    scrape_urls cfg platform session_get sleep urls w
    = (Return (pages, failures), w')
    /\ Forall page_consistent pages
    /\ Forall failure_classified failures.
Proof.
  intros Hmax Hdelay Hsleep. unfold scrape_urls.
  apply scrape_loop_entries; try assumption; constructor.
Qed.

Lemma fetched_entries_consistent_two_urls :
  exists pages failures w',
    scrape_urls RetryFacts.five_keys FetchFacts.example_platform
      FetchFacts.example_session FetchFacts.plain_sleep
      [FetchFacts.first_url; FetchFacts.second_url] tt
    = (Return (pages, failures), w')
    /\ Forall page_consistent pages
    /\ Forall failure_classified failures.
Proof.
  apply (fetched_entries_consistent unit RetryFacts.five_keys
           FetchFacts.example_platform FetchFacts.example_session
           FetchFacts.plain_sleep
           [FetchFacts.first_url; FetchFacts.second_url] tt).
  - vm_compute. discriminate.
  - vm_compute. discriminate.
  - intro w. exists w. reflexivity.
Defined.

Section Unfolding.

Variable World : Type.
Variable cfg : Config.t.
Variable platform : Platform World.
Variable arun : pystr -> M World (option CrawlResult).

Lemma fetch_single_url_unfold (u : pystr) (attempt : Z) (w : World) :
  _fetch_single_url cfg platform arun u attempt w
  = match arun u w with
    | (Return result, w') =>
        if (crawl_failed result && retry_failed_crawl cfg attempt result)%bool
        then _fetch_single_url cfg platform arun u (attempt + 1) w'
        else (settle cfg platform u result
                (now_ms platform w' - now_ms platform w), w')
    | (Raise AsyncioTimeoutError, w') =>
        if Z.ltb attempt (SCRAPER_MAX_RETRIES cfg)
        then _fetch_single_url cfg platform arun u (attempt + 1) w'
        else (failure "timeout" (Some "Request timeout"%string)
                (_extract_domain (urlparse platform) u)
                (now_ms platform w' - now_ms platform w), w')
    | (Raise e, w') =>
        (failure "failed" (Some (str platform e))
           (_extract_domain (urlparse platform) u)
           (now_ms platform w' - now_ms platform w), w')
    end.
Proof.
  funelim (_fetch_single_url cfg platform arun u attempt w).
  all: try (rewrite Heq; try rewrite e; reflexivity).
  all: try (rewrite Heq0; try rewrite e; try reflexivity).
Qed.

End Unfolding.

(** The crawler with a counter of the calls of [arun] beside the world. *)
Definition counting {World : Type}
  (arun : pystr -> M World (option CrawlResult))
  : pystr -> M (World * nat) (option CrawlResult) :=
  fun u s => (fst (arun u (fst s)), (snd (arun u (fst s)), S (snd s))).

Definition beside_counter {World : Type} (platform : Platform World)
  : Platform (World * nat) :=
  {| library := library platform;
     now_ms := fun s => now_ms platform (fst s);
     urlparse := urlparse platform;
     str := str platform |}.

(** How many calls [_fetch_single_url] may make from [attempt] on. *)
Definition attempts_left (cfg : Config.t) (attempt : Z) : nat :=
  Nat.max 1 (Z.to_nat (SCRAPER_MAX_RETRIES cfg - attempt + 1)).

Section Counting.

Variable World : Type.
Variable cfg : Config.t.
Variable platform : Platform World.
Variable arun : pystr -> M World (option CrawlResult).

Let counted_fetch (u : pystr) (attempt : Z) (s : World * nat) :=
  _fetch_single_url cfg (beside_counter platform) (counting arun) u attempt s.

Lemma settle_beside_counter (u : pystr) (result : option CrawlResult)
  (ms : Z) :
  settle cfg (beside_counter platform) u result ms
  = settle cfg platform u result ms.
Proof. reflexivity. Qed.

Lemma counted_fetch_spec (u : pystr) (k : nat) :
  forall attempt w n,
  (Z.to_nat (SCRAPER_MAX_RETRIES cfg - attempt) <= k)%nat ->
  fst (counted_fetch u attempt (w, n))
  = fst (_fetch_single_url cfg platform arun u attempt w)
  /\ fst (snd (counted_fetch u attempt (w, n)))
     = snd (_fetch_single_url cfg platform arun u attempt w)
  /\ (n + 1 <= snd (snd (counted_fetch u attempt (w, n)))
      <= n + attempts_left cfg attempt)%nat.
Proof.
  unfold counted_fetch, attempts_left.
  induction k as [|k IH]; intros attempt w n Hk;
    rewrite (fetch_single_url_unfold _ cfg platform arun),
            (fetch_single_url_unfold _ cfg (beside_counter platform));
    change (counting arun u (w, n))
      with (fst (arun u w), (snd (arun u w), S n));
    cbn [beside_counter now_ms fst snd];
    destruct (arun u w) as [[result|e] w']; cbn [fst snd].
  - unfold retry_failed_crawl.
    destruct (Z.ltb_spec attempt (SCRAPER_MAX_RETRIES cfg));
      [exfalso; clear - Hk H; lia|].
    rewrite andb_false_r. cbn [fst snd]. repeat split; lia.
  - destruct e as [[| | |]| | | | | | | |];
      try (cbn [fst snd]; repeat split; lia).
    destruct (Z.ltb_spec attempt (SCRAPER_MAX_RETRIES cfg));
      [exfalso; clear - Hk H; lia|].
    cbn [fst snd]. repeat split; lia.
  - destruct (crawl_failed result && retry_failed_crawl cfg attempt result)%bool
      eqn:E.
    + unfold retry_failed_crawl in E.
      apply andb_prop in E as [_ E]. apply andb_prop in E as [E _].
      apply Z.ltb_lt in E.
      destruct (IH (attempt + 1)%Z w' (S n)) as (H1 & H2 & H3); [lia|].
      repeat split; try assumption; lia.
    + cbn [fst snd]. repeat split; lia.
  - destruct e as [[| | |]| | | | | | | |];
      try (cbn [fst snd]; repeat split; lia).
    destruct (Z.ltb_spec attempt (SCRAPER_MAX_RETRIES cfg)).
    + destruct (IH (attempt + 1)%Z w' (S n)) as (H1 & H2 & H3); [lia|].
      repeat split; try assumption; lia.
    + cbn [fst snd]. repeat split; lia.
Qed.

Lemma counted_gather_spec (urls : list pystr) :
  forall w n,
  let counted :=
    gather cfg (beside_counter platform) (counting arun) urls (w, n) in
  fst counted = fst (gather cfg platform arun urls w)
  /\ fst (snd counted) = snd (gather cfg platform arun urls w)
  /\ (n + List.length urls <= snd (snd counted)
      <= n + List.length urls * attempts_left cfg 1)%nat.
Proof.
  induction urls as [|u rest IH]; intros w n; cbv zeta.
  - simpl. repeat split; lia.
  - cbn [gather List.length].
    destruct (counted_fetch_spec u _ 1%Z w n (le_n _)) as (H1 & H2 & H3).
    unfold counted_fetch in *.
    destruct (_fetch_single_url cfg (beside_counter platform) (counting arun)
                u 1 (w, n)) as [r [w1 n1]].
    destruct (_fetch_single_url cfg platform arun u 1 w) as [r' w1'].
    cbn [fst snd] in *. subst r' w1'.
    specialize (IH w1 n1). cbv zeta in IH. destruct IH as (I1 & I2 & I3).
    destruct (gather cfg (beside_counter platform) (counting arun) rest
                (w1, n1)) as [rs [w2 n2]].
    destruct (gather cfg platform arun rest w1) as [rs' w2'].
    cbn [fst snd] in *. subst rs' w2'. repeat split; lia.
Qed.


End Counting.

(** X18.  Crawling a batch of URLs calls [crawler.arun] at least once
    and at most [max(1, SCRAPER_MAX_RETRIES)] times per URL; counting
    the calls changes neither the two lists nor the world the batch
    leaves. *)
Theorem crawls_per_batch (World : Type) (cfg : Config.t)
  (platform : Platform World) (arun : pystr -> M World (option CrawlResult))
  (urls : list pystr) (w : World) :
  let counted :=
    scrape_urls_async cfg (beside_counter platform) (counting arun) urls
      (w, 0%nat) in
  fst counted = fst (scrape_urls_async cfg platform arun urls w)
  /\ fst (snd counted) = snd (scrape_urls_async cfg platform arun urls w)
  /\ (List.length urls <= snd (snd counted)
      <= List.length urls * attempts_left cfg 1)%nat.
Proof.
  cbv zeta. unfold scrape_urls_async. destruct urls as [|u rest] eqn:E.
  - cbn. repeat split; lia.
  - rewrite <- E.
    pose proof (counted_gather_spec World cfg platform arun urls w 0)
      as H. cbv zeta in H. destruct H as (H1 & H2 & H3).
    destruct (gather cfg (beside_counter platform) (counting arun) urls
                (w, 0%nat)) as [rs [w1 n1]].
    destruct (gather cfg platform arun urls w) as [rs' w1'].
    cbn [fst snd] in *. subst rs' w1'. repeat split; lia.
Qed.



End FetchExtras.

(** ** database_handler.py, further functions *)

Module Mentions.

Import GoogleScraper DatabaseHandler.

Section Store.

Variable server : Server.

(** [datetime.now().isoformat()] *)
Variable now_isoformat : string.

(** [insert_mention(connection, celebrity_id, original_url, ...)], its
    arguments gathered in a mention; a [time_stamp] of [None] is replaced
    by the time of the call.  The connection is one on which
    [connection.cursor()] succeeds. *)
Definition insert_mention (conn : Connection) (mention : Mention)
  : (bool * string) * Connection :=
  let row :=
    {| row_mention := mention;
       row_time_stamp := get (time_stamp mention) now_isoformat |} in
  match execute_insert server conn row with
  | (inr tt, conn') => ((true, "Mention inserted successfully"%string), conn')
  | (inl e, conn') =>
      if (contains "Duplicate entry" e && contains "for key" e)%bool
      then ((false, "Duplicate URL for this celebrity"%string), conn')
      else ((false, ("Insert failed: " ++ e)%string), conn')
  end.

End Store.

End Mentions.

Module StoreExtras.

Import GoogleScraper DatabaseHandler StoreFacts Mentions.

Section Store.

Variable server : Server.
Variable now_isoformat : string.

Lemma execute_insert_cases (conn : Connection) (row : Row) :
  (exists e, execute_insert server conn row = (inl e, conn))
  \/ (execute_insert server conn row = (inr tt, with_row conn row)
      /\ has_key (visible conn) (key_of row) = false
      /\ insert_error server (table conn) row = None).
Proof.
  unfold execute_insert, key_of.
  destruct (has_key _ _); [left; eauto|].
  destruct (insert_error _ _ _); [left; eauto|].
  right. now split.
Qed.

(** The loop adds one row to the transaction for every mention it counts
    as inserted, each made of one of the mentions, and no other. *)
Lemma insert_loop_pending (mentions : list Mention) :
  forall inserted skipped conn,
  let r := insert_loop server now_isoformat mentions inserted skipped conn in
  exists added,
    pending (snd r) = (pending conn ++ added)%list
    /\ table (snd r) = table conn
    /\ len added = (fst (fst r) - inserted)%Z
    /\ Forall (fun row => In (row_mention row) mentions) added.
Proof.
  induction mentions as [|m rest IH]; intros inserted skipped conn; cbv zeta.
  - exists []. cbn. rewrite app_nil_r. repeat split; [lia | constructor].
  - cbn [insert_loop]. cbv zeta.
    set (row := {| row_mention := m;
                   row_time_stamp := get (time_stamp m) now_isoformat |}).
    destruct (execute_insert_cases conn row) as [[e E]|(E & _ & _)];
      rewrite E.
    + assert (Hsame :
        (if contains "Duplicate entry" e
         then insert_loop server now_isoformat rest inserted (skipped + 1)
                conn
         else insert_loop server now_isoformat rest inserted (skipped + 1)
                conn)
        = insert_loop server now_isoformat rest inserted (skipped + 1) conn)
        by now destruct (contains _ _).
      rewrite Hsame.
      destruct (IH inserted (skipped + 1)%Z conn) as (added & H1 & H2 & H3 & H4).
      exists added. repeat split; auto.
      eapply Forall_impl; [|exact H4]. intros r Hr. now right.
    + destruct (IH (inserted + 1)%Z skipped (with_row conn row))
        as (added & H1 & H2 & H3 & H4).
      exists (row :: added). cbn [with_row pending table] in *.
      rewrite H1, <- app_assoc. repeat split; auto.
      * unfold len in *. cbn [List.length]. lia.
      * constructor; [now left|].
        eapply Forall_impl; [|exact H4]. intros r Hr. now right.
Qed.

(** The counters do not look at the commit. *)
Lemma insert_loop_same_inserts (server' : Server)
  (mentions : list Mention) :
  insert_error server' = insert_error server ->
  forall inserted skipped conn,
  insert_loop server' now_isoformat mentions inserted skipped conn
  = insert_loop server now_isoformat mentions inserted skipped conn.
Proof.
  intro Hsame. induction mentions as [|m rest IH];
    intros inserted skipped conn; [reflexivity|].
  cbn [insert_loop]. cbv zeta. unfold execute_insert. rewrite Hsame.
  destruct (has_key _ _); [now rewrite !IH|].
  destruct (insert_error _ _ _); now rewrite !IH.
Qed.

(** Once the keys of all the mentions are stored, the loop skips them
    all and leaves the connection as it is. *)
Lemma insert_loop_all_stored (mentions : list Mention) :
  forall inserted skipped conn,
  Forall (fun m => has_key (visible conn) (unique_key m) = true) mentions ->
  insert_loop server now_isoformat mentions inserted skipped conn
  = ((inserted, (skipped + len mentions)%Z), conn).
Proof.
  induction mentions as [|m rest IH]; intros inserted skipped conn H.
  - cbn. now rewrite Z.add_0_r.
  - apply Forall_cons_iff in H as [Hm Hrest].
    rewrite insert_loop_duplicate by exact Hm.
    rewrite IH by exact Hrest.
    replace (skipped + 1 + len rest)%Z with (skipped + len (m :: rest))%Z;
      [reflexivity|].
    unfold len. cbn [List.length]. lia.
Qed.

(** On a server that refuses only duplicates, the keys of all the
    mentions are stored after the loop. *)
Lemma insert_loop_stores_keys (mentions : list Mention) :
  (forall rows row, insert_error server rows row = None) ->
  forall inserted skipped conn,
  let r := insert_loop server now_isoformat mentions inserted skipped conn in
  (forall k, has_key (visible conn) k = true ->
             has_key (visible (snd r)) k = true)
  /\ Forall (fun m => has_key (visible (snd r)) (unique_key m) = true)
       mentions.
Proof.
  intro Hinsert. induction mentions as [|m rest IH];
    intros inserted skipped conn; cbv zeta.
  - cbn. split; [tauto | constructor].
  - destruct (has_key (visible conn) (unique_key m)) eqn:Ekey.
    + rewrite insert_loop_duplicate by exact Ekey.
      destruct (IH inserted (skipped + 1)%Z conn) as [Hk Hall].
      split; [exact Hk|]. constructor; [now apply Hk | exact Hall].
    + rewrite insert_loop_fresh by auto.
      destruct (IH (inserted + 1)%Z skipped
                  (with_row conn (row_of now_isoformat m))) as [Hk Hall].
      split.
      * intros k H. apply Hk. unfold visible, with_row in *.
        cbn [table pending].
        rewrite app_assoc, has_key_app, H. reflexivity.
      * constructor; [|exact Hall]. apply Hk, has_key_with_row.
Qed.

End Store.

(** A server whose every [COMMIT] fails. *)
Definition refusing_commit : Server :=
  {| insert_error := fun _ _ => None;
     commit_error := fun _ _ => Some "2013: Lost connection"%string |}.

(** X20.  [insert_mention] never commits: whatever it answers, the
    committed rows are as before and a rollback leaves the connection
    as a rollback before the call would have.  It answers [True] exactly
    when the row has joined the open transaction, which needs a key that
    is not stored; every other answer leaves the connection untouched,
    and a stored key is answered with the duplicate message. *)
Theorem insert_mention_leaves_uncommitted (server : Server)
  (now_isoformat : string) (conn : Connection) (m : Mention) :
  let r := insert_mention server now_isoformat conn m in
  table (snd r) = table conn
  /\ rollback (snd r) = rollback conn
  /\ (fst (fst r) = true ->
      snd r = with_row conn (row_of now_isoformat m)
      /\ has_key (visible conn) (unique_key m) = false)
  /\ (fst (fst r) = false -> snd r = conn)
  /\ (has_key (visible conn) (unique_key m) = true ->
      fst r = (false, "Duplicate URL for this celebrity"%string)).
Proof.
  cbv zeta. unfold insert_mention. fold (row_of now_isoformat m).
  destruct (execute_insert_cases server conn (row_of now_isoformat m))
    as [[e E]|(E & Hkey & _)]; rewrite E.
  - assert (Hconn :
      snd (if (contains "Duplicate entry" e && contains "for key" e)%bool
           then ((false, "Duplicate URL for this celebrity"%string), conn)
           else ((false, ("Insert failed: " ++ e)%string), conn)) = conn)
      by now destruct (_ && _)%bool.
    assert (Hfalse :
      fst (fst (if (contains "Duplicate entry" e
                    && contains "for key" e)%bool
                then ((false, "Duplicate URL for this celebrity"%string),
                      conn)
                else ((false, ("Insert failed: " ++ e)%string), conn)))
      = false) by now destruct (_ && _)%bool.
    rewrite Hconn, Hfalse.
    split; [reflexivity|]. split; [reflexivity|].
    split; [discriminate|]. split; [reflexivity|].
    intro Hkey. rewrite execute_insert_duplicate in E by exact Hkey.
    injection E as <-. reflexivity.
  - cbn [fst snd]. split; [reflexivity|]. split; [reflexivity|].
    split; [now split|]. split; [discriminate|].
    unfold key_of in Hkey. cbn [row_of row_mention] in Hkey. congruence.
Qed.

(** X21.  When the commit goes through, the table after
    [batch_insert_mentions] is the rows that were visible before with the
    new rows after them, as many as the counter of inserted mentions
    says, each made of one of the mentions; nothing is left pending. *)
Theorem committed_rows_are_counted (server : Server)
  (now_isoformat : string) (conn : Connection) (mentions : list Mention) :
  (forall rows rows', commit_error server rows rows' = None) ->
  let r := batch_insert_mentions server now_isoformat conn mentions in
  exists added,
    table (snd r) = (visible conn ++ added)%list
    /\ pending (snd r) = []
    /\ len added = fst (fst r)
    /\ Forall (fun row => In (row_mention row) mentions) added.
Proof.
  intro Hcommit. cbv zeta. unfold batch_insert_mentions.
  pose proof (insert_loop_pending server now_isoformat mentions 0 0 conn)
    as H. cbv zeta in H. destruct H as (added & H1 & H2 & H3 & H4).
  destruct (insert_loop server now_isoformat mentions 0 0 conn)
    as [[inserted skipped] conn'].
  rewrite Hcommit. cbn [fst snd] in *. exists added.
  unfold commit, visible. cbn [table pending].
  rewrite H1, H2, app_assoc. repeat split; [lia | exact H4].
Qed.

Lemma committed_rows_are_counted_one_mention :
  exists added,
    table (snd (batch_insert_mentions plain_server "2025-01-01T00:00:00"
                  empty_connection [a_mention]))
    = (visible empty_connection ++ added)%list
    /\ pending (snd (batch_insert_mentions plain_server "2025-01-01T00:00:00"
                       empty_connection [a_mention])) = []
    /\ len added
       = fst (fst (batch_insert_mentions plain_server "2025-01-01T00:00:00"
                     empty_connection [a_mention]))
    /\ Forall (fun row => In (row_mention row) [a_mention]) added.
Proof.
  apply (committed_rows_are_counted plain_server "2025-01-01T00:00:00"
           empty_connection [a_mention]).
  reflexivity.
Defined.

(** X22.  When the commit fails, [batch_insert_mentions] rolls back: the
    table is as before and nothing is pending.  The counters it returns
    are nevertheless those it would return on a server that commits, so
    the count of inserted mentions can be positive with no row stored. *)
Theorem failed_commit_keeps_counters (server server' : Server)
  (now_isoformat : string) (conn : Connection) (mentions : list Mention) :
  insert_error server' = insert_error server ->
  (forall rows rows', commit_error server rows rows' <> None) ->
  let r := batch_insert_mentions server now_isoformat conn mentions in
  table (snd r) = table conn
  /\ pending (snd r) = []
  /\ fst r = fst (batch_insert_mentions server' now_isoformat conn mentions).
Proof.
  intros Hsame Hcommit. cbv zeta. unfold batch_insert_mentions.
  rewrite (insert_loop_same_inserts server now_isoformat server' mentions
             Hsame).
  pose proof (insert_loop_pending server now_isoformat mentions 0 0 conn)
    as H. cbv zeta in H. destruct H as (added & _ & H2 & _).
  destruct (insert_loop server now_isoformat mentions 0 0 conn)
    as [[inserted skipped] conn'].
  specialize (Hcommit (table conn') (pending conn')).
  destruct (commit_error server (table conn') (pending conn'));
    [|congruence].
  cbn [fst snd rollback table pending] in *.
  split; [exact H2|]. split; [reflexivity|].
  now destruct (commit_error server' _ _).
Qed.

Lemma failed_commit_keeps_counters_one_mention :
  table (snd (batch_insert_mentions refusing_commit "2025-01-01T00:00:00"
                empty_connection [a_mention])) = []
  /\ fst (batch_insert_mentions refusing_commit "2025-01-01T00:00:00"
            empty_connection [a_mention]) = (1, 0)%Z.
Proof.
  pose proof (failed_commit_keeps_counters refusing_commit plain_server
                "2025-01-01T00:00:00" empty_connection [a_mention]
                eq_refl) as H.
  cbv zeta in H. destruct H as (H1 & _ & H3); [discriminate|].
  split; [exact H1 | exact H3].
Defined.

(** X23.  Running a batch a second time on a server that accepts and
    commits inserts nothing: every mention is counted as skipped and
    the connection is left as the first run left it. *)
Theorem replayed_batch_is_skipped (server : Server) (now_isoformat : string)
  (conn : Connection) (mentions : list Mention) :
  (forall rows row, insert_error server rows row = None) ->
  (forall rows rows', commit_error server rows rows' = None) ->
  let first := batch_insert_mentions server now_isoformat conn mentions in
  let second :=
    batch_insert_mentions server now_isoformat (snd first) mentions in
  fst second = (0, len mentions)%Z /\ snd second = snd first.
Proof.
  intros Hinsert Hcommit. cbv zeta.
  assert (Hfirst :
    exists conn',
      snd (batch_insert_mentions server now_isoformat conn mentions)
      = commit conn'
      /\ Forall (fun m => has_key (visible conn') (unique_key m) = true)
           mentions).
  { unfold batch_insert_mentions.
    pose proof (insert_loop_stores_keys server now_isoformat mentions
                  Hinsert 0 0 conn) as H.
    cbv zeta in H. destruct H as [_ Hall].
    destruct (insert_loop server now_isoformat mentions 0 0 conn)
      as [counts conn'].
    rewrite Hcommit. exists conn'. now split. }
  destruct Hfirst as (conn' & -> & Hall).
  unfold batch_insert_mentions.
  rewrite insert_loop_all_stored
    by (now rewrite (proj1 (visible_commit conn'))).
  rewrite Hcommit. cbn [fst snd]. split; [reflexivity|].
  unfold commit, visible. cbn [table pending]. now rewrite !app_nil_r.
Qed.

Lemma replayed_batch_is_skipped_one_mention :
  fst (batch_insert_mentions plain_server "2025-01-01T00:00:00"
         (snd (batch_insert_mentions plain_server "2025-01-01T00:00:00"
                 empty_connection [a_mention; a_mention]))
         [a_mention; a_mention])
  = (0, 2)%Z.
Proof.
  refine (proj1 (replayed_batch_is_skipped plain_server "2025-01-01T00:00:00"
                   empty_connection [a_mention; a_mention] _ _)).
  - reflexivity.
  - reflexivity.
Defined.

End StoreExtras.


Module Jobs.

Import GoogleScraper Crawl4AIScraper.

(** A value bound to a [%s] of a query. *)
Inductive value :=
| Text (s : string)
| Number (n : Z).

(** What [cursor.execute(update_query, values)] is given. *)
Record Query := {
  sql : string;
  values : list value
}.

(** The database as [update_scraping_job] meets it: whether the server
    refuses the query, and whether it refuses the commit after it. *)
Record JobServer := {
  execute_error : Query -> option string;
  job_commit_error : Query -> option string
}.

(** [status in ["completed", "failed"]]; [status] may be [None]. *)
Definition finishes (status : option string) : bool :=
  match status with
  | Some s => (String.eqb s "completed" || String.eqb s "failed")%bool
  | None => false
  end.

(** The two lists [update_scraping_job] builds; a string counts when it
    is neither [None] nor empty, a number when it is not [None]. *)
Definition job_updates (status : option string)
  (mentions_found urls_processed : option Z) (error_message : option string)
  : list string * list value :=
  let updates := [] in
  let values := [] in
  let '(updates, values) :=
    match status with
    | Some (String _ _ as s) =>
        ((updates ++ ["status = %s"%string])%list, (values ++ [Text s])%list)
    | _ => (updates, values)
    end in
  let '(updates, values) :=
    match mentions_found with
    | Some n =>
        ((updates ++ ["mentions_found = %s"%string])%list,
         (values ++ [Number n])%list)
    | None => (updates, values)
    end in
  let '(updates, values) :=
    match urls_processed with
    | Some n =>
        ((updates ++ ["urls_processed = %s"%string])%list,
         (values ++ [Number n])%list)
    | None => (updates, values)
    end in
  let '(updates, values) :=
    match error_message with
    | Some (String _ _ as s) =>
        ((updates ++ ["error_message = %s"%string])%list,
         (values ++ [Text s])%list)
    | _ => (updates, values)
    end in
  let updates :=
    if finishes status then (updates ++ ["end_time = NOW()"%string])%list
    else updates in
  (updates, values).

(** [update_scraping_job(connection, job_id, status, mentions_found,
    urls_processed, error_message)]: what it returns and the query it
    has sent, if any.  A [MySQLError] of the server is answered with
    [False]. *)
Definition update_scraping_job (server : JobServer) (job_id : Z)
  (status : option string) (mentions_found urls_processed : option Z)
  (error_message : option string) : bool * option Query :=
  let '(updates, values) :=
    job_updates status mentions_found urls_processed error_message in
  match updates with
  | [] => (false, None)
  | _ =>
      let values := (values ++ [Number job_id])%list in
      let update_query :=
        ("UPDATE scraping_jobs SET " ++ String.concat ", " updates
         ++ " WHERE job_id = %s")%string in
      let query := {| sql := update_query; values := values |} in
      match execute_error server query with
      | Some _ => (false, Some query)
      | None =>
          match job_commit_error server query with
          | Some _ => (false, Some query)
          | None => (true, Some query)
          end
      end
  end.

End Jobs.

Module JobFacts.

Import GoogleScraper Crawl4AIScraper Jobs.

(** How many [%s] a query text has. *)
Fixpoint placeholders (s : string) : nat :=
  match s with
  | String "%" (String "s" rest) => S (placeholders rest)
  | String _ rest => placeholders rest
  | EmptyString => 0
  end.

(** No field to update is given. *)
Definition nothing_given (status : option string)
  (mentions_found urls_processed : option Z) (error_message : option string)
  : Prop :=
  truthy status = false /\ mentions_found = None /\ urls_processed = None
  /\ truthy error_message = false.

Definition last_value (q : Query) : option value :=
  List.last (map Some (values q)) None.

Definition update_query (updates : list string) : string :=
  ("UPDATE scraping_jobs SET " ++ String.concat ", " updates
   ++ " WHERE job_id = %s")%string.

Lemma job_updates_facts (status : option string)
  (mentions_found urls_processed : option Z) (error_message : option string) :
  (fst (job_updates status mentions_found urls_processed error_message) = []
   <-> nothing_given status mentions_found urls_processed error_message)
  /\ placeholders
       (update_query
          (fst (job_updates status mentions_found urls_processed
                  error_message)))
     = S (List.length
            (snd (job_updates status mentions_found urls_processed
                    error_message)))
  /\ contains "end_time = NOW()"
       (update_query
          (fst (job_updates status mentions_found urls_processed
                  error_message)))
     = finishes status.
Proof.
  unfold job_updates, nothing_given.
  destruct status as [[|a s]|];
    [| generalize (finishes (Some (String a s))); intros [|] |];
    destruct mentions_found, urls_processed, error_message as [[|b e]|];
    vm_compute; (split; [|split; reflexivity]);
    split; try discriminate; try (intros (? & ? & ? & ?); discriminate);
    intros _; now repeat split.
Qed.

Lemma finishes_iff (status : option string) :
  finishes status = true
  <-> status = Some "completed"%string \/ status = Some "failed"%string.
Proof.
  destruct status as [s|]; cbn.
  - rewrite orb_true_iff, !String.eqb_eq. split.
    + intros [->| ->]; auto.
    + intros [H|H]; injection H; auto.
  - split; [discriminate | intros [H|H]; discriminate].
Qed.

(** X24.  [update_scraping_job] sends no query, and answers [False],
    exactly when no field is given (a status or message that is [None]
    or empty does not count).  A query it sends has as many [%s] as
    values, the job id last; it sets [end_time] exactly when the status
    is "completed" or "failed"; and the answer is [True] exactly when
    the server took the query and the commit. *)
Theorem job_update_query (server : JobServer) (job_id : Z)
  (status : option string) (mentions_found urls_processed : option Z)
  (error_message : option string) :
  let r := update_scraping_job server job_id status mentions_found
             urls_processed error_message in
  (snd r = None
   <-> nothing_given status mentions_found urls_processed error_message)
  /\ (snd r = None -> fst r = false)
  /\ (forall q, snd r = Some q ->
        placeholders (sql q) = List.length (values q)
        /\ last_value q = Some (Number job_id)
        /\ (contains "end_time = NOW()" (sql q) = true
            <-> (status = Some "completed"%string
                 \/ status = Some "failed"%string))
        /\ (fst r = true
            <-> (execute_error server q = None
                 /\ job_commit_error server q = None))).
Proof.
  cbv zeta. unfold update_scraping_job.
  pose proof (job_updates_facts status mentions_found urls_processed
                error_message) as (Hnone & Hcount & Hend).
  destruct (job_updates status mentions_found urls_processed error_message)
    as [updates vals].
  cbn [fst snd] in *. fold (update_query updates).
  destruct updates as [|u rest].
  - split; [split; [intros _; now apply Hnone | reflexivity]|].
    split; [reflexivity | discriminate].
  - set (q := {| sql := update_query (u :: rest);
                 values := (vals ++ [Number job_id])%list |}).
    assert (Hq : forall b c : bool,
      snd (match execute_error server q with
           | Some _ => (b, Some q)
           | None => match job_commit_error server q with
                     | Some _ => (b, Some q)
                     | None => (c, Some q)
                     end
           end) = Some q)
      by (intros; destruct (execute_error server q);
          [|destruct (job_commit_error server q)]; reflexivity).
    rewrite Hq.
    split; [split; [discriminate | intro H; apply Hnone in H; discriminate]|].
    split; [discriminate|].
    intros q' E. injection E as <-. cbn [sql values q].
    rewrite Hcount, Hend, length_app. cbn [List.length].
    split; [lia|]. split.
    + unfold last_value, q. cbn [values]. rewrite map_app. cbn [map].
      apply last_last.
    + split; [apply finishes_iff|].
      destruct (execute_error server q);
        [|destruct (job_commit_error server q)]; cbn [fst];
        split; try discriminate; try tauto; intros [? ?]; discriminate.
Qed.

End JobFacts.

(** ** scraping_pipeline.py, further functions *)

Module Workers.

Import Config TextProcessor GoogleScraper Crawl4AIScraper DatabaseHandler.

(** The dictionary [scrape_celebrity_worker] returns. *)
Record WorkerResult := {
  worker_celebrity_id : Z;
  mentions : list Mention;
  failed_urls : list FailedUrl;
  worker_error : option string
}.

(** The three dictionaries with no mention and an error. *)
Definition without_mentions (id : Z) (error : string) : WorkerResult :=
  {| worker_celebrity_id := id;
     mentions := [];
     failed_urls := [];
     worker_error := Some error |}.

(** The database behind the pool: the committed rows of
    [celebrity_mentions] and, for the calls of [get_connection] to come,
    whether the pool fails to hand out a connection. *)
Record Database := {
  rows : list Row;
  refusals : list bool
}.

(** [DatabaseHandler.get_connection()]: a connection with no open
    transaction, or the [MySQLError] of the pool. *)
Definition get_connection (db : Database) : outcome Connection * Database :=
  match refusals db with
  | true :: rest =>
      (Raise (OtherException "MySQLError"),
       {| rows := rows db; refusals := rest |})
  | false :: rest =>
      (Return {| table := rows db; pending := [] |},
       {| rows := rows db; refusals := rest |})
  | [] => (Return {| table := rows db; pending := [] |}, db)
  end.

(** [DatabaseHandler.close_connection(connection)]: what was committed
    stays, an open transaction is dropped. *)
Definition close_connection (conn : Connection) (db : Database) : Database :=
  {| rows := table conn; refusals := refusals db |}.

Section Pipeline.

Variable World : Type.
Variable cfg : Config.t.
Variable platform : Platform World.

(** The session of the searcher and the crawler of the scraper. *)
Variable session_get : Params -> M World ApiResponse.
Variable arun : pystr -> M World (option CrawlResult).

(** [await self._init_crawler()]: the exception it ends in, if it does. *)
Variable init_crawler : World -> option exn.

(** [datetime.now().isoformat()] when the mention of index [n] is
    built. *)
Variable now_isoformat : nat -> string.

(** The database server, and the time of an insert. *)
Variable server : Server.
Variable insert_time : string.

Definition mention_of (id : Z) (n : nat) (page : ScrapedPage) : Mention :=
  {| celebrity_id := id;
     mention_url := original_url page;
     mention_text := page_cleaned_text page;
     mention_domain := page_domain page;
     mention_length := page_content_length page;
     mention_confidence := page_extraction_confidence page;
     mention_time_ms := page_processing_time_ms page;
     time_stamp := Some (now_isoformat n) |}.

(** [for result in results: ... mentions.append(mention)], from the
    mention of index [n] on. *)
Fixpoint build_mentions (id : Z) (n : nat) (results : list ScrapedPage)
  : list Mention :=
  match results with
  | [] => []
  | page :: rest => mention_of id n page :: build_mentions id (S n) rest
  end.

(** [scrape_celebrity_worker({'celebrity_id': id, 'name': name})], run
    as the pipeline runs it, outside an event loop, so that
    [Crawl4AIScraper.scrape_urls] runs [scrape_urls_async] to its end.
    A new searcher starts at the first key. *)
Definition scrape_celebrity_worker (id : Z) (name : pystr) (w : World)
  : WorkerResult * World :=
  let run := search_google cfg session_get name (new_searcher cfg, w) in
  let w1 := snd (final run) in
  match result run with
  | Raise e =>
      (without_mentions id ("Google search failed: " ++ str platform e), w1)
  | Return [] => (without_mentions id "No search results found", w1)
  | Return urls =>
      match init_crawler w1 with
      | Some e =>
          (without_mentions id ("Worker error: " ++ str platform e), w1)
      | None =>
          let '((results, failed), w2) :=
            scrape_urls_async cfg platform arun urls w1 in
          ({| worker_celebrity_id := id;
              mentions := build_mentions id 0 results;
              failed_urls := failed;
              worker_error := None |}, w2)
      end
  end.

(** [BatchScraper._batch_insert_mentions(mentions)] *)
Definition _batch_insert_mentions (mentions : list Mention) (db : Database)
  : (Z * Z) * Database :=
  match mentions with
  | [] => ((0, 0)%Z, db)
  | _ =>
      match get_connection db with
      | (Return conn, db') =>
          let '(counts, conn') :=
            batch_insert_mentions server insert_time conn mentions in
          (counts, close_connection conn' db')
      | (Raise _, db') => ((0, len mentions)%Z, db')
      end
  end.

(** The body of [for future in as_completed(futures)] in [scrape_batch],
    over what [future.result] gives for each future in the order in
    which they complete; a future whose result raises is passed over. *)
Fixpoint collect (completed : list (outcome WorkerResult))
  (total_mentions total_failed_urls : Z) (all_failed_urls : list FailedUrl)
  (db : Database) : (Z * Z * list FailedUrl) * Database :=
  match completed with
  | [] => ((total_mentions, total_failed_urls, all_failed_urls), db)
  | Raise _ :: rest =>
      collect rest total_mentions total_failed_urls all_failed_urls db
  | Return result :: rest =>
      let '(total_mentions, db) :=
        match mentions result with
        | [] => (total_mentions, db)
        | _ =>
            let '((inserted, skipped), db') :=
              _batch_insert_mentions (mentions result) db in
            ((total_mentions + inserted)%Z, db')
        end in
      let '(total_failed_urls, all_failed_urls) :=
        match failed_urls result with
        | [] => (total_failed_urls, all_failed_urls)
        | _ =>
            ((total_failed_urls + len (failed_urls result))%Z,
             (all_failed_urls ++ failed_urls result)%list)
        end in
      collect rest total_mentions total_failed_urls all_failed_urls db
  end.

(** [BatchScraper.scrape_batch(celebrities)], given what the pool of
    worker processes does: it fails to start, or every future
    completes. *)
Definition scrape_batch (pool : outcome (list (outcome WorkerResult)))
  (db : Database) : (Z * Z * list FailedUrl) * Database :=
  match pool with
  | Return completed => collect completed 0 0 [] db
  | Raise _ => ((0, 0, [])%Z, db)
  end.

(** [BatchScraper.scrape_celebrity_single(celebrity_id, name)] *)
Definition scrape_celebrity_single (id : Z) (name : pystr)
  (st : World * Database) : (Z * Z * list FailedUrl) * (World * Database) :=
  let '(result, w) := scrape_celebrity_worker id name (fst st) in
  let '(inserted, db) :=
    match mentions result with
    | [] => (0%Z, snd st)
    | _ =>
        let '((inserted, skipped), db) :=
          _batch_insert_mentions (mentions result) (snd st) in
        (inserted, db)
    end in
  ((inserted, len (failed_urls result), failed_urls result), (w, db)).

End Pipeline.

End Workers.

Module WorkerFacts.

Import Config TextProcessor GoogleScraper Crawl4AIScraper DatabaseHandler.
Import StoreFacts Workers.

(** The results that came back from their futures. *)
Fixpoint returned (completed : list (outcome WorkerResult))
  : list WorkerResult :=
  match completed with
  | [] => []
  | Return result :: rest => result :: returned rest
  | Raise _ :: rest => returned rest
  end.

(** A mention as the worker builds them. *)
Definition built_for (id : Z) (m : Mention) : Prop :=
  celebrity_id m = id
  /\ mention_length m = len (mention_text m)
  /\ time_stamp m <> None.

Lemma build_mentions_spec (now_isoformat : nat -> string) (id : Z)
  (results : list ScrapedPage) :
  forall n,
  List.length (build_mentions now_isoformat id n results)
  = List.length results
  /\ map mention_url (build_mentions now_isoformat id n results)
     = map original_url results
  /\ (Forall FetchExtras.page_consistent results ->
      Forall (built_for id) (build_mentions now_isoformat id n results)).
Proof.
  induction results as [|page rest IH]; intro n; cbn.
  - repeat split. constructor.
  - destruct (IH (S n)) as (H1 & H2 & H3). rewrite H1, H2.
    repeat split. intro H. apply Forall_cons_iff in H as [Hp Hrest].
    constructor; [|now apply H3].
    unfold built_for, FetchExtras.page_consistent in *. cbn.
    repeat split; [exact Hp | discriminate].
Qed.

Section Crawl.

Variable World : Type.
Variable cfg : Config.t.
Variable platform : Platform World.
Variable arun : pystr -> M World (option CrawlResult).

(** What the worker relies on from [scrape_urls_async]. *)
Lemma scrape_urls_async_summary (urls : list pystr) (w : World) :
  (List.length (fst (fst (scrape_urls_async cfg platform arun urls w)))
   + List.length (snd (fst (scrape_urls_async cfg platform arun urls w)))
   = List.length urls)%nat
  /\ Forall FetchExtras.page_consistent
       (fst (fst (scrape_urls_async cfg platform arun urls w)))
  /\ Forall FetchExtras.failure_classified
       (snd (fst (scrape_urls_async cfg platform arun urls w))).
Proof.
  unfold scrape_urls_async. destruct urls as [|u rest] eqn:E.
  - cbn. repeat split; constructor.
  - rewrite <- E.
    pose proof (FetchExtras.gather_well_formed World cfg platform arun urls w)
      as Hwf.
    pose proof (FetchFacts.gather_length World cfg platform arun urls w)
      as Hlen.
    destruct (gather cfg platform arun urls w) as [results w'].
    cbn [fst snd] in *. split.
    + destruct (FetchFacts.separate_accounted cfg urls results [] [] Hlen)
        as [H _]. exact H.
    + rewrite FetchExtras.separate_partition. cbn [fst snd app].
      apply FetchExtras.pages_of_consistent.
      now rewrite FetchExtras.map_snd_combine.
Qed.

End Crawl.

(** X25.  What a worker hands back: the id it was given; with an error,
    no mention and no failed URL; without one, the search has returned
    URLs, at least one, and there is a mention or a failed URL for each
    of them.  Every mention carries the worker's id, the length of its
    own text as content length and a time stamp, and every failed URL
    the status "failed", "timeout" or "error". *)
Theorem worker_result_accounts (World : Type) (cfg : Config.t)
  (platform : Platform World) (session_get : Params -> M World ApiResponse)
  (arun : pystr -> M World (option CrawlResult))
  (init_crawler : World -> option exn) (now_isoformat : nat -> string)
  (id : Z) (name : pystr) (w : World) :
  let r := fst (scrape_celebrity_worker World cfg platform session_get arun
                  init_crawler now_isoformat id name w) in
  worker_celebrity_id r = id
  /\ (worker_error r <> None -> mentions r = [] /\ failed_urls r = [])
  /\ (worker_error r = None ->
      exists urls,
        result (search_google cfg session_get name (new_searcher cfg, w))
        = Return urls
        /\ urls <> []
        /\ (List.length (mentions r) + List.length (failed_urls r)
            = List.length urls)%nat)
  /\ Forall (built_for id) (mentions r)
  /\ Forall FetchExtras.failure_classified (failed_urls r).
Proof.
  cbv zeta. unfold scrape_celebrity_worker.
  destruct (result (search_google cfg session_get name (new_searcher cfg, w)))
    as [[|u urls]|e] eqn:Esearch;
    try (cbn; repeat split; try discriminate; constructor).
  destruct (init_crawler _);
    try (cbn; repeat split; try discriminate; constructor).
  pose proof (scrape_urls_async_summary World cfg platform arun (u :: urls)
                (snd (final (search_google cfg session_get name
                               (new_searcher cfg, w)))))
    as (Hlen & Hpages & Hfailures).
  destruct (scrape_urls_async cfg platform arun (u :: urls) _)
    as [[results failed] w2].
  cbn [fst snd worker_celebrity_id mentions failed_urls worker_error] in *.
  destruct (build_mentions_spec now_isoformat id results 0%nat)
    as (Hb1 & _ & Hb3).
  split; [reflexivity|]. split; [intro H; now contradiction H|].
  split; [|split; [now apply Hb3 | exact Hfailures]].
  intros _. exists (u :: urls). split; [reflexivity|].
  split; [discriminate|]. now rewrite Hb1.
Qed.

Section Store.

Variable server : Server.
Variable insert_time : string.

(** What a batch leaves in the table: the new rows after the rows that
    were visible when the commit went through, the table as it was when
    it did not. *)
Lemma batch_insert_mentions_table (conn : Connection)
  (mentions : list Mention) :
  let r := batch_insert_mentions server insert_time conn mentions in
  (fst (fst r) + snd (fst r) = len mentions)%Z
  /\ (0 <= fst (fst r))%Z
  /\ exists added,
       len added = fst (fst r)
       /\ match commit_error server (table conn) (pending conn ++ added) with
          | None => table (snd r) = (visible conn ++ added)%list
          | Some _ => table (snd r) = table conn
          end.
Proof.
  cbv zeta. unfold batch_insert_mentions.
  pose proof (insert_loop_spec server insert_time mentions 0 0 conn)
    as (Hsum & _ & Hpos & _).
  pose proof (StoreExtras.insert_loop_pending server insert_time mentions
                0 0 conn) as H.
  cbv zeta in H. destruct H as (added & H1 & H2 & H3 & _).
  destruct (insert_loop server insert_time mentions 0 0 conn)
    as [[inserted skipped] conn'].
  cbn [fst snd] in *. rewrite H1, H2.
  assert (Hcounts : forall c1 c2 : Connection,
    fst (match commit_error server (table conn) (pending conn ++ added) with
         | Some _ => ((inserted, skipped), c1)
         | None => ((inserted, skipped), c2)
         end) = (inserted, skipped))
    by (intros; now destruct (commit_error _ _ _)).
  rewrite Hcounts. cbn [fst snd].
  split; [lia|]. split; [lia|]. exists added. split; [lia|].
  destruct (commit_error _ _ _); cbn [snd rollback commit table].
  - exact H2.
  - unfold visible. now rewrite H1, H2, app_assoc.
Qed.

(** What [_batch_insert_mentions] does to the database: the rows it
    had stay, and the new ones are as many as the mentions counted as
    inserted, or none when the commit failed. *)
Lemma pipeline_insert_rows (mentions : list Mention) (db : Database) :
  let r := _batch_insert_mentions server insert_time mentions db in
  (fst (fst r) + snd (fst r) = len mentions)%Z
  /\ (0 <= fst (fst r))%Z
  /\ (0 <= snd (fst r))%Z
  /\ (forall e, fst (get_connection db) = Raise e ->
      fst r = (0, len mentions)%Z /\ rows (snd r) = rows db)
  /\ exists added,
       rows (snd r) = (rows db ++ added)%list
       /\ (len added = fst (fst r) \/ added = [])
       /\ ((forall stored new, commit_error server stored new = None) ->
           len added = fst (fst r)).
Proof.
  cbv zeta. unfold _batch_insert_mentions.
  destruct mentions as [|m rest] eqn:E.
  - cbn. repeat split; try lia.
    exists []. rewrite app_nil_r. repeat split; now left.
  - rewrite <- E.
    assert (Hrows : rows (snd (get_connection db)) = rows db)
      by (unfold get_connection; destruct (refusals db) as [|[|] ?];
          reflexivity).
    assert (Hconn : forall conn, fst (get_connection db) = Return conn ->
                    conn = {| table := rows db; pending := [] |})
      by (unfold get_connection; destruct (refusals db) as [|[|] ?];
          cbn; intros conn H; congruence).
    destruct (get_connection db) as [[conn|e] db']; cbn [fst snd] in *.
    + rewrite (Hconn conn eq_refl).
      pose proof (batch_insert_mentions_table
                    {| table := rows db; pending := [] |} mentions) as H.
      cbv zeta in H. destruct H as (Hsum & Hpos & added & Hlen & Htable).
      assert (Hskipped :
        (0 <= snd (fst (batch_insert_mentions server insert_time
                          {| table := rows db; pending := [] |} mentions)))%Z).
      { unfold batch_insert_mentions.
        pose proof (insert_loop_spec server insert_time mentions 0 0
                      {| table := rows db; pending := [] |}) as Hloop.
        cbv zeta in Hloop. destruct Hloop as (_ & Hskip & _).
        assert (0 <= already_stored
                       (visible {| table := rows db; pending := [] |})
                       mentions)%Z by (unfold already_stored, len; lia).
        destruct (insert_loop server insert_time mentions 0 0 _)
          as [[i k] c].
        cbn [fst snd] in Hskip.
        destruct (commit_error server (table c) (pending c));
          cbn [fst snd]; lia. }
      destruct (batch_insert_mentions server insert_time _ mentions)
        as [[inserted skipped] conn'].
      cbn [fst snd close_connection rows table pending visible app] in *.
      split; [exact Hsum|]. split; [exact Hpos|]. split; [exact Hskipped|].
      split; [discriminate|].
      destruct (commit_error server (rows db) added) eqn:Ecommit.
      * exists []. rewrite app_nil_r. split; [exact Htable|].
        split; [now right|]. intro Hcommit.
        rewrite Hcommit in Ecommit. discriminate.
      * exists added. rewrite app_nil_r in Htable.
        split; [exact Htable|]. split; [now left | now intros _].
    + split; [lia|]. split; [lia|].
      split; [unfold len; lia|]. split; [now intros _ _|].
      exists []. rewrite app_nil_r.
      split; [exact Hrows|]. split; [now left | now intros _].
Qed.

(** The loop over the completed futures, with what it started from. *)
Lemma collect_spec (completed : list (outcome WorkerResult)) :
  forall total_mentions total_failed_urls all_failed_urls db,
  let r := collect server insert_time completed total_mentions
             total_failed_urls all_failed_urls db in
  snd (fst (fst r))
  = (total_failed_urls + len (flat_map failed_urls (returned completed)))%Z
  /\ snd (fst r)
     = (all_failed_urls ++ flat_map failed_urls (returned completed))%list
  /\ (total_mentions <= fst (fst (fst r))
      <= total_mentions + len (flat_map mentions (returned completed)))%Z
  /\ exists added,
       rows (snd r) = (rows db ++ added)%list
       /\ (len added <= fst (fst (fst r)) - total_mentions)%Z
       /\ ((forall stored new, commit_error server stored new = None) ->
           len added = (fst (fst (fst r)) - total_mentions)%Z).
Proof.
  induction completed as [|[result|e] rest IH];
    intros total_mentions total_failed_urls all_failed_urls db; cbv zeta.
  - cbn. rewrite app_nil_r. repeat split; try lia.
    exists []. rewrite app_nil_r. repeat split; cbn; lia.
  - cbn [collect returned flat_map].
    pose proof (pipeline_insert_rows (mentions result) db) as H.
    cbv zeta in H.
    destruct H as (Hsum & Hpos & Hskip & _ & added & Hrows & Hor & Hcommit).
    set (inserted_db :=
           match mentions result with
           | [] => (total_mentions, db)
           | _ :: _ =>
               let '(inserted, _, db') :=
                 _batch_insert_mentions server insert_time (mentions result)
                   db in
               ((total_mentions + inserted)%Z, db')
           end).
    assert (Hins :
      inserted_db
      = ((total_mentions
          + fst (fst (_batch_insert_mentions server insert_time
                        (mentions result) db)))%Z,
         snd (_batch_insert_mentions server insert_time (mentions result)
                db))).
    { unfold inserted_db. destruct (mentions result) eqn:Em.
      - cbn. now rewrite Z.add_0_r.
      - now destruct (_batch_insert_mentions _ _ _ _) as [[? ?] ?]. }
    rewrite Hins. clear Hins inserted_db.
    set (failed :=
           match failed_urls result with
           | [] => (total_failed_urls, all_failed_urls)
           | _ :: _ =>
               ((total_failed_urls + len (failed_urls result))%Z,
                (all_failed_urls ++ failed_urls result)%list)
           end).
    assert (Hfailed :
      failed
      = ((total_failed_urls + len (failed_urls result))%Z,
         (all_failed_urls ++ failed_urls result)%list)).
    { unfold failed. destruct (failed_urls result).
      - cbn. now rewrite Z.add_0_r, app_nil_r.
      - reflexivity. }
    rewrite Hfailed. clear Hfailed failed.
    destruct (IH (total_mentions
                  + fst (fst (_batch_insert_mentions server insert_time
                                (mentions result) db)))%Z
                (total_failed_urls + len (failed_urls result))%Z
                (all_failed_urls ++ failed_urls result)%list
                (snd (_batch_insert_mentions server insert_time
                        (mentions result) db)))
      as (I1 & I2 & I3 & more & I4 & I5 & I6).
    unfold len in *. rewrite !length_app in *.
    split; [rewrite I1; lia|].
    split; [rewrite I2; now rewrite app_assoc|].
    split; [lia|].
    exists (added ++ more)%list. rewrite I4, Hrows, app_assoc, length_app.
    split; [reflexivity|]. split.
    + destruct Hor as [Hlen| ->]; cbn [List.length]; lia.
    + intro Hc. specialize (Hcommit Hc). specialize (I6 Hc). lia.
  - cbn [collect returned]. apply IH.
Qed.

(** X26.  [_batch_insert_mentions] counts every mention once, as
    inserted or as skipped, whether or not the pool hands out a
    connection; without a connection all are skipped and the database
    is as before.  The rows of the database stay, with their keys
    distinct if they were, and the new rows are as many as the mentions
    counted as inserted, or none when the commit failed. *)
Theorem pipeline_insert_counts (mentions : list Mention) (db : Database) :
  let r := _batch_insert_mentions server insert_time mentions db in
  let inserted := fst (fst r) in
  let skipped := snd (fst r) in
  (inserted + skipped = len mentions)%Z
  /\ (0 <= inserted <= len mentions)%Z
  /\ (0 <= skipped <= len mentions)%Z
  /\ (forall e, fst (get_connection db) = Raise e ->
      inserted = 0%Z /\ skipped = len mentions /\ rows (snd r) = rows db)
  /\ (unique_rows (rows db) -> unique_rows (rows (snd r)))
  /\ exists added,
       rows (snd r) = (rows db ++ added)%list
       /\ (len added = inserted \/ added = [])
       /\ ((forall stored new, commit_error server stored new = None) ->
           len added = inserted).
Proof.
  cbv zeta.
  pose proof (pipeline_insert_rows mentions db) as H. cbv zeta in H.
  destruct H as (Hsum & Hpos & Hskip & Hrefused & Hrows).
  split; [exact Hsum|]. split; [lia|]. split; [lia|].
  split; [|split; [|exact Hrows]].
  - intros e He. destruct (Hrefused e He) as [Hcounts Hsame].
    rewrite Hcounts. now repeat split.
  - intro Hunique. unfold _batch_insert_mentions.
    destruct mentions as [|m rest] eqn:E; [exact Hunique|].
    rewrite <- E. unfold get_connection.
    assert (Hkept :
      unique_rows
        (rows (let '(counts, conn') :=
                 batch_insert_mentions server insert_time
                   {| table := rows db; pending := [] |} mentions in
               snd (counts, close_connection conn' db)))).
    { pose proof (insert_loop_spec server insert_time mentions 0 0
                    {| table := rows db; pending := [] |}) as Hloop.
      cbv zeta in Hloop. destruct Hloop as (_ & _ & _ & Htable & Hkeep).
      unfold batch_insert_mentions.
      destruct (insert_loop server insert_time mentions 0 0 _)
        as [counts c].
      cbn [fst snd] in *.
      assert (Hvisible : unique_rows (visible c))
        by (apply Hkeep; unfold visible; cbn; now rewrite app_nil_r).
      destruct (commit_error server (table c) (pending c));
        cbn [snd close_connection rows rollback commit table].
      - rewrite Htable. exact Hunique.
      - exact Hvisible. }
    destruct (refusals db) as [|[|] rest']; cbn [fst snd rows];
      try exact Hunique;
      destruct (batch_insert_mentions server insert_time _ mentions)
        as [counts conn']; exact Hkept.
Qed.

(** X27.  [scrape_batch] returns as its count of failed URLs the length
    of the list it returns, which holds the failed URLs of the workers
    that came back, in the order of their completion.  Its count of
    mentions is never more than the mentions those workers found, nor
    less than the rows the database has gained, which are as many as
    the count when every commit goes through. *)
Theorem scrape_batch_totals (pool : outcome (list (outcome WorkerResult)))
  (db : Database) :
  let r := scrape_batch server insert_time pool db in
  let total_mentions := fst (fst (fst r)) in
  let total_failed_urls := snd (fst (fst r)) in
  let all_failed_urls := snd (fst r) in
  total_failed_urls = len all_failed_urls
  /\ (forall completed, pool = Return completed ->
      all_failed_urls = flat_map failed_urls (returned completed)
      /\ (total_mentions
          <= len (flat_map mentions (returned completed)))%Z)
  /\ (0 <= total_mentions)%Z
  /\ exists added,
       rows (snd r) = (rows db ++ added)%list
       /\ (len added <= total_mentions)%Z
       /\ ((forall stored new, commit_error server stored new = None) ->
           len added = total_mentions).
Proof.
  cbv zeta. unfold scrape_batch. destruct pool as [completed|e].
  - pose proof (collect_spec completed 0 0 [] db) as H. cbv zeta in H.
    destruct H as (H1 & H2 & H3 & added & H4 & H5 & H6).
    cbn [app] in H2. rewrite H1, H2.
    split; [lia|]. split.
    + intros completed' E. injection E as <-. split; [reflexivity | lia].
    + split; [lia|]. exists added. split; [exact H4|].
      split; [lia|]. intro Hc. rewrite (H6 Hc). lia.
  - cbn. split; [reflexivity|]. split; [discriminate|]. split; [lia|].
    exists []. rewrite app_nil_r. repeat split; cbn; lia.
Qed.

End Store.

(** The two ways a worker ends: with nothing, or with an entry for
    every URL the search returned. *)
Lemma worker_cases (World : Type) (cfg : Config.t)
  (platform : Platform World) (session_get : Params -> M World ApiResponse)
  (arun : pystr -> M World (option CrawlResult))
  (init_crawler : World -> option exn) (now_isoformat : nat -> string)
  (id : Z) (name : pystr) (w : World) :
  let r := fst (scrape_celebrity_worker World cfg platform session_get arun
                  init_crawler now_isoformat id name w) in
  (mentions r = [] /\ failed_urls r = [])
  \/ exists urls,
       result (search_google cfg session_get name (new_searcher cfg, w))
       = Return urls
       /\ (List.length (mentions r) + List.length (failed_urls r)
           = List.length urls)%nat.
Proof.
  cbv zeta. unfold scrape_celebrity_worker.
  destruct (result (search_google cfg session_get name (new_searcher cfg, w)))
    as [[|u urls]|e] eqn:Esearch; try (left; now split).
  destruct (init_crawler _); try (left; now split).
  pose proof (scrape_urls_async_summary World cfg platform arun (u :: urls)
                (snd (final (search_google cfg session_get name
                               (new_searcher cfg, w)))))
    as (Hlen & _ & _).
  destruct (scrape_urls_async cfg platform arun (u :: urls) _)
    as [[results failed] w2].
  cbn [fst snd mentions failed_urls] in *.
  destruct (build_mentions_spec now_isoformat id results 0%nat)
    as (Hb1 & _ & _).
  right. exists (u :: urls). split; [reflexivity|]. now rewrite Hb1.
Qed.

(** X28.  [scrape_celebrity_single] returns the number of failed URLs
    beside their list.  When it reports anything, the search has
    returned URLs, at least as many as the mentions inserted and the
    failed URLs together; and the database gains at most as many rows as
    the mentions it reports inserted, exactly as many when the commit
    goes through. *)
Theorem single_scrape_counts (World : Type) (cfg : Config.t)
  (platform : Platform World) (session_get : Params -> M World ApiResponse)
  (arun : pystr -> M World (option CrawlResult))
  (init_crawler : World -> option exn) (now_isoformat : nat -> string)
  (server : Server) (insert_time : string) (id : Z) (name : pystr)
  (st : World * Database) :
  let r := scrape_celebrity_single World cfg platform session_get arun
             init_crawler now_isoformat server insert_time id name st in
  let inserted := fst (fst (fst r)) in
  let failed := snd (fst (fst r)) in
  failed = len (snd (fst r))
  /\ (0 <= inserted)%Z
  /\ ((0 < inserted + failed)%Z ->
      exists urls,
        result (search_google cfg session_get name (new_searcher cfg, fst st))
        = Return urls
        /\ (inserted + failed <= len urls)%Z)
  /\ exists added,
       rows (snd (snd r)) = (rows (snd st) ++ added)%list
       /\ (len added <= inserted)%Z
       /\ ((forall stored new, commit_error server stored new = None) ->
           len added = inserted).
Proof.
  cbv zeta. unfold scrape_celebrity_single.
  destruct st as [w db]. cbn [fst snd].
  pose proof (worker_cases World cfg platform session_get arun init_crawler
                now_isoformat id name w) as Hworker.
  cbv zeta in Hworker.
  destruct (scrape_celebrity_worker World cfg platform session_get arun
              init_crawler now_isoformat id name w) as [worker w'].
  cbn [fst] in Hworker.
  pose proof (pipeline_insert_rows server insert_time (mentions worker) db)
    as H.
  cbv zeta in H.
  destruct H as (Hsum & Hpos & Hskip & _ & added & H1 & H2 & H3).
  set (inserted_db :=
         match mentions worker with
         | [] => (0%Z, db)
         | _ :: _ =>
             let '(inserted, _, db0) :=
               _batch_insert_mentions server insert_time (mentions worker)
                 db in
             (inserted, db0)
         end).
  assert (Hins :
    inserted_db
    = (fst (fst (_batch_insert_mentions server insert_time (mentions worker)
                   db)),
       snd (_batch_insert_mentions server insert_time (mentions worker) db))).
  { unfold inserted_db. destruct (mentions worker) eqn:Em.
    - reflexivity.
    - now destruct (_batch_insert_mentions _ _ _ _) as [[? ?] ?]. }
  rewrite Hins. cbn [fst snd].
  split; [reflexivity|]. split; [exact Hpos|]. split.
  - intro Hsome. destruct Hworker as [[Hm Hf]|(urls & Hsearch & Hlen)].
    + rewrite Hm, Hf in *. cbn in *. lia.
    + exists urls. split; [exact Hsearch|]. unfold len in *. lia.
  - exists added. split; [exact H1|]. split; [|exact H3].
    destruct H2 as [H2| ->]; [lia | cbn; lia].
Qed.

End WorkerFacts.


Module Campaign.

Import Config GoogleScraper DatabaseHandler ScrapingPipeline Jobs Workers.

(** A row of [celebrities]: its id and its name. *)
Definition Celebrity : Type := Z * pystr.

Section All.

Variable cfg : Config.t.
Variable server : Server.
Variable insert_time : string.
Variable job_server : JobServer.

(** What [get_all_celebrities] returns, the empty list when its query
    fails; what [get_scraping_job_id] returns or raises; and what the
    process pool of the batch of index [batch_idx] gives. *)
Variable all_celebrities : list Celebrity.
Variable new_job : outcome Z.
Variable pools : Z -> list Celebrity -> outcome (list (outcome WorkerResult)).

(** The database and the queries sent to [scraping_jobs] so far. *)
Definition PipelineState : Type := Database * list Query.

Definition connect : M PipelineState Connection :=
  fun st =>
    let '(o, db) := get_connection (fst st) in (o, (db, snd st)).

Definition update_job (job_id : Z) (status : option string)
  (mentions_found urls_processed : option Z) : M PipelineState bool :=
  fun st =>
    let '(answer, sent) :=
      update_scraping_job job_server job_id status mentions_found
        urls_processed None in
    (Return answer,
     (fst st,
      (snd st ++ match sent with Some q => [q] | None => [] end)%list)).

Definition run_batch (batch_idx : Z) (batch : list Celebrity)
  : M PipelineState (Z * Z * list FailedUrl) :=
  fun st =>
    let '(r, db) :=
      scrape_batch server insert_time (pools batch_idx batch) (fst st) in
    (Return r, (db, snd st)).

(** [for batch_idx, batch in enumerate(batches, 1)], with the totals so
    far. *)
Fixpoint batch_loop (job_id : Z) (batches : list (list Celebrity))
  (batch_idx : Z) (total_mentions total_failed_urls : Z)
  (all_failed_urls : list FailedUrl)
  : M PipelineState (Z * Z * list FailedUrl) :=
  match batches with
  | [] => ret (total_mentions, total_failed_urls, all_failed_urls)
  | batch :: rest =>
      r <- run_batch batch_idx batch ;;
      let '(mentions, failed_urls, failed_url_list) := r in
      let total_mentions := (total_mentions + mentions)%Z in
      let total_failed_urls := (total_failed_urls + failed_urls)%Z in
      let all_failed_urls := (all_failed_urls ++ failed_url_list)%list in
      connect ;;;
      update_job job_id None (Some total_mentions)
        (Some (batch_idx * CELEBRITIES_PER_BATCH cfg * 20)%Z) ;;;
      batch_loop job_id rest (batch_idx + 1) total_mentions
        total_failed_urls all_failed_urls
  end.

(** [scrape_all_celebrities()] *)
Definition scrape_all_celebrities (st : PipelineState)
  : (Z * Z * list FailedUrl) * PipelineState :=
  let body : M PipelineState (Z * Z * list FailedUrl) :=
    connect ;;;
    let celebrities := all_celebrities in
    match celebrities with
    | [] => ret (0, 0, [])%Z
    | _ =>
        connect ;;;
        job_id <- lift new_job ;;
        batches <-
          lift (split_into_batches celebrities (CELEBRITIES_PER_BATCH cfg)) ;;
        totals <- batch_loop job_id batches 1 0 0 [] ;;
        connect ;;;
        update_job job_id (Some "completed"%string)
          (Some (fst (fst totals))) (Some (len celebrities * 20)%Z) ;;;
        ret totals
    end in
  match body st with
  | (Return totals, st') => (totals, st')
  | (Raise _, st') => ((0, 0, [])%Z, st')
  end.

End All.

End Campaign.

Module CampaignFacts.

Import Config GoogleScraper DatabaseHandler ScrapingPipeline Jobs Workers.
Import WorkerFacts Campaign.

(** Whether a query sets [end_time]. *)
Definition sets_end_time (q : Query) : bool :=
  contains "end_time = NOW()" (sql q).

Section All.

Variable cfg : Config.t.
Variable server : Server.
Variable insert_time : string.
Variable job_server : JobServer.
Variable all_celebrities : list Celebrity.
Variable new_job : outcome Z.
Variable pools : Z -> list Celebrity -> outcome (list (outcome WorkerResult)).

(** Every [COMMIT] of a batch of mentions goes through. *)
Definition commits : Prop :=
  forall stored new, commit_error server stored new = None.

Lemma insert_keeps_pool (mentions : list Mention) (db : Database) :
  refusals db = [] ->
  refusals (snd (_batch_insert_mentions server insert_time mentions db)) = [].
Proof.
  intro H. unfold _batch_insert_mentions, get_connection. rewrite H.
  destruct mentions; [exact H|].
  destruct (batch_insert_mentions _ _ _ _) as [counts conn']. exact H.
Qed.

Lemma collect_keeps_pool (completed : list (outcome WorkerResult)) :
  forall total_mentions total_failed_urls all_failed_urls db,
  refusals db = [] ->
  refusals (snd (collect server insert_time completed total_mentions
                   total_failed_urls all_failed_urls db)) = [].
Proof.
  induction completed as [|[result|e] rest IH];
    intros total_mentions total_failed_urls all_failed_urls db H;
    cbn [collect]; [exact H | | now apply IH].
  pose proof (insert_keeps_pool (mentions result) db H) as Hkeep.
  destruct (mentions result) eqn:Em.
  - destruct (failed_urls result); now apply IH.
  - destruct (_batch_insert_mentions _ _ _ _) as [[inserted skipped] db'].
    cbn [snd] in Hkeep. destruct (failed_urls result); now apply IH.
Qed.

(** One batch: the totals it returns and what it does to the database. *)
Lemma run_batch_spec (batch_idx : Z) (batch : list Celebrity)
  (st : PipelineState) :
  exists mentions failed_urls failed_url_list db added,
    run_batch server insert_time pools batch_idx batch st
    = (Return (mentions, failed_urls, failed_url_list), (db, snd st))
    /\ failed_urls = len failed_url_list
    /\ rows db = (rows (fst st) ++ added)%list
    /\ (len added <= mentions)%Z
    /\ (commits -> len added = mentions)
    /\ (refusals (fst st) = [] -> refusals db = []).
Proof.
  unfold run_batch, scrape_batch.
  destruct (pools batch_idx batch) as [completed|e].
  - pose proof (collect_spec server insert_time completed 0 0 []
                  (fst st)) as H.
    cbv zeta in H. destruct H as (H1 & H2 & H3 & added & H4 & H5 & H6).
    pose proof (collect_keeps_pool completed 0 0 [] (fst st)) as Hpool.
    destruct (collect server insert_time completed 0 0 [] (fst st))
      as [[[mentions failed_urls] failed_url_list] db].
    cbn [fst snd app] in *.
    exists mentions, failed_urls, failed_url_list, db, added.
    split; [reflexivity|]. split; [rewrite H1, H2; lia|].
    split; [exact H4|]. split; [lia|]. split; [|exact Hpool].
    intro Hc. rewrite (H6 Hc). lia.
  - exists 0%Z, 0%Z, [], (fst st), [].
    rewrite app_nil_r. repeat split; cbn; auto; lia.
Qed.

Lemma connect_spec (st : PipelineState) :
  exists o db,
    connect st = (o, (db, snd st))
    /\ rows db = rows (fst st)
    /\ (refusals (fst st) = [] -> db = fst st /\ exists conn, o = Return conn).
Proof.
  unfold connect, get_connection.
  destruct (refusals (fst st)) as [|[|] rest] eqn:E; eexists; eexists;
    (split; [reflexivity|]); (split; [reflexivity|]);
    intro H; try discriminate.
  split; [reflexivity | eauto].
Qed.

(** A progress update sends one query, which leaves [end_time] alone;
    the last update sends one that sets it. *)
Lemma update_job_spec (job_id : Z) (status : option string)
  (mentions_found urls_processed : Z) (st : PipelineState) :
  status = None \/ status = Some "completed"%string ->
  exists answer q,
    update_job job_server job_id status (Some mentions_found)
      (Some urls_processed) st
    = (Return answer, (fst st, (snd st ++ [q])%list))
    /\ sets_end_time q
       = match status with Some _ => true | None => false end.
Proof.
  intros [-> | ->]; unfold update_job, update_scraping_job; cbn;
    destruct (execute_error job_server _);
    try destruct (job_commit_error job_server _);
    eexists; eexists; (split; [reflexivity|]); reflexivity.
Qed.

Lemma batch_loop_spec (job_id : Z) (batches : list (list Celebrity)) :
  forall batch_idx total_mentions total_failed_urls all_failed_urls st,
  total_failed_urls = len all_failed_urls ->
  let r := batch_loop cfg server insert_time job_server pools job_id batches
             batch_idx total_mentions total_failed_urls all_failed_urls st in
  exists added,
    rows (fst (snd r)) = (rows (fst st) ++ added)%list
    /\ match fst r with
       | Return (mentions, failed_urls, failed_url_list) =>
           failed_urls = len failed_url_list
           /\ (len added <= mentions - total_mentions)%Z
           /\ (commits -> len added = (mentions - total_mentions)%Z)
       | Raise _ => True
       end
    /\ (refusals (fst st) = [] ->
        refusals (fst (snd r)) = []
        /\ (exists totals, fst r = Return totals)
        /\ exists sent,
             snd (snd r) = (snd st ++ sent)%list
             /\ map sets_end_time sent
                = repeat false (List.length batches)).
Proof.
  induction batches as [|batch rest IH];
    intros batch_idx total_mentions total_failed_urls all_failed_urls st Hf;
    cbv zeta.
  - cbn. exists []. rewrite app_nil_r. split; [reflexivity|].
    split; [repeat split; auto; cbn; lia|].
    intro H. split; [exact H|]. split; [eauto|].
    exists []. now rewrite app_nil_r.
  - destruct (run_batch_spec batch_idx batch st)
      as (mentions & failed_urls & failed_url_list & db & added
          & Erun & Hfailed & Hrows & Hle & Hcommit & Hpool).
    destruct (connect_spec (db, snd st))
      as (o & db' & Econnect & Hrows' & Hpool').
    cbn [fst snd] in *.
    destruct o as [conn|e].
    + destruct (update_job_spec job_id None (total_mentions + mentions)
                  (batch_idx * CELEBRITIES_PER_BATCH cfg * 20)
                  (db', snd st) (or_introl eq_refl))
        as (answer & q & Eupdate & Hq).
      cbn [fst snd] in *.
      assert (Estep :
        batch_loop cfg server insert_time job_server pools job_id
          (batch :: rest) batch_idx total_mentions total_failed_urls
          all_failed_urls st
        = batch_loop cfg server insert_time job_server pools job_id rest
            (batch_idx + 1) (total_mentions + mentions)
            (total_failed_urls + failed_urls)
            (all_failed_urls ++ failed_url_list)
            (db', (snd st ++ [q])%list)).
      { cbn [batch_loop]. unfold bind at 1. rewrite Erun.
        unfold bind at 1. rewrite Econnect.
        unfold bind at 1. now rewrite Eupdate. }
      rewrite Estep.
      specialize (IH (batch_idx + 1)%Z (total_mentions + mentions)%Z
                    (total_failed_urls + failed_urls)%Z
                    (all_failed_urls ++ failed_url_list)%list
                    (db', (snd st ++ [q])%list)).
      cbv zeta in IH.
      destruct IH as (more & I1 & I2 & I3).
      { unfold len in *. rewrite length_app. lia. }
      cbn [fst snd] in *.
      exists (added ++ more)%list.
      rewrite I1, Hrows', Hrows, app_assoc. split; [reflexivity|]. split.
      * destruct (fst (batch_loop _ _ _ _ _ _ _ _ _ _ _ _))
          as [[[m f] l]|e]; [|exact I2].
        destruct I2 as (J1 & J2 & J3). unfold len in *.
        rewrite length_app. split; [exact J1|]. split; [lia|].
        intro Hc. specialize (Hcommit Hc). specialize (J3 Hc). lia.
      * intro Hnone. destruct (Hpool' (Hpool Hnone)) as [-> _].
        destruct (I3 (Hpool Hnone)) as (K1 & K2 & sent & K3 & K4).
        split; [exact K1|]. split; [exact K2|].
        exists (q :: sent). rewrite K3, <- app_assoc. split; [reflexivity|].
        cbn [map List.length repeat]. now rewrite Hq, K4.
    + assert (Estep :
        batch_loop cfg server insert_time job_server pools job_id
          (batch :: rest) batch_idx total_mentions total_failed_urls
          all_failed_urls st
        = (Raise e, (db', snd st))).
      { cbn [batch_loop]. unfold bind at 1. rewrite Erun.
        unfold bind at 1. now rewrite Econnect. }
      rewrite Estep. cbn [fst snd]. exists added. rewrite Hrows', Hrows.
      split; [reflexivity|]. split; [exact I|].
      intro Hnone. destruct (Hpool' (Hpool Hnone)) as [_ [conn E]].
      discriminate.
Qed.

(** X29.  [scrape_all_celebrities] returns as its count of failed URLs
    the length of the list it returns, and never takes a row from the
    database; when every commit goes through, the rows gained are at
    least the mentions it reports, for an exception on the way makes it
    report none.  When the pool always hands out a connection, the job
    record is created, the batch size is positive and there are
    celebrities, the rows gained are the mentions reported, and the job
    table is sent one update per batch, none of which sets [end_time],
    and then one that does. *)
Theorem campaign_totals (db : Database) :
  let r := scrape_all_celebrities cfg server insert_time job_server
             all_celebrities new_job pools (db, []) in
  let total_mentions := fst (fst (fst r)) in
  let total_failed_urls := snd (fst (fst r)) in
  total_failed_urls = len (snd (fst r))
  /\ (0 <= total_mentions)%Z
  /\ exists added,
       rows (fst (snd r)) = (rows db ++ added)%list
       /\ (commits -> (total_mentions <= len added)%Z)
       /\ (refusals db = [] ->
           forall job_id step,
           new_job = Return job_id ->
           CELEBRITIES_PER_BATCH cfg = Z.pos step ->
           all_celebrities <> [] ->
           (commits -> len added = total_mentions)
           /\ map sets_end_time (snd (snd r))
              = (repeat false
                   (List.length (batches_from all_celebrities step 0))
                 ++ [true])%list).
Proof.
  cbv zeta.
  enough (H : exists totals st',
    scrape_all_celebrities cfg server insert_time job_server
      all_celebrities new_job pools (db, []) = (totals, st')
    /\ snd (fst totals) = len (snd totals)
    /\ (0 <= fst (fst totals))%Z
    /\ exists added,
         rows (fst st') = (rows db ++ added)%list
         /\ (commits -> (fst (fst totals) <= len added)%Z)
         /\ (refusals db = [] ->
             forall job_id step,
             new_job = Return job_id ->
             CELEBRITIES_PER_BATCH cfg = Z.pos step ->
             all_celebrities <> [] ->
             (commits -> len added = fst (fst totals))
             /\ map sets_end_time (snd st')
                = (repeat false
                     (List.length (batches_from all_celebrities step 0))
                   ++ [true])%list))
    by (destruct H as (totals & st' & -> & H); exact H).
  unfold scrape_all_celebrities.
  unfold bind at 1.
  destruct (connect_spec (db, [])) as (o1 & db1 & E1 & R1 & P1).
  rewrite E1. cbn [fst snd] in *.
  destruct o1 as [conn1|e1].
  2:{ eexists; eexists; split; [reflexivity|].
      cbn [fst snd]. split; [reflexivity|]. split; [lia|].
      exists []. rewrite app_nil_r. split; [exact R1|].
      split; [intros _; cbn; lia|].
      intro Hpool. destruct (P1 Hpool) as [_ [conn E]]. discriminate. }
  destruct all_celebrities as [|celebrity roster] eqn:Eroster.
  { eexists; eexists; split; [reflexivity|].
    cbn [fst snd]. split; [reflexivity|]. split; [lia|].
    exists []. rewrite app_nil_r. split; [exact R1|].
    split; [intros _; cbn; lia|].
    intros _ job_id step _ _ Hne. now contradiction Hne. }
  rewrite <- Eroster.
  unfold bind at 1.
  destruct (connect_spec (db1, [])) as (o2 & db2 & E2 & R2 & P2).
  rewrite E2. cbn [fst snd] in *. rewrite R1 in R2.
  destruct o2 as [conn2|e2].
  2:{ eexists; eexists; split; [reflexivity|].
      cbn [fst snd]. split; [reflexivity|]. split; [lia|].
      exists []. rewrite app_nil_r. split; [exact R2|].
      split; [intros _; cbn; lia|].
      intro Hpool. destruct (P1 Hpool) as [-> _].
      destruct (P2 Hpool) as [_ [conn E]]. discriminate. }
  unfold bind at 1, lift at 1.
  destruct new_job as [job|e3] eqn:Ejob.
  2:{ eexists; eexists; split; [reflexivity|].
      cbn [fst snd]. split; [reflexivity|]. split; [lia|].
      exists []. rewrite app_nil_r. split; [exact R2|].
      split; [intros _; cbn; lia|].
      intros _ job_id step H. discriminate. }
  unfold bind at 1, lift at 1.
  destruct (split_into_batches all_celebrities (CELEBRITIES_PER_BATCH cfg))
    as [batches|e4] eqn:Esplit.
  2:{ eexists; eexists; split; [reflexivity|].
      cbn [fst snd]. split; [reflexivity|]. split; [lia|].
      exists []. rewrite app_nil_r. split; [exact R2|].
      split; [intros _; cbn; lia|].
      intros _ job_id step _ Hstep. unfold split_into_batches in Esplit.
      rewrite Hstep in Esplit. discriminate. }
  unfold bind at 1.
  pose proof (batch_loop_spec job batches 1 0 0 [] (db2, []) eq_refl) as H.
  cbv zeta in H. destruct H as (added & L1 & L2 & L3).
  destruct (batch_loop cfg server insert_time job_server pools job batches
              1 0 0 [] (db2, [])) as [[[[mentions failed] list]|e5] [db3 sent]].
  2:{ eexists; eexists; split; [reflexivity|].
      cbn [fst snd] in *. rewrite R2 in L1. split; [reflexivity|].
      split; [lia|]. exists added. split; [exact L1|].
      split; [intros _; unfold len; lia|].
      intro Hpool. destruct (P1 Hpool) as [-> _].
      destruct (P2 Hpool) as [-> _].
      destruct (L3 Hpool) as (_ & [totals E] & _). discriminate. }
  cbn [fst snd] in *. rewrite R2 in L1.
  destruct L2 as (Hfailed & Hle & Hcommit).
  unfold bind at 1.
  destruct (connect_spec (db3, sent)) as (o4 & db4 & E4 & R4 & P4).
  rewrite E4. cbn [fst snd] in *.
  destruct o4 as [conn4|e6].
  2:{ eexists; eexists; split; [reflexivity|].
      cbn [fst snd]. split; [reflexivity|]. split; [lia|].
      exists added. rewrite R4. split; [exact L1|].
      split; [intros _; unfold len; lia|].
      intro Hpool. destruct (P1 Hpool) as [-> _].
      destruct (P2 Hpool) as [-> _].
      destruct (L3 Hpool) as (Hpool3 & _).
      destruct (P4 Hpool3) as [_ [conn E]]. discriminate. }
  unfold bind at 1.
  destruct (update_job_spec job (Some "completed"%string) mentions
              (len all_celebrities * 20) (db4, sent) (or_intror eq_refl))
    as (answer & q & Eupdate & Hq).
  rewrite Eupdate.
  eexists; eexists; split; [reflexivity|].
  cbn [fst snd].
  split; [exact Hfailed|]. split; [unfold len in *; lia|].
  exists added. rewrite R4. split; [exact L1|].
  split; [intro Hc; rewrite (Hcommit Hc); lia|].
  intros Hpool job_id step _ Hstep _.
  split; [intro Hc; rewrite (Hcommit Hc); lia|].
  destruct (P1 Hpool) as [-> _]. destruct (P2 Hpool) as [-> _].
  destruct (L3 Hpool) as (_ & _ & sent' & S1 & S2).
  cbn [app] in S1. subst sent'.
  unfold split_into_batches in Esplit. rewrite Hstep in Esplit.
  injection Esplit as <-.
  now rewrite map_app, S2, <- Hq.
Qed.

End All.

(** A database with no rows whose pool never fails, a job table that
    takes every query, and one celebrity whose worker finds nothing. *)
Definition empty_database : Database := {| rows := []; refusals := [] |}.

Definition plain_jobs : JobServer :=
  {| execute_error := fun _ => None; job_commit_error := fun _ => None |}.

Definition one_celebrity : list Celebrity := [(1%Z, TextFacts.headline)].

Definition quiet_pools (batch_idx : Z) (batch : list Celebrity)
  : outcome (list (outcome WorkerResult)) :=
  Return (map (fun c => Return (without_mentions (fst c)
                                  "No search results found")) batch).

Lemma campaign_totals_one_celebrity :
  map sets_end_time
    (snd (snd (scrape_all_celebrities RetryFacts.five_keys
                 StoreFacts.plain_server "2025-01-01T00:00:00" plain_jobs
                 one_celebrity (Return 7%Z) quiet_pools
                 (empty_database, []))))
  = (repeat false (List.length (batches_from one_celebrity 20 0))
     ++ [true])%list.
Proof.
  destruct (campaign_totals RetryFacts.five_keys StoreFacts.plain_server
              "2025-01-01T00:00:00" plain_jobs one_celebrity (Return 7%Z)
              quiet_pools empty_database)
    as (_ & _ & added & _ & _ & H).
  refine (proj2 (H eq_refl 7%Z 20%positive eq_refl eq_refl _)).
  discriminate.
Defined.

End CampaignFacts.
